(** * Transcendental stream / pattern engine: a shallow embedding

    The Python sources embedded here are
      - [src/transcendental/digits.py]    (module [Digits]),
      - [src/transcendental/streams.py]   (module [Streams]),
      - [src/transcendental/patterns.py]  (module [Patterns]),
      - [src/crypto/keys.py]              (module [Keys]).

    Python integers are [Z]; NumPy [uint8] cells are [Z] with the wrap-around
    modulo 256 written out where the code computes in that type; Python
    exceptions are the [Raise] side of [result]; the mutable attributes the
    code keeps ([PrivateKey._matches], the [StreamGenerator] singleton) are
    threaded explicitly.

    Two library functions decide several statements and are modelled from
    their published algorithms: [hashlib.sha256] (FIPS 180-4, module
    [Sha256]) and [numpy.random.RandomState] (MT19937 with the legacy seeding
    and masked rejection sampling of [randint], module [Numpy]). Both are
    checked below against published test vectors. *)

From Stdlib Require Import ZArith List String Ascii Bool Lia Sorted.
Import ListNotations.

Local Open Scope Z_scope.
Local Open Scope list_scope.

(* ------------------------------------------------------------------ *)
(** ** Exceptions and the result monad *)

(** The exception classes the embedded code can raise.  [Diverges] is not a
    Python exception: it marks a loop of the model that ran out of fuel. *)
Inductive exn : Type :=
| ValueError
| IndexError
| TypeError
| ZeroDivisionError
| FileNotFoundError
| Diverges.

Inductive result (A : Type) : Type :=
| Ok (a : A)
| Raise (e : exn).

Arguments Ok {A} a.
Arguments Raise {A} e.

Definition bind {A B : Type} (m : result A) (k : A -> result B) : result B :=
  match m with
  | Ok a => k a
  | Raise e => Raise e
  end.

Notation "x <- m ;; k" := (bind m (fun x => k))
  (at level 61, m at next level, right associativity).
Notation "' p <- m ;; k" := (bind m (fun x => let p := x in k))
  (at level 61, p pattern, m at next level, right associativity).

(* ------------------------------------------------------------------ *)
(** ** Python built-ins used by the sources *)

(** [len(l)] as a Python integer. *)
Definition len {A : Type} (l : list A) : Z := Z.of_nat (List.length l).

(** [range(a, b)]. *)
Definition range (a b : Z) : list Z :=
  map (fun i => a + Z.of_nat i) (seq 0 (Z.to_nat (b - a))).

(** [range(a, b, step)] for a positive [step]. *)
Definition range_step (a b step : Z) : list Z :=
  map (fun i => a + Z.of_nat i * step)
      (seq 0 (Z.to_nat ((b - a + step - 1) / step))).

(** [l[:k]]: a negative bound counts from the end. *)
Definition slice_to {A : Type} (k : Z) (l : list A) : list A :=
  if 0 <=? k then firstn (Z.to_nat k) l
  else firstn (Z.to_nat (len l + k)) l.

(** [l[a:b]]: a negative bound counts from the end, both bounds are
    clamped to the list. *)
Definition slice_bound {A : Type} (l : list A) (i : Z) : Z :=
  if i <? 0 then Z.max 0 (i + len l) else Z.min i (len l).

Definition slice {A : Type} (a b : Z) (l : list A) : list A :=
  let a := slice_bound l a in
  let b := slice_bound l b in
  firstn (Z.to_nat (b - a)) (skipn (Z.to_nat a) l).

(** [l[i]] on a Python list, for the non-negative indices the sources use. *)
Definition list_getitem (l : list Z) (i : Z) : result Z :=
  if (0 <=? i) && (i <? len l) then Ok (nth (Z.to_nat i) l 0)
  else Raise IndexError.

(** [a[i]] on a NumPy array: a negative index counts from the end, an index
    outside [-len, len) raises [IndexError]. *)
Definition np_getitem (a : list Z) (i : Z) : result Z :=
  if (0 <=? i) && (i <? len a) then Ok (nth (Z.to_nat i) a 0)
  else if (- len a <=? i) && (i <? 0) then Ok (nth (Z.to_nat (len a + i)) a 0)
  else Raise IndexError.

(** [str(n)] for an integer. *)
Definition digit_char (d : Z) : ascii := ascii_of_nat (48 + Z.to_nat d).

Fixpoint str_pos (fuel : nat) (n : Z) (acc : string) : string :=
  match fuel with
  | O => acc
  | S fuel' =>
      let acc' := String (digit_char (n mod 10)) acc in
      if n <? 10 then acc' else str_pos fuel' (n / 10) acc'
  end.

Definition str (n : Z) : string :=
  if n <? 0 then String "-"%char (str_pos (S (Z.to_nat (Z.log2 (- n)))) (- n) EmptyString)
  else str_pos (S (Z.to_nat (Z.log2 n))) n EmptyString.

(** ["".join(parts)]. *)
Definition join (parts : list string) : string :=
  fold_right String.append EmptyString parts.

(** [sep.join(parts)]. *)
Fixpoint join_with (sep : string) (parts : list string) : string :=
  match parts with
  | [] => EmptyString
  | [p] => p
  | p :: rest => String.append p (String.append sep (join_with sep rest))
  end.

(** [s.encode()]: the strings of this development hold ASCII characters
    only, whose UTF-8 encoding is the character code. *)
Definition encode (s : string) : list Z :=
  map (fun c => Z.of_nat (nat_of_ascii c)) (list_ascii_of_string s).

(* ------------------------------------------------------------------ *)
(** ** [hashlib.sha256] (FIPS 180-4) *)

Module Sha256.

Definition w32 (x : Z) : Z := Z.land x 0xFFFFFFFF.
Definition add32 (x y : Z) : Z := w32 (x + y).
Definition rotr (n x : Z) : Z := Z.lor (Z.shiftr x n) (w32 (Z.shiftl x (32 - n))).
Definition not32 (x : Z) : Z := Z.lxor x 0xFFFFFFFF.

Definition Ch (x y z : Z) : Z := Z.lxor (Z.land x y) (Z.land (not32 x) z).
Definition Maj (x y z : Z) : Z :=
  Z.lxor (Z.lxor (Z.land x y) (Z.land x z)) (Z.land y z).
Definition Sigma0 (x : Z) : Z := Z.lxor (Z.lxor (rotr 2 x) (rotr 13 x)) (rotr 22 x).
Definition Sigma1 (x : Z) : Z := Z.lxor (Z.lxor (rotr 6 x) (rotr 11 x)) (rotr 25 x).
Definition sigma0 (x : Z) : Z := Z.lxor (Z.lxor (rotr 7 x) (rotr 18 x)) (Z.shiftr x 3).
Definition sigma1 (x : Z) : Z := Z.lxor (Z.lxor (rotr 17 x) (rotr 19 x)) (Z.shiftr x 10).

(** The first [n] primes, found among the candidates from 2 on. *)
Definition is_prime (p : Z) : bool :=
  forallb (fun d => negb (p mod d =? 0)) (range 2 p).

Definition first_primes (n : nat) : list Z :=
  firstn n (filter is_prime (range 2 312)).

(** The largest [x + y] with [y < 2^n] and [(x + y)^3 <= target]. *)
Fixpoint cube_root_bits (n : nat) (x target : Z) : Z :=
  match n with
  | O => x
  | S n' =>
      let y := x + 2 ^ Z.of_nat n' in
      if y * y * y <=? target then cube_root_bits n' y target
      else cube_root_bits n' x target
  end.

(** The round constants: the first 32 bits of the fractional parts of the
    cube roots of the first 64 primes. *)
Definition K : list Z :=
  Eval vm_compute in
    map (fun p => w32 (cube_root_bits 36 0 (p * 2 ^ 96))) (first_primes 64).

(** The initial hash value: the first 32 bits of the fractional parts of
    the square roots of the first 8 primes. *)
Definition H0 : list Z :=
  Eval vm_compute in map (fun p => w32 (Z.sqrt (p * 2 ^ 64))) (first_primes 8).

(** Big-endian bytes of [x], [n] of them. *)
Fixpoint be_bytes (n : nat) (x : Z) : list Z :=
  match n with
  | O => []
  | S n' => Z.land (Z.shiftr x (8 * Z.of_nat n')) 0xFF :: be_bytes n' x
  end.

(** Message padding: 0x80, zeros up to 56 modulo 64, the bit length on
    eight bytes. *)
Definition pad (msg : list Z) : list Z :=
  let l := len msg in
  let zeros := Z.to_nat ((55 - l) mod 64) in
  msg ++ [0x80] ++ repeat 0 zeros ++ be_bytes 8 (8 * l).

(** The sixteen big-endian words of a 64-byte block. *)
Fixpoint words (n : nat) (bs : list Z) : list Z :=
  match n, bs with
  | S n', b0 :: b1 :: b2 :: b3 :: rest =>
      (Z.shiftl b0 24 + Z.shiftl b1 16 + Z.shiftl b2 8 + b3) :: words n' rest
  | _, _ => []
  end.

(** Message schedule, kept newest first: [rev_w] holds W[t-1], W[t-2], ... *)
Fixpoint schedule (n : nat) (rev_w : list Z) : list Z :=
  match n with
  | O => rev_w
  | S n' =>
      let w := add32 (add32 (sigma1 (nth 1 rev_w 0)) (nth 6 rev_w 0))
                     (add32 (sigma0 (nth 14 rev_w 0)) (nth 15 rev_w 0)) in
      schedule n' (w :: rev_w)
  end.

Record regs : Type := Regs { ra : Z; rb : Z; rc : Z; rd : Z; re : Z; rf : Z; rg : Z; rh : Z }.

Definition round (s : regs) (kw : Z * Z) : regs :=
  let t1 := add32 (add32 (add32 (rh s) (Sigma1 (re s))) (Ch (re s) (rf s) (rg s)))
                  (add32 (fst kw) (snd kw)) in
  let t2 := add32 (Sigma0 (ra s)) (Maj (ra s) (rb s) (rc s)) in
  Regs (add32 t1 t2) (ra s) (rb s) (rc s) (add32 (rd s) t1) (re s) (rf s) (rg s).

Definition regs_of (h : list Z) : regs :=
  Regs (nth 0 h 0) (nth 1 h 0) (nth 2 h 0) (nth 3 h 0)
       (nth 4 h 0) (nth 5 h 0) (nth 6 h 0) (nth 7 h 0).

Definition compress (h : list Z) (block : list Z) : list Z :=
  let w := rev (schedule 48 (rev (words 16 block))) in
  let s0 := regs_of h in
  let s := fold_left round (combine K w) s0 in
  [ add32 (ra s0) (ra s); add32 (rb s0) (rb s); add32 (rc s0) (rc s);
    add32 (rd s0) (rd s); add32 (re s0) (re s); add32 (rf s0) (rf s);
    add32 (rg s0) (rg s); add32 (rh s0) (rh s) ].

Fixpoint blocks (n : nat) (h : list Z) (bs : list Z) : list Z :=
  match n with
  | O => h
  | S n' => blocks n' (compress h (firstn 64 bs)) (skipn 64 bs)
  end.

(** [hashlib.sha256(msg).digest()]. *)
Definition digest (msg : list Z) : list Z :=
  let p := pad msg in
  flat_map (be_bytes 4) (blocks (Nat.div (List.length p) 64) H0 p).

Definition hex_char (d : Z) : ascii :=
  if d <? 10 then ascii_of_nat (48 + Z.to_nat d)
  else ascii_of_nat (87 + Z.to_nat d).

Fixpoint hex (bs : list Z) : string :=
  match bs with
  | [] => EmptyString
  | b :: rest => String (hex_char (b / 16)) (String (hex_char (b mod 16)) (hex rest))
  end.

(** [hashlib.sha256(msg).hexdigest()]. *)
Definition hexdigest (msg : list Z) : string := hex (digest msg).

End Sha256.

(* ------------------------------------------------------------------ *)
(** ** [numpy.random.RandomState] *)

(** The legacy generator of NumPy: MT19937 seeded by [init_genrand], and
    [randint] drawing by masked rejection from the 32-bit (or, for wide
    ranges, 64-bit) outputs. *)
Module Numpy.

Definition w32 (x : Z) : Z := Z.land x 0xFFFFFFFF.

Definition RK_STATE_LEN : nat := 624.
Definition UPPER_MASK : Z := 0x80000000.
Definition LOWER_MASK : Z := 0x7FFFFFFF.
Definition MATRIX_A : Z := 0x9908B0DF.

Record mt19937_state : Type := MkState { key : list Z; pos : nat }.

(** [mt19937_seed]: key[0] = seed, key[i] = 1812433253 * (key[i-1] ^
    (key[i-1] >> 30)) + i, on 32 bits. *)
Fixpoint init_key (n : nat) (i : Z) (seed : Z) : list Z :=
  match n with
  | O => []
  | S n' =>
      seed :: init_key n' (i + 1)
                (w32 (1812433253 * Z.lxor seed (Z.shiftr seed 30) + i + 1))
  end.

Definition mt19937_seed (seed : Z) : mt19937_state :=
  MkState (init_key RK_STATE_LEN 0 (w32 seed)) RK_STATE_LEN.

(** [mt19937_gen]: the next 624 words of the recurrence
    x[k+624] = x[k+397] ^ twist(x[k], x[k+1]); the in-place loops of the
    reference code compute exactly these, the window slides instead. *)
Fixpoint mt19937_gen (n : nat) (window : list Z) : list Z :=
  match n with
  | O => window
  | S n' =>
      let y := Z.lor (Z.land (nth 0 window 0) UPPER_MASK)
                     (Z.land (nth 1 window 0) LOWER_MASK) in
      let v := Z.lxor (Z.lxor (nth 397 window 0) (Z.shiftr y 1))
                      (if Z.odd y then MATRIX_A else 0) in
      mt19937_gen n' (tl window ++ [v])
  end.

Definition temper (y : Z) : Z :=
  let y := Z.lxor y (Z.shiftr y 11) in
  let y := Z.lxor y (Z.land (Z.shiftl y 7) 0x9D2C5680) in
  let y := Z.lxor y (Z.land (Z.shiftl y 15) 0xEFC60000) in
  Z.lxor y (Z.shiftr y 18).

(** [mt19937_next]: one 32-bit output. *)
Definition next_uint32 (st : mt19937_state) : Z * mt19937_state :=
  let st := if Nat.eqb (pos st) RK_STATE_LEN
            then MkState (mt19937_gen RK_STATE_LEN (key st)) 0 else st in
  (temper (nth (pos st) (key st) 0), MkState (key st) (S (pos st))).

Definition next_uint64 (st : mt19937_state) : Z * mt19937_state :=
  let '(hi, st) := next_uint32 st in
  let '(lo, st) := next_uint32 st in
  (Z.lor (Z.shiftl hi 32) lo, st).

(** [RandomState(seed)] for an integer seed ([_legacy_seeding]): a seed
    outside [0, 2**32 - 1] raises
    [ValueError("Seed must be between 0 and 2**32 - 1")]. *)
Definition RandomState (seed : Z) : result mt19937_state :=
  if (seed >? 2 ^ 32 - 1) || (seed <? 0) then Raise ValueError
  else Ok (mt19937_seed seed).

(** [gen_mask]: the smallest 2^k - 1 that is at least [rng]. *)
Definition gen_mask (rng : Z) : Z :=
  if rng =? 0 then 0 else 2 ^ (Z.log2 rng + 1) - 1.

(** [buffered_bounded_masked_uint32] and its 64-bit sibling:
    [while ((val = next(state) & mask) > rng);].  The loop has no bound in
    the library; [fuel] bounds it here. *)
Fixpoint bounded_masked (fuel : nat) (next : mt19937_state -> Z * mt19937_state)
         (rng mask : Z) (st : mt19937_state) : result (Z * mt19937_state) :=
  match fuel with
  | O => Raise Diverges
  | S fuel' =>
      let '(v, st') := next st in
      let val := Z.land v mask in
      if val >? rng then bounded_masked fuel' next rng mask st'
      else Ok (val, st')
  end.

(** One draw of [random_bounded_uint64_fill(state, off, rng, ...)] with
    [use_masked]. *)
Definition bounded_uint64 (fuel : nat) (off rng : Z) (st : mt19937_state)
  : result (Z * mt19937_state) :=
  if rng =? 0 then Ok (off, st)
  else if rng <=? 0xFFFFFFFF then
    if rng =? 0xFFFFFFFF then
      let '(v, st') := next_uint32 st in Ok (off + v, st')
    else
      '(v, st') <- bounded_masked fuel next_uint32 rng (gen_mask rng) st ;;
      Ok (off + v, st')
  else if rng =? 0xFFFFFFFFFFFFFFFF then
    let '(v, st') := next_uint64 st in Ok (off + v, st')
  else
    '(v, st') <- bounded_masked fuel next_uint64 rng (gen_mask rng) st ;;
    Ok (off + v, st').

Fixpoint fill (fuel : nat) (cnt : nat) (off rng : Z) (st : mt19937_state)
  : result (list Z * mt19937_state) :=
  match cnt with
  | O => Ok ([], st)
  | S cnt' =>
      '(v, st1) <- bounded_uint64 fuel off rng st ;;
      '(vs, st2) <- fill fuel cnt' off rng st1 ;;
      Ok (v :: vs, st2)
  end.

(** [rng.randint(low, high, size=size)] with the default 64-bit integer
    type: [low >= high], bounds outside the type and a negative [size]
    raise [ValueError]. *)
Definition randint (fuel : nat) (st : mt19937_state) (low high size : Z)
  : result (list Z * mt19937_state) :=
  if (low <? - 2 ^ 63) || (high >? 2 ^ 63) || (low >=? high) then Raise ValueError
  else if size <? 0 then Raise ValueError
  else fill fuel (Z.to_nat size) low (high - 1 - low) st.

End Numpy.

(** The [n]-th 32-bit output after a state, counting from 0. *)
Fixpoint nth_output (n : nat) (st : Numpy.mt19937_state) : Z :=
  match n with
  | O => fst (Numpy.next_uint32 st)
  | S n' => nth_output n' (snd (Numpy.next_uint32 st))
  end.

(* ------------------------------------------------------------------ *)
(** ** [src/transcendental/digits.py] *)

Module Digits.

Definition PI_START : string :=
  "3.1415926535897932384626433832795028841971693993751058209749445923078164062862089986280348253421170679".
Definition E_START : string :=
  "2.7182818284590452353602874713526624977572470936999595749669676277240766303535475945713821785251664274".

(** The two digit files as the store finds them on disk: their bytes, or
    [None] for a missing file.  The range caches [_pi_cache] and [_e_cache]
    only replay the value the same call computed before and are left out. *)
Record DigitStore : Type := MkDigitStore {
  pi_file : option (list Z);
  e_file : option (list Z)
}.

(** [DigitStore.open], as far as it can fail: both files must exist, and
    [mmap.mmap] refuses an empty file with [ValueError].  Returns the two
    memory maps. *)
Definition open (s : DigitStore) : result (list Z * list Z) :=
  match pi_file s, e_file s with
  | Some p, Some e =>
      match p, e with
      | [], _ | _, [] => Raise ValueError
      | _, _ => Ok (p, e)
      end
  | _, _ => Raise FileNotFoundError
  end.

(** [chr(b).isdigit()] for a byte [b]: the ASCII digits and the three
    superscript digits of Latin-1. *)
Definition isdigit (b : Z) : bool :=
  ((48 <=? b) && (b <=? 57)) || (b =? 0xB2) || (b =? 0xB3) || (b =? 0xB9).

(** [int(chr(b))]: the superscript digits are refused with [ValueError]. *)
Definition int_of_char (b : Z) : result Z :=
  if (48 <=? b) && (b <=? 57) then Ok (b - 48) else Raise ValueError.

(** [mmap[pos]]. *)
Definition mmap_getitem (m : list Z) (pos : Z) : result Z :=
  if (0 <=? pos) && (pos <? len m) then Ok (nth (Z.to_nat pos) m 0)
  else Raise IndexError.

(** [while pos < len(m) and chr(m[pos]) != '.': pos += 1], from [pos = 0]. *)
Fixpoint skip_to_point (m : list Z) : Z :=
  match m with
  | [] => 0
  | c :: rest => if c =? 46 then 0 else 1 + skip_to_point rest
  end.

(** The body of [for _ in range(start)]: the inner
    [while pos < len(m)] loop, which leaves at the first digit it passes
    and wraps to 0 only after a non-digit in last place.  When the file
    holds no digit the loop never ends; [fuel] of twice the file length
    tells that case. *)
Fixpoint skip_one_loop (fuel : nat) (m : list Z) (pos : Z) : result Z :=
  if pos <? len m then
    match fuel with
    | O => Raise Diverges
    | S fuel' =>
        char <- mmap_getitem m pos ;;
        let pos := pos + 1 in
        if isdigit char then Ok pos
        else
          let pos := if pos >=? len m then 0 else pos in
          skip_one_loop fuel' m pos
    end
  else Ok pos.

Definition skip_one (m : list Z) (pos : Z) : result Z :=
  skip_one_loop (2 * List.length m + 1) m pos.

(** [for _ in range(start): ...]. *)
Definition skip_digits (m : list Z) (start : Z) (pos : Z) : result Z :=
  N.iter (Z.to_N start) (fun r => p <- r ;; skip_one m p) (Ok pos).

(** [while digit_count < length: ...], [remaining = length - digit_count]. *)
Fixpoint read_loop (fuel : nat) (m : list Z) (pos : Z) (remaining : nat)
  : result (list Z) :=
  match remaining with
  | O => Ok []
  | S remaining' =>
      match fuel with
      | O => Raise Diverges
      | S fuel' =>
          let pos := if pos >=? len m then 0 else pos in
          char <- mmap_getitem m pos ;;
          let pos := pos + 1 in
          if isdigit char then
            d <- int_of_char char ;;
            ds <- read_loop fuel' m pos remaining' ;;
            Ok (d :: ds)
          else read_loop fuel' m pos remaining
      end
  end.

(** The common body of [get_pi_digits] and [get_e_digits] once the memory
    map [m] is open: find the point, skip [start] digits, read [length]
    digits.  A digit is at most [len(m)] iterations of the read loop away,
    so the fuel runs out only when the file holds no digit at all. *)
Definition extract_digits (m : list Z) (start length : Z) : result (list Z) :=
  let pos := skip_to_point m in
  let pos := pos + 1 in
  pos <- skip_digits m start pos ;;
  read_loop (Z.to_nat length * List.length m + 1) m pos (Z.to_nat length).

(** [DigitStore.get_pi_digits(start, length)]. *)
Definition get_pi_digits (s : DigitStore) (start length : Z) : result (list Z) :=
  if (start <? 0) || (length <=? 0) then Raise ValueError
  else '(p, _) <- open s ;; extract_digits p start length.

(** [DigitStore.get_e_digits(start, length)]. *)
Definition get_e_digits (s : DigitStore) (start length : Z) : result (list Z) :=
  if (start <? 0) || (length <=? 0) then Raise ValueError
  else '(_, e) <- open s ;; extract_digits e start length.

(** The store [download_digits] leaves behind when no digit file ships with
    the package: each file holds exactly the hard-coded prefix. *)
Definition builtin_store : DigitStore :=
  MkDigitStore (Some (encode PI_START)) (Some (encode E_START)).

(** [os.path.exists(path)] for a file of the store. *)
Definition exists_ (file : option (list Z)) : bool :=
  match file with
  | Some _ => true
  | None => false
  end.

(** One of the two halves of [download_digits]: the file is written when
    [force] is set or when it is missing, as a copy of the file that ships
    with the package when there is one, and else as the hard-coded prefix. *)
Definition download_one (force : bool) (shipped : option (list Z)) (start : string)
           (file : option (list Z)) : option (list Z) :=
  if force || negb (exists_ file) then
    match shipped with
    | Some bytes => Some bytes
    | None => Some (encode start)
    end
  else file.

(** [DigitStore.download_digits(force)]: [shipped] holds the files
    [data/pi_1m.txt] and [data/e_1m.txt] beside the sources, which are other
    files than those of the store. *)
Definition download_digits (shipped : DigitStore) (force : bool) (s : DigitStore)
  : DigitStore :=
  MkDigitStore (download_one force (pi_file shipped) PI_START (pi_file s))
               (download_one force (e_file shipped) E_START (e_file s)).

End Digits.

(* ------------------------------------------------------------------ *)
(** ** [src/transcendental/streams.py] *)

Module Streams.

(** What the process reads from its surroundings: the digit store behind
    [get_digit_store()] and [multiprocessing.cpu_count()]. *)
Record Env : Type := MkEnv {
  digit_store : Digits.DigitStore;
  cpu_count : Z
}.

(** The width of the unsigned type NumPy gives [array % modulus] for a
    [uint8] array and a Python integer, under the promotion by value of
    NumPy 1.x: the smallest unsigned type that holds the modulus.  There is
    none for a negative modulus, whose remainders are signed, and for one
    of 2^64 or more, whose remainders are Python integers.  (Under NumPy 2
    the modulus is cast to [uint8], and one outside 0..255 raises
    [OverflowError].) *)
Definition result_width (modulus : Z) : option Z :=
  if modulus <? 0 then None
  else if modulus <=? 255 then Some 8
  else if modulus <=? 65535 then Some 16
  else if modulus <=? 2 ^ 32 - 1 then Some 32
  else if modulus <=? 2 ^ 64 - 1 then Some 64
  else None.

(** One cell of [(result + chunk) % modulus].  [result] starts as a
    [uint8] array of zeros, the digit chunks are [uint8], and from the
    first remainder on [result] has the type of [result_width]: the sum
    wraps at that width before it is reduced (the first sum, of a zero and
    a digit, wraps at no width).  A zero modulus gives 0.  A signed
    remainder has the sign of the divisor, and its sum with a digit does
    not leave its type. *)
Definition add_mod (modulus r d : Z) : Z :=
  if modulus =? 0 then 0
  else match result_width modulus with
       | Some width => ((r + d) mod 2 ^ width) mod modulus
       | None => (r + d) mod modulus
       end.

(** [for offset in offsets: result = (result + get(offset + start,
    chunk_length)) % modulus]. *)
Fixpoint accumulate (get : Z -> Z -> result (list Z)) (start chunk_length modulus : Z)
         (offsets : list Z) (acc : list Z) : result (list Z) :=
  match offsets with
  | [] => Ok acc
  | offset :: rest =>
      let adjusted_offset := offset + start in
      chunk <- get adjusted_offset chunk_length ;;
      accumulate get start chunk_length modulus rest
                 (map (fun rd => add_mod modulus (fst rd) (snd rd)) (combine acc chunk))
  end.

(** [_generate_stream_chunk(start, end, pi_offsets, e_offsets, modulus)]. *)
Definition _generate_stream_chunk (env : Env) (start end_ : Z)
           (pi_offsets e_offsets : list Z) (modulus : Z) : result (list Z) :=
  let chunk_length := end_ - start in
  if chunk_length <? 0 then Raise ValueError
  else
    let result := repeat 0 (Z.to_nat chunk_length) in
    let store := digit_store env in
    result <- accumulate (Digits.get_pi_digits store) start chunk_length modulus
                         pi_offsets result ;;
    accumulate (Digits.get_e_digits store) start chunk_length modulus
               e_offsets result.

(** [[f(start, end) for start, end in chunks]] followed by
    [np.concatenate]. *)
Fixpoint collect (f : Z -> Z -> result (list Z)) (chunks : list (Z * Z))
  : result (list (list Z)) :=
  match chunks with
  | [] => Ok []
  | (start, end_) :: rest =>
      r <- f start end_ ;;
      rs <- collect f rest ;;
      Ok (r :: rs)
  end.

(** [np.concatenate(results)]: an empty list of arrays is refused. *)
Definition concatenate (results : list (list Z)) : result (list Z) :=
  match results with
  | [] => Raise ValueError
  | _ => Ok (List.concat results)
  end.

(** [generate_synthetic_stream(pi_offsets, e_offsets, length, modulus,
    threads)].  A zero [threads] divides by zero; the process pool refuses a
    worker count below one. *)
Definition generate_synthetic_stream (env : Env) (pi_offsets e_offsets : list Z)
           (length modulus : Z) (threads : option Z) : result (list Z) :=
  let threads := match threads with
                 | None => Z.max 1 (cpu_count env - 1)
                 | Some t => t
                 end in
  if threads =? 0 then Raise ZeroDivisionError
  else
    let chunk_size := Z.max 1 (length / threads) in
    let chunks := map (fun i => (i, Z.min (i + chunk_size) length))
                      (range_step 0 length chunk_size) in
    if threads <? 1 then Raise ValueError
    else
      results <- collect (fun start end_ =>
                            _generate_stream_chunk env start end_
                                                   pi_offsets e_offsets modulus)
                         chunks ;;
      concatenate results.

(** [_generate_offsets_from_seed(seed, count)]; [rng_fuel] bounds each
    rejection loop of [randint]. *)
Definition _generate_offsets_from_seed (rng_fuel : nat) (seed count : Z)
  : result (list Z) :=
  rng <- Numpy.RandomState seed ;;
  let max_offset := 1000000000 in
  '(offsets, _) <- Numpy.randint rng_fuel rng 0 max_offset count ;;
  Ok offsets.

(** [generate_streams_from_seeds(pi_seed, e_seed, num_offsets, length,
    modulus, threads)]. *)
Definition generate_streams_from_seeds (rng_fuel : nat) (env : Env)
           (pi_seed e_seed num_offsets length modulus : Z) (threads : option Z)
  : result (list Z) :=
  pi_offsets <- _generate_offsets_from_seed rng_fuel pi_seed num_offsets ;;
  e_offsets <- _generate_offsets_from_seed rng_fuel e_seed num_offsets ;;
  generate_synthetic_stream env pi_offsets e_offsets length modulus threads.

(** The attributes of a [StreamGenerator]; [_cache] maps a length to the
    stream generated for it. *)
Record StreamGenerator : Type := MkStreamGenerator {
  pi_offsets : list Z;
  e_offsets : list Z;
  modulus : Z;
  threads : option Z;
  _cache : list (Z * list Z)
}.

(** [StreamGenerator()] with its defaults. *)
Definition StreamGenerator_init : StreamGenerator :=
  MkStreamGenerator [] [] 10 None [].

(** [self._cache[k]] lookup and [self._cache[k] = v]. *)
Fixpoint cache_get (c : list (Z * list Z)) (k : Z) : option (list Z) :=
  match c with
  | [] => None
  | (k', v) :: rest => if k' =? k then Some v else cache_get rest k
  end.

Fixpoint cache_set (c : list (Z * list Z)) (k : Z) (v : list Z) : list (Z * list Z) :=
  match c with
  | [] => [(k, v)]
  | (k', v') :: rest => if k' =? k then (k, v) :: rest else (k', v') :: cache_set rest k v
  end.

(** [set_parameters(pi_offsets=..., e_offsets=...)] as [from_seeds] calls
    it: modulus and threads are kept, the cache is cleared. *)
Definition set_parameters (g : StreamGenerator) (pi_offsets e_offsets : list Z)
  : StreamGenerator :=
  MkStreamGenerator pi_offsets e_offsets (modulus g) (threads g) [].

(** [StreamGenerator.from_seeds(pi_seed, e_seed, num_offsets)]. *)
Definition from_seeds (rng_fuel : nat) (g : StreamGenerator)
           (pi_seed e_seed num_offsets : Z) : result StreamGenerator :=
  pi_offsets <- _generate_offsets_from_seed rng_fuel pi_seed num_offsets ;;
  e_offsets <- _generate_offsets_from_seed rng_fuel e_seed num_offsets ;;
  Ok (set_parameters g pi_offsets e_offsets).

(** [StreamGenerator.generate(length)]: returns the stream and the
    generator with its cache updated. *)
Definition generate (env : Env) (g : StreamGenerator) (length : Z)
  : result (list Z * StreamGenerator) :=
  match pi_offsets g, e_offsets g with
  | [], [] => Raise ValueError
  | _, _ =>
      let cache_key := length in
      match cache_get (_cache g) cache_key with
      | Some stream => Ok (stream, g)
      | None =>
          stream <- generate_synthetic_stream env (pi_offsets g) (e_offsets g)
                                              length (modulus g) (threads g) ;;
          let g' := if len (_cache g) <? 10
                    then MkStreamGenerator (pi_offsets g) (e_offsets g) (modulus g)
                                           (threads g) (cache_set (_cache g) cache_key stream)
                    else g in
          Ok (stream, g')
      end
  end.

(** [get_stream_generator()]: the module-level singleton, created on first
    use. *)
Definition get_stream_generator (singleton : option StreamGenerator) : StreamGenerator :=
  match singleton with
  | None => StreamGenerator_init
  | Some g => g
  end.

(** [get_synthetic_stream(pi_seed, e_seed, length, num_offsets, modulus,
    threads)]: its [modulus] and [threads] arguments are not used, the
    singleton's own attributes are.  Returns the stream and the singleton. *)
Definition get_synthetic_stream (rng_fuel : nat) (env : Env)
           (singleton : option StreamGenerator)
           (pi_seed e_seed length num_offsets modulus_ : Z) (threads_ : option Z)
  : result (list Z * option StreamGenerator) :=
  let generator := get_stream_generator singleton in
  generator <- from_seeds rng_fuel generator pi_seed e_seed num_offsets ;;
  '(stream, generator) <- generate env generator length ;;
  Ok (stream, Some generator).

End Streams.

(* ------------------------------------------------------------------ *)
(** ** Dictionaries of the [to_dict] and [from_dict] methods *)

(** A dictionary is modelled with the keys and the value types its
    [to_dict] writes: an entry is [None] when the dictionary lacks the
    key.  Loading raises [KeyError] for a missing key, or what the
    constructor raises. *)
Module Dicts.

Inductive load_exn : Type :=
| KeyError (key : string)
| Init (e : exn).

Inductive loaded (A : Type) : Type :=
| Loaded (a : A)
| Failed (e : load_exn).

Arguments Loaded {A} a.
Arguments Failed {A} e.

Definition and_then {A B : Type} (m : loaded A) (k : A -> loaded B) : loaded B :=
  match m with
  | Loaded a => k a
  | Failed e => Failed e
  end.

(** [data[key]]. *)
Definition getitem {A : Type} (key : string) (entry : option A) : loaded A :=
  match entry with
  | Some v => Loaded v
  | None => Failed (KeyError key)
  end.

(** [data.get(key, default)]. *)
Definition get {A : Type} (entry : option A) (default : A) : A :=
  match entry with
  | Some v => v
  | None => default
  end.

(** The outcome of a constructor, as a step of loading. *)
Definition construct {A : Type} (r : result A) : loaded A :=
  match r with
  | Ok a => Loaded a
  | Raise e => Failed (Init e)
  end.

End Dicts.

(* ------------------------------------------------------------------ *)
(** ** [src/transcendental/patterns.py] *)

Module Patterns.

Record Pattern : Type := MkPattern {
  digits : list Z;
  spacing : option (list Z)
}.

(** [Pattern(digits, spacing)]. *)
Definition Pattern_init (digits : list Z) (spacing : option (list Z)) : result Pattern :=
  match spacing with
  | Some s =>
      if negb (len s =? len digits - 1) then Raise ValueError
      else Ok (MkPattern digits spacing)
  | None => Ok (MkPattern digits spacing)
  end.

(** [Pattern.length]. *)
Definition length (p : Pattern) : Z := len (digits p).

(** [Pattern.total_span]. *)
Definition total_span (p : Pattern) : Z :=
  match spacing p with
  | None => length p
  | Some s => length p + fold_right Z.add 0 s
  end.

(** [Pattern.is_contiguous()]. *)
Definition is_contiguous (p : Pattern) : bool :=
  match spacing p with
  | None => true
  | Some s => forallb (fun x => x =? 0) s
  end.

(** The loop of the contiguous branch, [i] counting the digits passed. *)
Fixpoint match_contiguous (stream : list Z) (start_pos i : Z) (ds : list Z)
  : result (bool * Z) :=
  match ds with
  | [] => Ok (true, start_pos + i)
  | digit :: rest =>
      v <- np_getitem stream (start_pos + i) ;;
      if negb (v =? digit) then Ok (false, -1)
      else match_contiguous stream start_pos (i + 1) rest
  end.

(** The loop of the branch with spacing: [n] is [len(self.digits)], [i] the
    index of [digit]. *)
Fixpoint match_spaced (stream : list Z) (sp : list Z) (n i : Z) (ds : list Z)
         (current_pos : Z) : result (bool * Z) :=
  match ds with
  | [] => Ok (true, current_pos + 1)
  | digit :: rest =>
      if current_pos >=? len stream then Ok (false, -1)
      else
        v <- np_getitem stream current_pos ;;
        if negb (v =? digit) then Ok (false, -1)
        else if i <? n - 1 then
          s <- list_getitem sp i ;;
          match_spaced stream sp n (i + 1) rest (current_pos + 1 + s)
        else match_spaced stream sp n (i + 1) rest current_pos
  end.

(** [Pattern.match_at_position(stream, start_pos)]. *)
Definition match_at_position (p : Pattern) (stream : list Z) (start_pos : Z)
  : result (bool * Z) :=
  if (start_pos <? 0) || (start_pos >=? len stream) then Ok (false, -1)
  else if is_contiguous p then
    if start_pos + length p >? len stream then Ok (false, -1)
    else
      '(found, _) <- match_contiguous stream start_pos 0 (digits p) ;;
      if found then Ok (true, start_pos + length p) else Ok (false, -1)
  else
    match spacing p with
    | Some sp => match_spaced stream sp (len (digits p)) 0 (digits p) start_pos
    | None => Raise TypeError
    end.

(** A match: its position and the follow sequence. *)
Definition found : Type := Z * list Z.

Record PatternMatcher : Type := MkPatternMatcher {
  threads : option Z;
  follow_digits : Z
}.

(** [PatternMatcher._extract_follow_digits(stream, end_pos)]. *)
Definition _extract_follow_digits (self : PatternMatcher) (stream : list Z)
           (end_pos : Z) : list Z :=
  let available := Z.min (follow_digits self) (len stream - end_pos) in
  if available <=? 0 then []
  else slice end_pos (end_pos + available) stream.

(** The search loop shared by [_find_pattern_sequential] and
    [_search_chunk]: [for pos in positions: ...], leaving as soon as
    [len(results) >= max_positions] after an append. *)
Fixpoint search_loop (self : PatternMatcher) (pattern : Pattern) (stream : list Z)
         (max_positions : Z) (positions : list Z) (results : list found)
  : result (list found) :=
  match positions with
  | [] => Ok results
  | pos :: rest =>
      '(match_found, end_pos) <- match_at_position pattern stream pos ;;
      if match_found then
        let follow_seq := _extract_follow_digits self stream end_pos in
        let results := results ++ [(pos, follow_seq)] in
        if len results >=? max_positions then Ok results
        else search_loop self pattern stream max_positions rest results
      else search_loop self pattern stream max_positions rest results
  end.

(** [PatternMatcher._find_pattern_sequential(pattern, stream,
    max_positions, start_from)]. *)
Definition _find_pattern_sequential (self : PatternMatcher) (pattern : Pattern)
           (stream : list Z) (max_positions start_from : Z) : result (list found) :=
  search_loop self pattern stream max_positions
              (range start_from (len stream - length pattern + 1)) [].

(** [PatternMatcher._search_chunk(pattern, stream, start, end,
    max_positions)]. *)
Definition _search_chunk (self : PatternMatcher) (pattern : Pattern)
           (stream : list Z) (start end_ max_positions : Z) : result (list found) :=
  search_loop self pattern stream max_positions (range start end_) [].

(** [for future in futures: ...]: the futures are visited in submission
    order; an exception of a chunk surfaces at its [future.result()], a
    chunk after the [break] is never asked. *)
Fixpoint gather (search : Z -> Z -> result (list found)) (max_positions : Z)
         (chunks : list (Z * Z)) (results : list found) : result (list found) :=
  match chunks with
  | [] => Ok results
  | (start, end_) :: rest =>
      chunk_results <- search start end_ ;;
      let results := results ++ chunk_results in
      if len results >=? max_positions then Ok results
      else gather search max_positions rest results
  end.

(** [results.sort(key=lambda x: x[0])]: the stable sort by position. *)
Fixpoint insert_by_position (x : found) (l : list found) : list found :=
  match l with
  | [] => [x]
  | y :: rest =>
      if fst x <=? fst y then x :: y :: rest
      else y :: insert_by_position x rest
  end.

Definition sort_by_position (l : list found) : list found :=
  fold_right insert_by_position [] l.

(** [PatternMatcher._find_pattern_parallel(pattern, stream, max_positions,
    start_from)]; [cpu_count] is [multiprocessing.cpu_count()].  The thread
    pool refuses a worker count below one. *)
Definition _find_pattern_parallel (cpu_count : Z) (self : PatternMatcher)
           (pattern : Pattern) (stream : list Z) (max_positions start_from : Z)
  : result (list found) :=
  let threads := match threads self with
                 | None | Some 0 => Z.max 1 (cpu_count - 1)
                 | Some t => t
                 end in
  let stream_length := len stream - length pattern + 1 in
  let chunk_size := Z.max 1000 (stream_length / threads) in
  let chunks := map (fun i => (Z.max start_from i, Z.min (i + chunk_size) stream_length))
                    (range_step start_from stream_length chunk_size) in
  if threads <? 1 then Raise ValueError
  else
    results <- gather (fun start end_ =>
                         _search_chunk self pattern stream start end_ max_positions)
                      max_positions chunks [] ;;
    let results := sort_by_position results in
    Ok (slice_to max_positions results).

(** [PatternMatcher.find_pattern(pattern, stream, max_positions,
    start_from)]. *)
Definition find_pattern (cpu_count : Z) (self : PatternMatcher) (pattern : Pattern)
           (stream : list Z) (max_positions start_from : Z) : result (list found) :=
  let not_in_0_1 := match threads self with
                    | Some 0 | Some 1 => false
                    | _ => true
                    end in
  results <- (if (len stream >? 10000) && not_in_0_1
              then _find_pattern_parallel cpu_count self pattern stream
                                          max_positions start_from
              else _find_pattern_sequential self pattern stream
                                            max_positions start_from) ;;
  Ok (sort_by_position results).

(** [PatternMatcher.hash_follow_sequences(follow_sequences)]: the string
    that is hashed, then the token. *)
Definition seq_str (follow_sequences : list (list Z)) : string :=
  fold_left (fun acc seq => String.append acc (String.append (join (map str seq)) "|"))
            follow_sequences EmptyString.

Definition hash_follow_sequences (follow_sequences : list (list Z)) : string :=
  Sha256.hexdigest (encode (seq_str follow_sequences)).

(** [PatternMatcher.verify_follow_hash(follow_sequences, expected_hash)]. *)
Definition verify_follow_hash (follow_sequences : list (list Z)) (expected_hash : string)
  : bool :=
  String.eqb (hash_follow_sequences follow_sequences) expected_hash.

(** The dictionary of a pattern: the keys ["digits"] and ["spacing"], the
    latter holding a list or [None]. *)
Record PatternDict : Type := MkPatternDict {
  d_digits : option (list Z);
  d_spacing : option (option (list Z))
}.

(** [Pattern.to_dict()]. *)
Definition to_dict (self : Pattern) : PatternDict :=
  MkPatternDict (Some (digits self)) (Some (spacing self)).

(** [Pattern.from_dict(data)]: [data["digits"]] is read first, then
    [data.get("spacing")], then the constructor runs. *)
Definition from_dict (data : PatternDict) : Dicts.loaded Pattern :=
  Dicts.and_then (Dicts.getitem "digits" (d_digits data)) (fun ds =>
  let sp := Dicts.get (d_spacing data) None in
  Dicts.construct (Pattern_init ds sp)).

(** [np.array_equal(a, b)] on two one-dimensional arrays. *)
Fixpoint array_equal (a b : list Z) : bool :=
  match a, b with
  | [], [] => true
  | x :: a', y :: b' => (x =? y) && array_equal a' b'
  | _, _ => false
  end.

(** [PatternMatcher.verify_pattern_matches(pattern, stream,
    expected_results)]. *)
Fixpoint verify_pattern_matches (self : PatternMatcher) (pattern : Pattern)
         (stream : list Z) (expected_results : list found) : result bool :=
  match expected_results with
  | [] => Ok true
  | (pos, expected_follow) :: rest =>
      '(match_found, end_pos) <- match_at_position pattern stream pos ;;
      if negb match_found then Ok false
      else
        let actual_follow := _extract_follow_digits self stream end_pos in
        if negb (len actual_follow =? len expected_follow)
           || negb (array_equal actual_follow expected_follow)
        then Ok false
        else verify_pattern_matches self pattern stream rest
  end.

(** [generate_random_pattern(length, max_spacing, use_spacing)]: [st] is the
    state of the generator behind [np.random], returned with the pattern. *)
Definition generate_random_pattern (rng_fuel : nat) (st : Numpy.mt19937_state)
           (length max_spacing : Z) (use_spacing : bool)
  : result (Pattern * Numpy.mt19937_state) :=
  '(ds, st) <- Numpy.randint rng_fuel st 0 10 length ;;
  '(sp, st) <- (if use_spacing && (length >? 1)
                then '(s, st') <- Numpy.randint rng_fuel st 0 (max_spacing + 1)
                                                (length - 1) ;;
                     Ok (Some s, st')
                else Ok (None, st)) ;;
  pattern <- Pattern_init ds sp ;;
  Ok (pattern, st).

End Patterns.

(* ------------------------------------------------------------------ *)
(** ** [src/crypto/keys.py] *)

Module Keys.

Import Patterns.

(** The attributes of a [PrivateKey]; [_matches] is the cache of pattern
    matches, [None] until the first search. *)
Record PrivateKey : Type := MkPrivateKey {
  pi_seed : Z;
  e_seed : Z;
  pattern : Pattern;
  num_offsets : Z;
  modulus : Z;
  follow_digits : Z;
  _matches : option (list found)
}.

(** [PrivateKey(pi_seed, e_seed, pattern, num_offsets, modulus,
    follow_digits)]. *)
Definition PrivateKey_init (pi_seed e_seed : Z) (pattern : Pattern)
           (num_offsets modulus follow_digits : Z) : PrivateKey :=
  MkPrivateKey pi_seed e_seed pattern num_offsets modulus follow_digits None.

Record PublicKey : Type := MkPublicKey {
  verification_token : string;
  max_positions : Z;
  pk_follow_digits : Z
}.

(** The mutable surroundings of a key operation: the [StreamGenerator]
    singleton of [streams.py]. *)
Definition World : Type := option Streams.StreamGenerator.

(** [PrivateKey.generate_stream(length)], [length] defaulting to 10000 at
    its only call. *)
Definition generate_stream (rng_fuel : nat) (env : Streams.Env) (w : World)
           (self : PrivateKey) (length : Z) : result (list Z * World) :=
  Streams.get_synthetic_stream rng_fuel env w (pi_seed self) (e_seed self) length
                               (num_offsets self) (modulus self) None.

(** [PrivateKey.find_pattern_matches(max_positions)]: returns the matches,
    the key with its cache and the world. *)
Definition find_pattern_matches (rng_fuel : nat) (env : Streams.Env) (w : World)
           (self : PrivateKey) (max_positions : Z)
  : result (list found * PrivateKey * World) :=
  match _matches self with
  | Some cached => Ok (slice_to max_positions cached, self, w)
  | None =>
      '(stream, w') <- generate_stream rng_fuel env w self 10000 ;;
      let matcher := MkPatternMatcher None (follow_digits self) in
      matches <- find_pattern (Streams.cpu_count env) matcher (pattern self)
                              stream max_positions 0 ;;
      let self' := MkPrivateKey (pi_seed self) (e_seed self) (pattern self)
                                (num_offsets self) (modulus self)
                                (follow_digits self) (Some matches) in
      Ok (matches, self', w')
  end.

(** [PrivateKey.get_follow_sequences(max_positions)]. *)
Definition get_follow_sequences (rng_fuel : nat) (env : Streams.Env) (w : World)
           (self : PrivateKey) (max_positions : Z)
  : result (list (list Z) * PrivateKey * World) :=
  '(matches, self', w') <- find_pattern_matches rng_fuel env w self max_positions ;;
  Ok (map snd matches, self', w').

(** [PrivateKey.get_public_key(max_positions)]. *)
Definition get_public_key (rng_fuel : nat) (env : Streams.Env) (w : World)
           (self : PrivateKey) (max_positions : Z)
  : result (PublicKey * PrivateKey * World) :=
  '(follow_sequences, self', w') <-
     get_follow_sequences rng_fuel env w self max_positions ;;
  let token := hash_follow_sequences follow_sequences in
  Ok (MkPublicKey token max_positions (follow_digits self), self', w').

(** [verify_key_pair(private_key, public_key)]. *)
Definition verify_key_pair (rng_fuel : nat) (env : Streams.Env) (w : World)
           (private_key : PrivateKey) (public_key : PublicKey)
  : result (bool * PrivateKey * World) :=
  '(follow_sequences, private_key', w') <-
     get_follow_sequences rng_fuel env w private_key (max_positions public_key) ;;
  let token := hash_follow_sequences follow_sequences in
  Ok (String.eqb token (verification_token public_key), private_key', w').

(** [PrivateKey.generate(pattern_length, use_spacing, max_spacing,
    num_offsets, modulus, follow_digits)] with its random draws made
    arguments: [pi_seed] and [e_seed] are the two values of
    [secrets.randbits(64)], [digits] and [spacing_draws] the values of
    [secrets.randbelow]. *)
Definition generate (pi_seed e_seed : Z) (digits spacing_draws : list Z)
           (pattern_length : Z) (use_spacing : bool)
           (num_offsets modulus follow_digits : Z) : result PrivateKey :=
  let spacing := if use_spacing && (pattern_length >? 1)
                 then Some spacing_draws else None in
  pattern <- Pattern_init digits spacing ;;
  Ok (PrivateKey_init pi_seed e_seed pattern num_offsets modulus follow_digits).

(** The dictionary of a private key, as [PrivateKey.to_dict] writes it and
    the key file holds it. *)
Record PrivateKeyDict : Type := MkPrivateKeyDict {
  d_pi_seed : option Z;
  d_e_seed : option Z;
  d_pattern : option Patterns.PatternDict;
  d_num_offsets : option Z;
  d_modulus : option Z;
  d_follow_digits : option Z
}.

(** [PrivateKey.to_dict()]: the cache of matches is not written. *)
Definition to_dict (self : PrivateKey) : PrivateKeyDict :=
  MkPrivateKeyDict (Some (pi_seed self)) (Some (e_seed self))
                   (Some (Patterns.to_dict (pattern self)))
                   (Some (num_offsets self)) (Some (modulus self))
                   (Some (follow_digits self)).

(** [PrivateKey.from_dict(data)]: the pattern is loaded first, then the
    two seeds are read; the other three keys have defaults. *)
Definition from_dict (data : PrivateKeyDict) : Dicts.loaded PrivateKey :=
  Dicts.and_then (Dicts.getitem "pattern" (d_pattern data)) (fun pattern_data =>
  Dicts.and_then (Patterns.from_dict pattern_data) (fun pattern =>
  Dicts.and_then (Dicts.getitem "pi_seed" (d_pi_seed data)) (fun pi_seed =>
  Dicts.and_then (Dicts.getitem "e_seed" (d_e_seed data)) (fun e_seed =>
  Dicts.Loaded (PrivateKey_init pi_seed e_seed pattern
                                (Dicts.get (d_num_offsets data) 100)
                                (Dicts.get (d_modulus data) 10)
                                (Dicts.get (d_follow_digits data) 25)))))).

(** The dictionary of a public key. *)
Record PublicKeyDict : Type := MkPublicKeyDict {
  d_verification_token : option string;
  d_max_positions : option Z;
  d_pk_follow_digits : option Z
}.

(** [PublicKey.to_dict()]. *)
Definition PublicKey_to_dict (self : PublicKey) : PublicKeyDict :=
  MkPublicKeyDict (Some (verification_token self)) (Some (max_positions self))
                  (Some (pk_follow_digits self)).

(** [PublicKey.from_dict(data)]. *)
Definition PublicKey_from_dict (data : PublicKeyDict) : Dicts.loaded PublicKey :=
  Dicts.and_then (Dicts.getitem "verification_token" (d_verification_token data))
    (fun verification_token =>
  Dicts.Loaded (MkPublicKey verification_token
                            (Dicts.get (d_max_positions data) 5)
                            (Dicts.get (d_pk_follow_digits data) 25))).

(** The loop [while len(result) < key_bytes] of [derive_encryption_key]:
    every turn hashes the last digest followed by the material and appends
    the new digest.  [fuel] bounds the turns. *)
Fixpoint extend_key (fuel : nat) (material h res : list Z) (key_bytes : Z)
  : result (list Z) :=
  if len res <? key_bytes then
    match fuel with
    | O => Raise Diverges
    | S fuel' =>
        let h := Sha256.digest (h ++ material) in
        extend_key fuel' material h (res ++ h) key_bytes
    end
  else Ok res.

(** [PublicKey.derive_encryption_key(salt, key_bytes)]: the bytes of the
    key.  A turn of the loop adds 32 bytes, so [key_bytes] turns are more
    than the loop can take. *)
Definition derive_encryption_key (self : PublicKey) (salt : string) (key_bytes : Z)
  : result (list Z) :=
  let material := encode (String.append (verification_token self) salt) in
  let h := Sha256.digest material in
  if key_bytes >? len h then
    res <- extend_key (Z.to_nat key_bytes) material h h key_bytes ;;
    Ok (slice_to key_bytes res)
  else Ok (slice_to key_bytes h).

End Keys.

(* ------------------------------------------------------------------ *)
(** ** [src/crypto/encryption.py] *)

Module Encryption.

(** The attributes of an [EncryptedData]. *)
Record EncryptedData : Type := MkEncryptedData {
  ciphertext : list Z;
  iv : list Z;
  salt : string;
  verification_token : string
}.

Section Cipher.

(** The primitives of the [cryptography] package, which the module calls
    and this development does not model: PKCS7 padding to 128 bits and its
    removal, and AES in CBC mode under a key and an initialization
    vector.  Removing the padding and deciphering raise [ValueError] on
    data they refuse. *)
Variable pkcs7_pad : list Z -> list Z.
Variable pkcs7_unpad : list Z -> result (list Z).
Variable aes_cbc_encrypt : list Z -> list Z -> list Z -> list Z.
Variable aes_cbc_decrypt : list Z -> list Z -> list Z -> result (list Z).

(** [encrypt_data(data, public_key, salt)] with its random draws made
    arguments: [token_hex] is the value of [secrets.token_hex(16)], drawn
    when no salt is given, [urandom] the value of [os.urandom(16)]. *)
Definition encrypt_data (token_hex : string) (urandom : list Z) (data : list Z)
           (public_key : Keys.PublicKey) (salt : option string)
  : result EncryptedData :=
  let salt := match salt with
              | None => token_hex
              | Some s => s
              end in
  key <- Keys.derive_encryption_key public_key salt 32 ;;
  let iv := urandom in
  let padded_data := pkcs7_pad data in
  let ciphertext := aes_cbc_encrypt key iv padded_data in
  Ok (MkEncryptedData ciphertext iv salt (Keys.verification_token public_key)).

(** [decrypt_data(encrypted_data, private_key)]: returns the data, the
    private key with its cache and the world.  The public key is rebuilt
    from the token alone, with the defaults of its constructor. *)
Definition decrypt_data (rng_fuel : nat) (env : Streams.Env) (w : Keys.World)
           (encrypted_data : EncryptedData) (private_key : Keys.PrivateKey)
  : result (list Z * Keys.PrivateKey * Keys.World) :=
  let public_key := Keys.MkPublicKey (verification_token encrypted_data) 5 25 in
  '(positions, private_key', w') <-
     Keys.find_pattern_matches rng_fuel env w private_key
                               (Keys.max_positions public_key) ;;
  let follow_sequences := map snd positions in
  let token := Patterns.hash_follow_sequences follow_sequences in
  if negb (String.eqb token (verification_token encrypted_data)) then Raise ValueError
  else
    key <- Keys.derive_encryption_key public_key (salt encrypted_data) 32 ;;
    padded_data <- aes_cbc_decrypt key (iv encrypted_data) (ciphertext encrypted_data) ;;
    data <- pkcs7_unpad padded_data ;;
    Ok (data, private_key', w').

End Cipher.

End Encryption.

(* ------------------------------------------------------------------ *)
(** ** Statements of the specification, and concrete inputs *)

Module Spec.

Import Patterns.

(** The invariant of a pattern: a spacing list, when present, is one
    shorter than the digit list and holds gaps, which are not negative. *)
Definition wf_pattern (p : Pattern) : Prop :=
  match spacing p with
  | None => True
  | Some s => len s = len (digits p) - 1 /\ Forall (fun g => 0 <= g) s
  end.

(** The cumulative offsets of the matching rule: c_0 = 0 and
    c_i = c_(i-1) + 1 + spacing[i-1], or c_i = i without spacing. *)
Fixpoint cum_offset (sp : option (list Z)) (i : nat) : Z :=
  match i with
  | O => 0
  | S j =>
      match sp with
      | None => cum_offset sp j + 1
      | Some s => cum_offset sp j + 1 + nth j s 0
      end
  end.

(** The matching rule at candidate position [p]: every pattern digit is
    inside the stream and equal to the stream value there. *)
Definition matches_at (pat : Pattern) (stream : list Z) (p : Z) : Prop :=
  forall i : nat, (i < List.length (digits pat))%nat ->
    p + cum_offset (spacing pat) i < len stream /\
    nth (Z.to_nat (p + cum_offset (spacing pat) i)) stream 0 = nth i (digits pat) 0.

(** The end position of a match: p + c_last + 1. *)
Definition end_position (pat : Pattern) (p : Z) : Z :=
  p + cum_offset (spacing pat) (List.length (digits pat) - 1) + 1.

(** The follow sequence: stream[end .. end + follow_digits), cut at the
    end of the stream. *)
Definition follow_sequence (follow_digits : Z) (stream : list Z) (end_ : Z) : list Z :=
  firstn (Z.to_nat follow_digits) (skipn (Z.to_nat end_) stream).

(** The token as the specification words it: every sequence rendered as
    its digits, the renderings joined with the separator, a trailing
    separator appended, the result hashed. *)
Definition render (seq : list Z) : string := join (map str seq).

Definition spec_seq_str (follow_sequences : list (list Z)) : string :=
  String.append (join_with "|" (map render follow_sequences)) "|".

Definition spec_hash_follow_sequences (follow_sequences : list (list Z)) : string :=
  Sha256.hexdigest (encode (spec_seq_str follow_sequences)).

(** The stream cell as the specification defines it: the sum over both
    offset lists of the single digit at offset + i, modulo the modulus. *)
Fixpoint digit_sum (get : Z -> Z -> result (list Z)) (offsets : list Z) (i : Z)
  : result Z :=
  match offsets with
  | [] => Ok 0
  | o :: rest =>
      d <- get (o + i) 1 ;;
      s <- digit_sum get rest i ;;
      Ok (nth 0 d 0 + s)
  end.

Definition spec_stream_cell (env : Streams.Env) (pi_offsets e_offsets : list Z)
           (modulus i : Z) : result Z :=
  a <- digit_sum (Digits.get_pi_digits (Streams.digit_store env)) pi_offsets i ;;
  b <- digit_sum (Digits.get_e_digits (Streams.digit_store env)) e_offsets i ;;
  Ok ((a + b) mod modulus).

(** The digits of a file as a cycle.  [first_digit l base] is the index
    of the first digit byte of [l], whose bytes are numbered from [base];
    [next_index m q] is the index of the first digit byte at or after
    [q], or else of the first digit byte of the file. *)
Fixpoint first_digit (l : list Z) (base : Z) : option Z :=
  match l with
  | [] => None
  | c :: rest => if Digits.isdigit c then Some base else first_digit rest (base + 1)
  end.

Definition next_index (m : list Z) (q : Z) : option Z :=
  match first_digit (skipn (Z.to_nat q) m) q with
  | Some j => Some j
  | None => first_digit m 0
  end.

(** A cursor at or past the end of the file stands for the start. *)
Definition wrap (m : list Z) (q : Z) : Z := if q >=? len m then 0 else q.

(** [length] digits of the cycle, read from cursor [q]. *)
Fixpoint read_cycle (m : list Z) (q : Z) (length : nat) : result (list Z) :=
  match length with
  | O => Ok []
  | S length' =>
      match next_index m (wrap m q) with
      | None => Raise Diverges
      | Some j =>
          d <- Digits.int_of_char (nth (Z.to_nat j) m 0) ;;
          ds <- read_cycle m (j + 1) length' ;;
          Ok (d :: ds)
      end
  end.

(** A digit file whose skipping wraps: the radix point is followed by at
    least one byte, the last byte is not a digit (a line end, say), and
    some byte is a digit. *)
Definition terminated (m : list Z) : Prop :=
  Digits.skip_to_point m + 1 < len m /\
  Digits.isdigit (nth (List.length m - 1) m 0) = false /\
  first_digit m 0 <> None.

(** Every match of the pattern among [positions], in order. *)
Definition hit (self : PatternMatcher) (pat : Pattern) (stream : list Z) (pos : Z)
  : list found :=
  match match_at_position pat stream pos with
  | Ok (true, end_pos) => [(pos, _extract_follow_digits self stream end_pos)]
  | _ => []
  end.

Definition all_hits (self : PatternMatcher) (pat : Pattern) (stream : list Z)
           (positions : list Z) : list found :=
  flat_map (hit self pat stream) positions.

(** Positions strictly ascending. *)
Fixpoint ascending (l : list found) : Prop :=
  match l with
  | [] => True
  | x :: rest =>
      match rest with
      | [] => True
      | y :: _ => fst x < fst y
      end /\ ascending rest
  end.

(** The digests that [derive_encryption_key] chains after its first one:
    each is the digest of the one before followed by the material. *)
Fixpoint digest_chain (material h : list Z) (n : nat) : list Z :=
  match n with
  | O => []
  | S n' =>
      let h' := Sha256.digest (h ++ material) in
      h' ++ digest_chain material h' n'
  end.

End Spec.

Module Inputs.

(** A machine with two processors, hence one worker, and the digit files
    the package writes itself. *)
Definition env : Streams.Env := Streams.MkEnv Digits.builtin_store 2.

(** The same machine with a line end after the last digit of each file. *)
Definition terminated_store : Digits.DigitStore :=
  Digits.MkDigitStore (Some (encode Digits.PI_START ++ [10]))
                      (Some (encode Digits.E_START ++ [10])).

(** Two private keys with one offset per constant.  The first offsets
    drawn for the seeds 301604 and 254923 are 1540 and 2066. *)
Definition key_52 : Keys.PrivateKey :=
  Keys.PrivateKey_init 301604 254923 (Patterns.MkPattern [5; 2] None) 1 10 25.

Definition key_absent_1 : Keys.PrivateKey :=
  Keys.PrivateKey_init 301604 254923 (Patterns.MkPattern [11] None) 1 10 25.

Definition key_absent_2 : Keys.PrivateKey :=
  Keys.PrivateKey_init 254923 301604 (Patterns.MkPattern [12; 3] (Some [4])) 1 10 7.

(** A stream of 10001 zeros, long enough for [find_pattern] to take the
    parallel variant. *)
Definition zeros : list Z := repeat 0 (Z.to_nat 10001).

Definition matcher_3 : Patterns.PatternMatcher := Patterns.MkPatternMatcher None 3.

End Inputs.

(* ================================================================== *)
(** * Properties *)

(** ** The library models against published values *)

(** Test vectors of FIPS 180-4 and of [hashlib]. *)
Example sha256_empty :
  Sha256.hexdigest (encode "") =
  "e3b0c44298fc1c149afbf4c8996fb92427ae41e4649b934ca495991b7852b855"%string.
Proof. vm_compute. reflexivity. Qed.

Example sha256_abc :
  Sha256.hexdigest (encode "abc") =
  "ba7816bf8f01cfea414140de5dae2223b00361a396177a9cb410ff61f20015ad"%string.
Proof. vm_compute. reflexivity. Qed.

Example sha256_two_blocks :
  Sha256.hexdigest (repeat 97 119) =
  "31eba51c313a5c08226adf18d4a359cfdfd8d2e816b13f4af952f7ea6584dcfb"%string.
Proof. vm_compute. reflexivity. Qed.

Example str_examples :
  str 0 = "0"%string /\ str 9 = "9"%string /\ str 10 = "10"%string /\
  str 255 = "255"%string /\ str (-42) = "-42"%string.
Proof. repeat split; reflexivity. Qed.

(** The reference outputs of MT19937 after [init_genrand(5489)] (first and
    10000th word) and the first draws of NumPy's [RandomState(42)]. *)
Example mt19937_reference_outputs :
  nth_output 0 (Numpy.mt19937_seed 5489) = 3499211612 /\
  nth_output (Z.to_nat 9999) (Numpy.mt19937_seed 5489) = 4123659995.
Proof. split; vm_compute; reflexivity. Qed.

Example randint_seed_42 :
  (st <- Numpy.RandomState 42 ;; '(l, _) <- Numpy.randint 64 st 0 100 10 ;; Ok l)
  = Ok [51; 92; 14; 71; 60; 20; 82; 86; 74; 74].
Proof. vm_compute. reflexivity. Qed.

(** The first digits read from the two digit files. *)
Example get_pi_digits_start :
  Digits.get_pi_digits Digits.builtin_store 0 10 = Ok [1; 4; 1; 5; 9; 2; 6; 5; 3; 5]
  /\ Digits.get_e_digits Digits.builtin_store 3 5 = Ok [2; 8; 1; 8; 2].
Proof. split; vm_compute; reflexivity. Qed.

(** ** The result monad *)

Lemma bind_ok {A B : Type} (m : result A) (k : A -> result B) (b : B) :
  bind m k = Ok b -> exists a, m = Ok a /\ k a = Ok b.
Proof. destruct m as [a|e]; simpl; [eauto | discriminate]. Qed.

Ltac inv_bind H :=
  let a := fresh "a" in
  let Ha := fresh "Ha" in
  apply bind_ok in H; destruct H as (a & Ha & H).

(** ** Offset derivation *)

Section Rejection.

Variable next : Numpy.mt19937_state -> Z * Numpy.mt19937_state.
Variables rng mask : Z.
Hypothesis mask_nonneg : 0 <= mask.

(** A value that leaves the rejection loop is inside [0, rng]. *)
Lemma bounded_masked_range (fuel : nat) :
  forall st v st',
    Numpy.bounded_masked fuel next rng mask st = Ok (v, st') -> 0 <= v <= rng.
Proof.
  induction fuel as [|fuel IH]; intros st v st' H; simpl in H; [discriminate|].
  destruct (next st) as [x st1].
  destruct (Z.land x mask >? rng) eqn:E.
  - eauto.
  - injection H as <- _. split.
    + apply Z.land_nonneg. now right.
    + rewrite Z.gtb_ltb in E. apply Z.ltb_ge in E. exact E.
Qed.

End Rejection.

Lemma fill_offsets (fuel : nat) (cnt : nat) :
  forall st l st',
    Numpy.fill fuel cnt 0 999999999 st = Ok (l, st') ->
    List.length l = cnt /\ Forall (fun o => 0 <= o < 1000000000) l.
Proof.
  induction cnt as [|cnt IH]; intros st l st' H; simpl in H.
  - injection H as <- _. split; [reflexivity | constructor].
  - inv_bind H. destruct a as [v st1].
    inv_bind H. destruct a as [vs st2]. injection H as <- _.
    destruct (IH _ _ _ Ha0) as [Hlen Hall].
    unfold Numpy.bounded_uint64 in Ha. cbn in Ha.
    inv_bind Ha. destruct a as [x st3]. injection Ha as <- _.
    apply bounded_masked_range in Ha1; [|lia].
    split; [simpl; congruence | constructor; [lia | assumption]].
Qed.

(** X8.  Whenever the derivation returns, it returns [count] offsets, each
    in [0, 10^9). *)
Lemma offsets_in_range (rng_fuel : nat) (seed count : Z) (offsets : list Z) :
  Streams._generate_offsets_from_seed rng_fuel seed count = Ok offsets ->
  len offsets = count /\ Forall (fun o => 0 <= o < 1000000000) offsets.
Proof.
  unfold Streams._generate_offsets_from_seed. intro H.
  inv_bind H. inv_bind H. destruct a0 as [l st]. injection H as <-.
  unfold Numpy.randint in Ha0. cbn [orb] in Ha0.
  change ((0 <? - 2 ^ 63) || (1000000000 >? 2 ^ 63) || (0 >=? 1000000000))
    with false in Ha0. cbv iota in Ha0.
  destruct (count <? 0) eqn:Ec; [discriminate|].
  apply Z.ltb_ge in Ec.
  change (1000000000 - 1 - 0) with 999999999 in Ha0.
  apply fill_offsets in Ha0. destruct Ha0 as [Hlen Hall].
  split; [unfold len; lia | assumption].
Qed.

(** [RandomState] refuses a seed of 2^32 or more. *)
Lemma wide_seed_refused (seed : Z) :
  2 ^ 32 <= seed -> Numpy.RandomState seed = Raise ValueError.
Proof.
  intro Hseed. unfold Numpy.RandomState.
  replace (seed >? 2 ^ 32 - 1) with true; [reflexivity|].
  symmetry. rewrite Z.gtb_ltb. apply Z.ltb_lt. lia.
Qed.

(** C1 (evaluation at the failing inputs).  The seed of a generated key
    has 64 bits; for every seed of 2^32 or more, and every count, the
    offset derivation raises [ValueError] instead of returning offsets. *)
Theorem offsets_reject_wide_seed :
  forall (rng_fuel : nat) (seed count : Z),
    2 ^ 32 <= seed ->
    Streams._generate_offsets_from_seed rng_fuel seed count = Raise ValueError.
Proof.
  intros rng_fuel seed count Hseed.
  unfold Streams._generate_offsets_from_seed.
  rewrite wide_seed_refused by exact Hseed. reflexivity.
Qed.

Lemma offsets_reject_wide_seed_witness :
  2 ^ 32 <= 2 ^ 63 /\
  Streams._generate_offsets_from_seed 64 (2 ^ 63) 100 = Raise ValueError.
Proof.
  split; [vm_compute; discriminate | apply offsets_reject_wide_seed; vm_compute; discriminate].
Defined.

(** X10.  A key made by [PrivateKey.generate] from a 64-bit seed of 2^32
    or more cannot derive its public key. *)
Lemma generated_key_cannot_bind :
  forall rng_fuel env w pi_seed e_seed ds sp n us no m fd key k,
    2 ^ 32 <= pi_seed ->
    Keys.generate pi_seed e_seed ds sp n us no m fd = Ok key ->
    Keys.get_public_key rng_fuel env w key k = Raise ValueError.
Proof.
  intros rng_fuel env w pi_seed e_seed ds sp n us no m fd key k Hseed Hgen.
  unfold Keys.generate in Hgen. inv_bind Hgen. injection Hgen as <-.
  unfold Keys.get_public_key, Keys.get_follow_sequences, Keys.find_pattern_matches,
    Keys.generate_stream, Streams.get_synthetic_stream, Streams.from_seeds.
  cbn. unfold Streams._generate_offsets_from_seed.
  rewrite wide_seed_refused by assumption. reflexivity.
Qed.

(** ** Ranges and chunks *)

Lemma range_empty (a b : Z) : b <= a -> range a b = [].
Proof. intro H. unfold range. replace (Z.to_nat (b - a)) with O by lia. reflexivity. Qed.

Lemma range_cons (a b : Z) : a < b -> range a b = a :: range (a + 1) b.
Proof.
  intro H. unfold range.
  replace (Z.to_nat (b - a)) with (S (Z.to_nat (b - (a + 1)))) by lia.
  cbn [seq map]. f_equal; [lia|].
  rewrite <- seq_shift, map_map. apply map_ext. intro i. lia.
Qed.

Lemma range_app (a m b : Z) : a <= m -> m <= b -> range a m ++ range m b = range a b.
Proof.
  intros Ham Hmb.
  remember (Z.to_nat (m - a)) as n eqn:Hn. revert a Ham Hn.
  induction n as [|n IH]; intros a Ham Hn.
  - assert (a = m) by lia. subst a. now rewrite range_empty by lia.
  - rewrite (range_cons a m) by lia. rewrite (range_cons a b) by lia.
    simpl. f_equal. apply IH; lia.
Qed.

Lemma range_above (a b : Z) : Forall (fun i => a <= i) (range a b).
Proof.
  remember (Z.to_nat (b - a)) as n eqn:Hn. revert a Hn.
  induction n as [|n IH]; intros a Hn.
  - rewrite range_empty by lia. constructor.
  - rewrite range_cons by lia. constructor; [lia|].
    eapply Forall_impl; [|apply IH; lia]. simpl. intros i Hi. lia.
Qed.

Lemma range_sorted (a b : Z) : StronglySorted Z.lt (range a b).
Proof.
  remember (Z.to_nat (b - a)) as n eqn:Hn. revert a Hn.
  induction n as [|n IH]; intros a Hn.
  - rewrite range_empty by lia. constructor.
  - rewrite range_cons by lia. constructor; [apply IH; lia|].
    eapply Forall_impl; [|apply (range_above (a + 1) b)]. simpl. intros i Hi. lia.
Qed.

Section Chunks.

Variables (b c : Z).
Hypothesis c_pos : 0 < c.

(** The chunks that start at [a], [a + c], ... and end [c] later or at
    [b] tile the range from [a] to [b]. *)
Lemma chunks_tile (n : nat) :
  forall a : Z,
    n = Z.to_nat ((b - a + c - 1) / c) ->
    flat_map (fun i => range (a + Z.of_nat i * c) (Z.min (a + Z.of_nat i * c + c) b))
             (seq 0 n)
    = range a b.
Proof.
  induction n as [|n IH]; intros a Hn.
  - simpl. symmetry. apply range_empty.
    destruct (Z.le_gt_cases b a) as [H|H]; [exact H|].
    assert (1 <= (b - a + c - 1) / c).
    { apply Z.div_le_lower_bound; lia. }
    lia.
  - assert (Hq : (b - a + c - 1) / c = Z.of_nat (S n)) by lia.
    assert (Hab : a < b).
    { destruct (Z.lt_ge_cases a b) as [H|H]; [exact H|].
      assert ((b - a + c - 1) / c <= 0).
      { apply Z.lt_succ_r. apply Z.div_lt_upper_bound; lia. }
      lia. }
    cbn [seq flat_map]. rewrite <- seq_shift, flat_map_concat_map, map_map,
      <- flat_map_concat_map.
    change (Z.of_nat 0) with 0. rewrite Z.mul_0_l, Z.add_0_r.
    destruct (Z.le_gt_cases b (a + c)) as [Hshort|Hlong].
    + rewrite Z.min_r by lia.
      assert (Hn0 : n = O).
      { assert ((b - a + c - 1) / c < 2) by (apply Z.div_lt_upper_bound; lia). lia. }
      subst n. simpl. now rewrite app_nil_r.
    + rewrite Z.min_l by lia.
      rewrite <- (range_app a (a + c) b) by lia. f_equal.
      rewrite <- (IH (a + c)).
      * apply flat_map_ext. intro i.
        replace (a + Z.of_nat (S i) * c) with (a + c + Z.of_nat i * c) by lia.
        reflexivity.
      * replace (b - (a + c) + c - 1) with (b - a + c - 1 + (-1) * c) by lia.
        rewrite Z.div_add by lia. lia.
Qed.

End Chunks.

(** The chunks of [_find_pattern_parallel] tile the positions of
    [_find_pattern_sequential]. *)
Lemma parallel_chunks_tile (start_from stream_length chunk_size : Z) :
  0 < chunk_size ->
  flat_map (fun se => range (fst se) (snd se))
           (map (fun i => (Z.max start_from i, Z.min (i + chunk_size) stream_length))
                (range_step start_from stream_length chunk_size))
  = range start_from stream_length.
Proof.
  intro Hc. unfold range_step.
  rewrite flat_map_concat_map, !map_map, <- flat_map_concat_map.
  rewrite <- (chunks_tile stream_length chunk_size Hc _ start_from eq_refl).
  apply flat_map_ext. intro i. cbn [fst snd].
  rewrite Z.max_r by nia. reflexivity.
Qed.

(** ** Digit access *)

(** C3 (evaluation at the failing input).  On the digit file the package
    writes itself, one digit at 100 followed by one digit at 101 is [3; 3],
    while two digits at 100 are [3; 1]. *)
Theorem digit_continuity_broken :
  Digits.get_pi_digits Digits.builtin_store 100 1 = Ok [3] /\
  Digits.get_pi_digits Digits.builtin_store 101 1 = Ok [3] /\
  Digits.get_pi_digits Digits.builtin_store 100 2 = Ok [3; 1].
Proof. repeat split; vm_compute; reflexivity. Qed.

(** ** Stream synthesis *)

(** C5 (evaluation at the failing input).  On the digit files the package
    writes itself, with the single offset 100 into the first constant,
    modulus 10 and length 2: one worker computes the stream [3; 1], two
    workers compute [3; 3], and the defining sum for cell 1 is 3. *)
Theorem stream_depends_on_chunks :
  Streams.generate_synthetic_stream Inputs.env [100] [] 2 10 (Some 1) = Ok [3; 1] /\
  Streams.generate_synthetic_stream Inputs.env [100] [] 2 10 (Some 2) = Ok [3; 3] /\
  Spec.spec_stream_cell Inputs.env [100] [] 10 1 = Ok 3.
Proof. repeat split; vm_compute; reflexivity. Qed.

(** The same on a longer stream with both constants: cell 132 is 6 with
    one chunk and 5 with four chunks. *)
Example chunked_stream_of_200 :
  exists s1 s3 : list Z,
    Streams.generate_synthetic_stream Inputs.env [0] [0] 200 10 (Some 1) = Ok s1 /\
    Streams.generate_synthetic_stream Inputs.env [0] [0] 200 10 (Some 3) = Ok s3 /\
    nth 132 s1 0 = 6 /\ nth 132 s3 0 = 5 /\
    Spec.spec_stream_cell Inputs.env [0] [0] 10 132 = Ok 5.
Proof.
  eexists. eexists.
  split; [vm_compute; reflexivity|].
  split; [vm_compute; reflexivity|].
  repeat split; vm_compute; reflexivity.
Qed.

(** Deriving no offset from a seed the generator accepts gives the empty
    list. *)
Lemma no_offsets_from_seed (rng_fuel : nat) (seed : Z) :
  0 <= seed < 2 ^ 32 ->
  Streams._generate_offsets_from_seed rng_fuel seed 0 = Ok [].
Proof.
  intros [H0 H1]. unfold Streams._generate_offsets_from_seed, Numpy.RandomState.
  destruct (Z.gtb_spec seed (2 ^ 32 - 1)) as [|_]; [lia|].
  destruct (Z.ltb_spec seed 0) as [|_]; [lia|]. reflexivity.
Qed.

(** C7 (as amended).  Synthesis through [StreamGenerator.generate] fails
    with [ValueError] whenever both offset lists are empty, for every
    length and whatever the modulus of the generator; so does
    [get_synthetic_stream], which goes through it, when asked for no
    offsets. *)
Theorem generate_rejects_no_offsets :
  (forall (env : Streams.Env) (g : Streams.StreamGenerator) (length : Z),
      Streams.pi_offsets g = [] -> Streams.e_offsets g = [] ->
      Streams.generate env g length = Raise ValueError) /\
  (forall (rng_fuel : nat) (env : Streams.Env) (w : option Streams.StreamGenerator)
          (pi_seed e_seed length modulus : Z) (threads : option Z),
      0 <= pi_seed < 2 ^ 32 -> 0 <= e_seed < 2 ^ 32 ->
      Streams.get_synthetic_stream rng_fuel env w pi_seed e_seed length 0 modulus threads
      = Raise ValueError).
Proof.
  split.
  - intros env g length Hpi He. unfold Streams.generate.
    rewrite Hpi, He. reflexivity.
  - intros rng_fuel env w pi_seed e_seed length modulus threads Hpi He.
    unfold Streams.get_synthetic_stream, Streams.from_seeds.
    rewrite !no_offsets_from_seed by assumption. reflexivity.
Qed.

Lemma generate_rejects_no_offsets_witness :
  Streams.generate Inputs.env Streams.StreamGenerator_init 1000 = Raise ValueError /\
  Streams.get_synthetic_stream 64 Inputs.env None 12345 67890 1000 0 7 None
  = Raise ValueError.
Proof.
  split.
  - apply (proj1 generate_rejects_no_offsets); reflexivity.
  - apply (proj2 generate_rejects_no_offsets); split; vm_compute;
      try reflexivity; discriminate.
Defined.

(** A chunk without offsets is a chunk of zeros, and no digit file is
    read. *)
Lemma chunk_without_offsets (env : Streams.Env) (start end_ modulus : Z) :
  start <= end_ ->
  Streams._generate_stream_chunk env start end_ [] [] modulus
  = Ok (map (fun _ => 0) (range start end_)).
Proof.
  intro H. unfold Streams._generate_stream_chunk.
  destruct (Z.ltb_spec (end_ - start) 0); [lia|]. cbn [Streams.accumulate bind].
  f_equal. unfold range. rewrite map_map.
  induction (Z.to_nat (end_ - start)) as [|n IH]; [reflexivity|].
  rewrite <- cons_seq, <- seq_shift, map_cons, map_map. cbn [repeat]. now rewrite IH.
Qed.

Lemma collect_map (f : Z -> Z -> result (list Z)) (g : Z * Z -> list Z)
      (chunks : list (Z * Z)) :
  (forall se, In se chunks -> f (fst se) (snd se) = Ok (g se)) ->
  Streams.collect f chunks = Ok (map g chunks).
Proof.
  induction chunks as [|[s e] rest IH]; intro H; [reflexivity|].
  cbn [Streams.collect map].
  pose proof (H (s, e) (or_introl eq_refl)) as Hhead. cbn [fst snd] in Hhead.
  rewrite Hhead. cbn [bind].
  rewrite IH by (intros se Hse; apply H; now right). reflexivity.
Qed.

(** X9.  [generate_synthetic_stream] has no such check: with two empty
    offset lists it returns a stream of zeros for every positive length,
    every modulus and every positive worker count. *)
Lemma synthesis_without_offsets (env : Streams.Env) (length modulus threads : Z) :
  0 < length -> 1 <= threads ->
  Streams.generate_synthetic_stream env [] [] length modulus (Some threads)
  = Ok (repeat 0 (Z.to_nat length)).
Proof.
  intros Hlen Ht. unfold Streams.generate_synthetic_stream.
  destruct (Z.eqb_spec threads 0); [lia|].
  destruct (Z.ltb_spec threads 1); [lia|].
  set (chunk_size := Z.max 1 (length / threads)).
  assert (Hc : 0 < chunk_size) by (unfold chunk_size; lia).
  set (chunks := map (fun i => (i, Z.min (i + chunk_size) length))
                     (range_step 0 length chunk_size)).
  rewrite (collect_map _ (fun se => map (fun _ => 0) (range (fst se) (snd se)))).
  - cbn [bind]. unfold Streams.concatenate.
    assert (Hcat : List.concat (map (fun se => map (fun _ : Z => 0) (range (fst se) (snd se)))
                                    chunks)
                   = repeat 0 (Z.to_nat length)).
    { rewrite <- flat_map_concat_map.
      transitivity (map (fun _ : Z => 0)
                        (flat_map (fun se => range (fst se) (snd se)) chunks)).
      - clear. induction chunks as [|se rest IH]; [reflexivity|].
        cbn [flat_map]. now rewrite map_app, IH.
      - unfold chunks, range_step. rewrite flat_map_concat_map, !map_map,
          <- flat_map_concat_map. cbn [fst snd].
        rewrite (chunks_tile length chunk_size Hc _ 0 eq_refl).
        unfold range. rewrite Z.sub_0_r, map_map.
        induction (Z.to_nat length) as [|count IH]; [reflexivity|].
        rewrite <- cons_seq, <- seq_shift, map_cons, map_map. cbn [repeat].
        now rewrite IH. }
    rewrite Hcat.
    destruct (map _ chunks) eqn:E; [|reflexivity].
    cbn [List.concat] in Hcat. destruct (Z.to_nat length) eqn:En; [lia | discriminate].
  - intros [s e] Hin. cbn [fst snd]. apply chunk_without_offsets.
    unfold chunks in Hin. apply in_map_iff in Hin. destruct Hin as (i & Hi & Hin).
    injection Hi as <- <-.
    unfold range_step in Hin. apply in_map_iff in Hin. destruct Hin as (k & <- & Hk).
    apply in_seq in Hk.
    assert (chunk_size * ((length - 0 + chunk_size - 1) / chunk_size)
            <= length - 0 + chunk_size - 1) by (apply Z.mul_div_le; lia).
    nia.
Qed.

(** C7 (counterexample).  [generate_synthetic_stream] with two empty
    offset lists does not fail: for length 5 it returns five zeros, with
    modulus 10 as with modulus 7, and even without digit files. *)
Lemma synthesis_without_offsets_returns_zeros :
  Streams.generate_synthetic_stream Inputs.env [] [] 5 10 (Some 1)
    = Ok [0; 0; 0; 0; 0] /\
  Streams.generate_synthetic_stream
    (Streams.MkEnv (Digits.MkDigitStore None None) 8) [] [] 5 7 None
    = Ok [0; 0; 0; 0; 0].
Proof. split; vm_compute; reflexivity. Qed.

(** ** Pattern construction *)

(** C8 (as amended).  Constructing a pattern fails with [ValueError]
    exactly when a spacing list is given whose length is not the number of
    digits minus one; in every other case the pattern is built with the
    digits and the spacing as given, whatever the values of the digits. *)
Theorem pattern_init_checks_spacing_length :
  forall (digits : list Z) (spacing : option (list Z)),
    (Patterns.Pattern_init digits spacing = Raise ValueError <->
     exists s, spacing = Some s /\ len s <> len digits - 1) /\
    (Patterns.Pattern_init digits spacing = Ok (Patterns.MkPattern digits spacing) <->
     forall s, spacing = Some s -> len s = len digits - 1).
Proof.
  intros digits [s|]; unfold Patterns.Pattern_init.
  - destruct (Z.eqb_spec (len s) (len digits - 1)) as [E|E]; simpl; split; split.
    + discriminate.
    + intros (s' & Hs & Hne). injection Hs as <-. contradiction.
    + intros _ s' Hs. injection Hs as <-. exact E.
    + reflexivity.
    + intros _. exists s. split; [reflexivity | exact E].
    + reflexivity.
    + discriminate.
    + intro H. elim E. now apply H.
  - split; split.
    + discriminate.
    + intros (s & Hs & _). discriminate.
    + intros _ s Hs. discriminate.
    + reflexivity.
Qed.

Lemma pattern_init_checks_spacing_length_witness :
  (exists s, Some [5; 6] = Some s /\ len s <> len [1; 2] - 1) /\
  Patterns.Pattern_init [1; 2] (Some [5; 6]) = Raise ValueError /\
  (forall s, Some [4] = Some s -> len s = len [1; 2] - 1) /\
  Patterns.Pattern_init [1; 2] (Some [4]) = Ok (Patterns.MkPattern [1; 2] (Some [4])).
Proof.
  assert (Hbad : exists s, Some [5; 6] = Some s /\ len s <> len [1; 2] - 1).
  { exists [5; 6]. split; [reflexivity | vm_compute; discriminate]. }
  assert (Hgood : forall s, Some [4] = Some s -> len s = len [1; 2] - 1).
  { intros s Hs. injection Hs as <-. reflexivity. }
  split; [exact Hbad|].
  split; [exact (proj2 (proj1 (pattern_init_checks_spacing_length [1; 2] (Some [5; 6]))) Hbad)|].
  split; [exact Hgood|].
  exact (proj2 (proj2 (pattern_init_checks_spacing_length [1; 2] (Some [4]))) Hgood).
Defined.

(** C8 (counterexample).  The claim asks that a digit outside
    [0, modulus) be refused.  The digit 10, outside [0, 10), is accepted
    and kept as it is. *)
Lemma pattern_init_accepts_any_digit :
  ~ (forall (modulus : Z) (digits : list Z) (spacing : option (list Z)),
        (exists d, In d digits /\ ~ (0 <= d < modulus)) ->
        Patterns.Pattern_init digits spacing = Raise ValueError).
Proof.
  intro H. specialize (H 10 [10] None).
  assert (Hd : exists d, In d [10] /\ ~ (0 <= d < 10)).
  { exists 10. split; [now left | lia]. }
  specialize (H Hd). discriminate H.
Qed.

(** ** The verification token *)

Lemma string_append_assoc (a b c : string) :
  String.append (String.append a b) c = String.append a (String.append b c).
Proof. induction a as [|ch a IH]; simpl; [reflexivity | now rewrite IH]. Qed.

Lemma string_append_empty_r (a : string) : String.append a EmptyString = a.
Proof. induction a as [|ch a IH]; simpl; [reflexivity | now rewrite IH]. Qed.

(** The loop of [hash_follow_sequences] appends, to what it has, every
    sequence followed by the separator. *)
Lemma seq_str_fold (seqs : list (list Z)) :
  forall acc : string,
    fold_left (fun acc seq =>
                 String.append acc (String.append (join (map str seq)) "|"))
              seqs acc
    = String.append acc
        (join (map (fun seq => String.append (Spec.render seq) "|") seqs)).
Proof.
  induction seqs as [|seq seqs IH]; intro acc; simpl.
  - now rewrite string_append_empty_r.
  - rewrite IH. now rewrite string_append_assoc.
Qed.

Lemma seq_str_terminated (seqs : list (list Z)) :
  Patterns.seq_str seqs
  = join (map (fun seq => String.append (Spec.render seq) "|") seqs).
Proof. unfold Patterns.seq_str. now rewrite seq_str_fold. Qed.

Lemma seq_str_joined (seq : list Z) (seqs : list (list Z)) :
  Patterns.seq_str (seq :: seqs) = Spec.spec_seq_str (seq :: seqs).
Proof.
  rewrite seq_str_terminated. unfold Spec.spec_seq_str.
  revert seq. induction seqs as [|seq' seqs IH]; intro seq.
  - simpl. now rewrite string_append_empty_r.
  - change (join (map (fun s => String.append (Spec.render s) "|") (seq :: seq' :: seqs)))
      with (String.append (String.append (Spec.render seq) "|")
              (join (map (fun s => String.append (Spec.render s) "|") (seq' :: seqs)))).
    rewrite IH.
    change (join_with "|" (map Spec.render (seq :: seq' :: seqs)))
      with (String.append (Spec.render seq)
              (String.append "|" (join_with "|" (map Spec.render (seq' :: seqs))))).
    now rewrite !string_append_assoc.
Qed.

(** A digest is 32 bytes, its hexadecimal form 64 characters. *)
Lemma be_bytes_length (n : nat) (x : Z) : List.length (Sha256.be_bytes n x) = n.
Proof. induction n as [|n IH]; simpl; [reflexivity | now rewrite IH]. Qed.

Lemma blocks_length (n : nat) :
  forall h bs, List.length h = 8%nat -> List.length (Sha256.blocks n h bs) = 8%nat.
Proof.
  induction n as [|n IH]; intros h bs Hh; simpl; [exact Hh|].
  apply IH. reflexivity.
Qed.

Lemma hex_length (bs : list Z) :
  String.length (Sha256.hex bs) = (2 * List.length bs)%nat.
Proof. induction bs as [|b bs IH]; simpl; [reflexivity | rewrite IH; lia]. Qed.

Lemma hexdigest_length (msg : list Z) : String.length (Sha256.hexdigest msg) = 64%nat.
Proof.
  unfold Sha256.hexdigest, Sha256.digest. rewrite hex_length.
  pose proof (blocks_length (Nat.div (List.length (Sha256.pad msg)) 64)
                Sha256.H0 (Sha256.pad msg) eq_refl) as H8.
  destruct (Sha256.blocks _ _ _) as [|a [|b [|c [|d [|e [|f [|g [|h [|]]]]]]]]];
    try discriminate H8.
  reflexivity.
Qed.

(** C9 (as amended).  For a list of at least one follow sequence the
    token is the hexadecimal SHA-256 digest, 64 characters long, of the
    sequences rendered as their digits, joined with "|" and followed by
    one more "|"; for the empty list it is the digest of the empty string.
    Reordering can change the token, and equal lists give equal tokens. *)
Theorem hash_follow_sequences_spec :
  (forall seq seqs,
      Patterns.hash_follow_sequences (seq :: seqs)
      = Spec.spec_hash_follow_sequences (seq :: seqs)) /\
  Patterns.hash_follow_sequences [] = Sha256.hexdigest (encode "") /\
  (forall seqs, String.length (Patterns.hash_follow_sequences seqs) = 64%nat) /\
  Patterns.hash_follow_sequences [[1]; [2]] <> Patterns.hash_follow_sequences [[2]; [1]] /\
  (forall seqs seqs', seqs = seqs' ->
      Patterns.hash_follow_sequences seqs = Patterns.hash_follow_sequences seqs').
Proof.
  split; [|split; [|split; [|split]]].
  - intros seq seqs. unfold Patterns.hash_follow_sequences, Spec.spec_hash_follow_sequences.
    now rewrite seq_str_joined.
  - reflexivity.
  - intro seqs. apply hexdigest_length.
  - vm_compute. discriminate.
  - intros seqs seqs' ->. reflexivity.
Qed.

Lemma hash_follow_sequences_spec_witness :
  [[3; 1]; [4]] = [[3; 1]; [4]] /\
  Patterns.hash_follow_sequences [[3; 1]; [4]] = Patterns.hash_follow_sequences [[3; 1]; [4]] /\
  Patterns.hash_follow_sequences [[3; 1]; [4]]
  = Sha256.hexdigest (encode "31|4|").
Proof.
  split; [reflexivity|].
  split; [exact (proj2 (proj2 (proj2 (proj2 hash_follow_sequences_spec))) _ _ eq_refl)|].
  exact (proj1 hash_follow_sequences_spec [3; 1] [[4]]).
Defined.

(** C9 (counterexample).  For the empty list the words of the claim give
    the digest of "|"; the code hashes the empty string. *)
Lemma hash_of_no_sequence_differs :
  Patterns.hash_follow_sequences []
    = "e3b0c44298fc1c149afbf4c8996fb92427ae41e4649b934ca495991b7852b855"%string /\
  Spec.spec_hash_follow_sequences []
    = "cbe5cfdf7c2118a9c3d78ef1d684f3afa089201352886449a06a6511cfef74a7"%string /\
  Patterns.hash_follow_sequences [] <> Spec.spec_hash_follow_sequences [].
Proof.
  split; [vm_compute; reflexivity|].
  split; [vm_compute; reflexivity|].
  vm_compute. discriminate.
Qed.

(** ** The matching rule *)

Lemma len_nonneg {A : Type} (l : list A) : 0 <= len l.
Proof. unfold len. lia. Qed.

Lemma len_cons {A : Type} (x : A) (l : list A) : len (x :: l) = len l + 1.
Proof. unfold len. simpl. lia. Qed.

Lemma len_app {A : Type} (l1 l2 : list A) : len (l1 ++ l2) = len l1 + len l2.
Proof. unfold len. rewrite length_app. lia. Qed.

Lemma np_getitem_inside (a : list Z) (i : Z) :
  0 <= i < len a -> np_getitem a i = Ok (nth (Z.to_nat i) a 0).
Proof.
  intros [H0 H1]. unfold np_getitem.
  destruct (Z.leb_spec 0 i); [|lia].
  destruct (Z.ltb_spec i (len a)); [|lia]. reflexivity.
Qed.

Lemma list_getitem_inside (l : list Z) (i : Z) :
  0 <= i < len l -> list_getitem l i = Ok (nth (Z.to_nat i) l 0).
Proof.
  intros [H0 H1]. unfold list_getitem.
  destruct (Z.leb_spec 0 i); [|lia].
  destruct (Z.ltb_spec i (len l)); [|lia]. reflexivity.
Qed.

Lemma nth_nonneg (s : list Z) (j : nat) :
  Forall (fun g => 0 <= g) s -> 0 <= nth j s 0.
Proof.
  intro H. revert j. induction H as [|g s Hg _ IH]; intros [|j]; simpl; auto; lia.
Qed.

Lemma nth_all_zero (s : list Z) (j : nat) :
  forallb (fun x => x =? 0) s = true -> nth j s 0 = 0.
Proof.
  revert j. induction s as [|g s IH]; intros [|j] H; simpl in *; try reflexivity;
    apply andb_prop in H; destruct H as [Hg Hs].
  - now apply Z.eqb_eq.
  - now apply IH.
Qed.

Lemma cum_offset_nonneg (pat : Patterns.Pattern) (i : nat) :
  Spec.wf_pattern pat -> 0 <= Spec.cum_offset (Patterns.spacing pat) i.
Proof.
  unfold Spec.wf_pattern. destruct (Patterns.spacing pat) as [s|]; intro H;
    induction i as [|i IH]; simpl; try lia.
  destruct H as [_ H]. pose proof (nth_nonneg s i H). lia.
Qed.

Lemma cum_offset_contiguous (pat : Patterns.Pattern) (i : nat) :
  Patterns.is_contiguous pat = true ->
  Spec.cum_offset (Patterns.spacing pat) i = Z.of_nat i.
Proof.
  unfold Patterns.is_contiguous. destruct (Patterns.spacing pat) as [s|]; intro H;
    induction i as [|i IH]; simpl; try lia.
  rewrite (nth_all_zero s i H). lia.
Qed.

Section MatchLoops.

Variable stream : list Z.
Variable p : Z.
Hypothesis p_nonneg : 0 <= p.

(** The contiguous loop succeeds exactly when the digits it is given
    are the stream values from [p + i] on. *)
Lemma match_contiguous_spec (ds : list Z) :
  forall i : Z,
    0 <= i -> p + i + len ds <= len stream ->
    exists b e,
      Patterns.match_contiguous stream p i ds = Ok (b, e) /\
      (b = true <->
       forall j : nat, (j < List.length ds)%nat ->
         nth (Z.to_nat (p + i + Z.of_nat j)) stream 0 = nth j ds 0).
Proof.
  induction ds as [|d ds IH]; intros i Hi Hlen.
  - simpl. eexists. eexists. split; [reflexivity|].
    split; [intros _ j Hj; simpl in Hj; lia | reflexivity].
  - rewrite len_cons in Hlen. pose proof (len_nonneg ds) as Hds.
    simpl. rewrite np_getitem_inside by lia. simpl.
    destruct (Z.eqb_spec (nth (Z.to_nat (p + i)) stream 0) d) as [E|E]; simpl.
    + destruct (IH (i + 1)) as (b & e & Hrun & Hb); [lia | lia |].
      exists b, e. split; [exact Hrun|].
      rewrite Hb. split.
      * intros H [|j] Hj.
        -- cbn [nth]. change (Z.of_nat 0) with 0. rewrite Z.add_0_r. exact E.
        -- cbn [nth]. replace (p + i + Z.of_nat (S j))
             with (p + (i + 1) + Z.of_nat j) by lia.
           apply H. simpl in Hj. lia.
      * intros H j Hj. specialize (H (S j)). cbn [nth] in H.
        replace (p + (i + 1) + Z.of_nat j) with (p + i + Z.of_nat (S j)) by lia.
        apply H. simpl. lia.
    + exists false, (-1). split; [reflexivity|].
      split; [discriminate|]. intro H. specialize (H O). cbn [nth] in H.
      change (Z.of_nat 0) with 0 in H.
      rewrite Z.add_0_r in H. elim E. apply H. simpl. lia.
Qed.

Variable sp : list Z.
Variable digits : list Z.
Hypothesis sp_len : len sp = len digits - 1.
Hypothesis sp_nonneg : Forall (fun g => 0 <= g) sp.

Let c := Spec.cum_offset (Some sp).

Lemma c_nonneg (i : nat) : 0 <= c i.
Proof.
  induction i as [|i IH]; unfold c in *; simpl; [lia|].
  pose proof (nth_nonneg sp i sp_nonneg). lia.
Qed.

(** The loop with spacing, entered at digit [i] with the cursor on
    [p + c_i], succeeds exactly when every digit from [i] on is inside
    the stream and matches, and then ends after the last one. *)
Lemma match_spaced_spec (ds : list Z) :
  forall i : nat,
    skipn i digits = ds -> (i + List.length ds = List.length digits)%nat ->
    exists b e,
      Patterns.match_spaced stream sp (len digits) (Z.of_nat i) ds (p + c i) = Ok (b, e) /\
      (b = true <->
       forall j : nat, (i <= j < List.length digits)%nat ->
         p + c j < len stream /\ nth (Z.to_nat (p + c j)) stream 0 = nth j digits 0) /\
      (b = true -> ds <> [] -> e = p + c (List.length digits - 1) + 1).
Proof.
  induction ds as [|d ds IH]; intros i Hskip Hcount.
  - simpl. eexists. eexists. split; [reflexivity|]. split; [|intros _ H; now elim H].
    split; [|reflexivity]. intros _ j Hj. simpl in Hcount. lia.
  - assert (Hd : nth i digits 0 = d).
    { rewrite <- (firstn_skipn i digits) at 1. rewrite Hskip.
      rewrite app_nth2; rewrite length_firstn; simpl in Hcount.
      - replace (i - Nat.min i (List.length digits))%nat with O by lia. reflexivity.
      - lia. }
    assert (Hnext : skipn (S i) digits = ds).
    { replace (S i) with (1 + i)%nat by lia.
      rewrite <- skipn_skipn. rewrite Hskip. reflexivity. }
    simpl in Hcount. pose proof (c_nonneg i) as Hci.
    cbn [Patterns.match_spaced].
    destruct (Z.geb_spec (p + c i) (len stream)) as [Hout|Hin].
    + exists false, (-1). split; [reflexivity|]. split; [|discriminate].
      split; [discriminate|]. intro H. specialize (H i). lia.
    + rewrite np_getitem_inside by lia. cbn [bind].
      destruct (Z.eqb_spec (nth (Z.to_nat (p + c i)) stream 0) d) as [E|E]; cbn [negb].
      * destruct (Z.ltb_spec (Z.of_nat i) (len digits - 1)) as [Hmid|Hlast].
        -- rewrite list_getitem_inside by lia. cbn [bind].
           rewrite Nat2Z.id.
           replace (p + c i + 1 + nth i sp 0) with (p + c (S i))
             by (unfold c; simpl; lia).
           replace (Z.of_nat i + 1) with (Z.of_nat (S i)) by lia.
           destruct (IH (S i) Hnext) as (b & e & Hrun & Hb & He); [lia|].
           exists b, e. split; [exact Hrun|]. split.
           ++ rewrite Hb. split.
              ** intros H j Hj. destruct (Nat.eq_dec j i) as [->|Hne].
                 --- split; [lia | congruence].
                 --- apply H. lia.
              ** intros H j Hj. apply H. lia.
           ++ intros Hbt _. apply He; [exact Hbt|].
              destruct ds; [|discriminate]. unfold len in Hmid. simpl in Hcount. lia.
        -- destruct ds as [|d' ds'];
             [|exfalso; unfold len in Hlast; simpl in Hcount; lia].
           cbn [Patterns.match_spaced].
           exists true, (p + c i + 1). split; [reflexivity|]. split.
           ++ split; [|reflexivity]. intros _ j Hj.
              assert (j = i) by (simpl in Hcount; lia). subst j.
              split; [lia | congruence].
           ++ intros _ _. simpl in Hcount.
              replace (List.length digits - 1)%nat with i by lia. reflexivity.
      * exists false, (-1). split; [reflexivity|]. split; [|discriminate].
        split; [discriminate|]. intro H. specialize (H i).
        elim E. rewrite <- Hd. apply H. lia.
Qed.

End MatchLoops.

(** The follow sequence is the stream from the end position on, at most
    [follow_digits] long; nothing is raised when the stream ends first. *)
Lemma extract_follow_digits_spec (self : Patterns.PatternMatcher) (stream : list Z) (e : Z) :
  0 <= e ->
  Patterns._extract_follow_digits self stream e
  = Spec.follow_sequence (Patterns.follow_digits self) stream e.
Proof.
  intro He. unfold Patterns._extract_follow_digits, Spec.follow_sequence.
  set (fd := Patterns.follow_digits self).
  assert (Hlen : List.length (skipn (Z.to_nat e) stream)
                 = (List.length stream - Z.to_nat e)%nat) by apply length_skipn.
  destruct (Z.leb_spec (Z.min fd (len stream - e)) 0) as [Hle|Hgt].
  - destruct (Z.le_gt_cases fd 0) as [Hfd|Hfd].
    + replace (Z.to_nat fd) with O by lia. reflexivity.
    + assert (Hs : skipn (Z.to_nat e) stream = []).
      { apply skipn_all2. unfold len in Hle. lia. }
      rewrite Hs. now rewrite firstn_nil.
  - unfold slice, slice_bound.
    destruct (Z.ltb_spec e 0); [lia|].
    destruct (Z.ltb_spec (e + Z.min fd (len stream - e)) 0); [lia|].
    rewrite (Z.min_l e (len stream)) by lia.
    rewrite (Z.min_l (e + Z.min fd (len stream - e)) (len stream)) by lia.
    replace (e + Z.min fd (len stream - e) - e) with (Z.min fd (len stream - e)) by lia.
    destruct (Z.le_gt_cases fd (len stream - e)) as [Hfd|Hfd].
    + now rewrite Z.min_l by lia.
    + rewrite Z.min_r by lia.
      rewrite !firstn_all2; [reflexivity | unfold len in *; lia | unfold len in *; lia].
Qed.

(** The matching rule of [match_at_position], branch by branch: the
    outcome, and the end position of a match. *)
Lemma match_at_position_cases :
  forall (pat : Patterns.Pattern) (stream : list Z) (p : Z),
    Spec.wf_pattern pat -> Patterns.digits pat <> [] -> 0 <= p ->
    exists (b : bool) (e : Z),
      Patterns.match_at_position pat stream p = Ok (b, e) /\
      (b = true <-> Spec.matches_at pat stream p) /\
      (b = true -> e = Spec.end_position pat p /\ 0 <= e).
Proof.
  intros pat stream p Hwf Hne Hp.
  assert (Hn : (0 < List.length (Patterns.digits pat))%nat).
  { destruct (Patterns.digits pat); [now elim Hne | simpl; lia]. }
  unfold Patterns.match_at_position.
  destruct (Z.ltb_spec p 0) as [|_]; [lia|]. cbn [orb].
  destruct (Z.geb_spec p (len stream)) as [Hout|Hin].
  { exists false, (-1). split; [reflexivity|]. split; [|discriminate].
    split; [discriminate|]. intro H. destruct (H O Hn) as [H0 _]. cbn [Spec.cum_offset] in H0. lia. }
  destruct (Patterns.is_contiguous pat) eqn:Hcont.
  - unfold Patterns.length.
    destruct (Z.gtb_spec (p + len (Patterns.digits pat)) (len stream)) as [Hlong|Hfit].
    + exists false, (-1). split; [reflexivity|]. split; [|discriminate].
      split; [discriminate|]. intro H.
      destruct (H (List.length (Patterns.digits pat) - 1)%nat) as [H0 _]; [lia|].
      rewrite cum_offset_contiguous in H0 by assumption. unfold len in *. lia.
    + destruct (match_contiguous_spec stream p Hp (Patterns.digits pat) 0)
        as (b & e & Hrun & Hb); [lia | lia |].
      rewrite Hrun. cbn [bind].
      assert (Hrule : b = true <-> Spec.matches_at pat stream p).
      { rewrite Hb. unfold Spec.matches_at. split; intros H j Hj.
        - rewrite cum_offset_contiguous by assumption. split.
          + unfold len in *. lia.
          + specialize (H j Hj). now rewrite Z.add_0_r in H.
        - destruct (H j Hj) as [_ H1].
          rewrite cum_offset_contiguous in H1 by assumption.
          now rewrite Z.add_0_r. }
      destruct b.
      * exists true, (p + len (Patterns.digits pat)). split; [reflexivity|].
        split; [exact Hrule|]. intros _. split.
        -- unfold Spec.end_position. rewrite cum_offset_contiguous by assumption.
           unfold len. lia.
        -- pose proof (len_nonneg (Patterns.digits pat)). lia.
      * exists false, (-1). split; [reflexivity|]. split; [exact Hrule | discriminate].
  - unfold Patterns.is_contiguous in Hcont. unfold Spec.wf_pattern in Hwf.
    unfold Spec.matches_at, Spec.end_position.
    destruct (Patterns.spacing pat) as [sp|]; [|discriminate].
    destruct Hwf as [Hlen Hnonneg].
    destruct (match_spaced_spec stream p Hp sp (Patterns.digits pat) Hlen Hnonneg
                (Patterns.digits pat) O) as (b & e & Hrun & Hb & He);
      [reflexivity | reflexivity |].
    change (Spec.cum_offset (Some sp) 0) with 0 in Hrun.
    rewrite Z.add_0_r in Hrun. change (Z.of_nat 0) with 0 in Hrun.
    exists b, e. split; [exact Hrun|]. split.
    + rewrite Hb. split; intros H j Hj; apply H; lia.
    + intro Hbt. specialize (He Hbt Hne). split; [exact He|].
      subst e.
      pose proof (c_nonneg sp Hnonneg (List.length (Patterns.digits pat) - 1)). lia.
Qed.

(** C6.  For a well-formed, non-empty pattern and a candidate position
    [p >= 0], [match_at_position] returns without an exception; it reports
    a match exactly when every pattern digit [i] is inside the stream at
    [p + c_i] and equal to the stream value there; on a match the end
    position is [p + c_last + 1] and the follow sequence is the stream
    from there on, [follow_digits] long or cut (possibly to nothing) at
    the end of the stream. *)
Theorem match_at_position_rule :
  forall (self : Patterns.PatternMatcher) (pat : Patterns.Pattern)
         (stream : list Z) (p : Z),
    Spec.wf_pattern pat -> Patterns.digits pat <> [] -> 0 <= p ->
    exists (b : bool) (e : Z),
      Patterns.match_at_position pat stream p = Ok (b, e) /\
      (b = true <-> Spec.matches_at pat stream p) /\
      (b = true ->
       e = Spec.end_position pat p /\
       Patterns._extract_follow_digits self stream e
       = Spec.follow_sequence (Patterns.follow_digits self) stream e).
Proof.
  intros self pat stream p Hwf Hne Hp.
  destruct (match_at_position_cases pat stream p Hwf Hne Hp) as (b & e & Hrun & Hrule & Hend).
  exists b, e. split; [exact Hrun|]. split; [exact Hrule|].
  intro Hb. destruct (Hend Hb) as [He He0]. split; [exact He|].
  apply extract_follow_digits_spec. exact He0.
Qed.

Lemma match_at_position_rule_witness :
  exists (b : bool) (e : Z),
    Patterns.match_at_position (Patterns.MkPattern [3; 1; 9] (Some [2; 3]))
                               [0; 0; 3; 5; 5; 1; 7; 7; 7; 9; 4; 8] 2 = Ok (b, e) /\
    (b = true <-> Spec.matches_at (Patterns.MkPattern [3; 1; 9] (Some [2; 3]))
                                  [0; 0; 3; 5; 5; 1; 7; 7; 7; 9; 4; 8] 2) /\
    (b = true ->
     e = Spec.end_position (Patterns.MkPattern [3; 1; 9] (Some [2; 3])) 2 /\
     Patterns._extract_follow_digits Inputs.matcher_3 [0; 0; 3; 5; 5; 1; 7; 7; 7; 9; 4; 8] e
     = Spec.follow_sequence 3 [0; 0; 3; 5; 5; 1; 7; 7; 7; 9; 4; 8] e).
Proof.
  apply (match_at_position_rule Inputs.matcher_3
           (Patterns.MkPattern [3; 1; 9] (Some [2; 3]))
           [0; 0; 3; 5; 5; 1; 7; 7; 7; 9; 4; 8] 2).
  - split; [reflexivity | repeat constructor; lia].
  - discriminate.
  - lia.
Defined.

(** The planted pattern of the witness is found at position 2, ends at 10
    and is followed by [4; 8]. *)
Example planted_pattern :
  Patterns.match_at_position (Patterns.MkPattern [3; 1; 9] (Some [2; 3]))
                             [0; 0; 3; 5; 5; 1; 7; 7; 7; 9; 4; 8] 2 = Ok (true, 10) /\
  Patterns._extract_follow_digits Inputs.matcher_3
                                  [0; 0; 3; 5; 5; 1; 7; 7; 7; 9; 4; 8] 10 = [4; 8].
Proof. split; reflexivity. Qed.

(** ** Sequential and parallel search *)

(** A well-formed pattern is matched at any position without an
    exception. *)
Lemma match_at_position_total (pat : Patterns.Pattern) (stream : list Z) (p : Z) :
  Spec.wf_pattern pat ->
  exists b e, Patterns.match_at_position pat stream p = Ok (b, e).
Proof.
  intro Hwf.
  destruct (Z.lt_ge_cases p 0) as [Hneg|Hp].
  { unfold Patterns.match_at_position.
    destruct (Z.ltb_spec p 0); [|lia]. simpl. eauto. }
  destruct (Patterns.digits pat) as [|d ds] eqn:Hd.
  - unfold Patterns.match_at_position, Patterns.is_contiguous, Patterns.length.
    unfold Spec.wf_pattern in Hwf. rewrite Hd in *.
    destruct (Patterns.spacing pat) as [s|].
    + destruct Hwf as [Hlen _]. pose proof (len_nonneg s). unfold len in Hlen at 2.
      simpl in Hlen. lia.
    + destruct ((p <? 0) || (p >=? len stream)); [eauto|].
      destruct (p + len (@nil Z) >? len stream); simpl; eauto.
  - destruct (match_at_position_cases pat stream p)
      as (b & e & H & _); [assumption | rewrite Hd; discriminate | assumption |].
    eauto.
Qed.

Section Search.

Variable self : Patterns.PatternMatcher.
Variable pat : Patterns.Pattern.
Variable stream : list Z.
Variable k : Z.
Hypothesis pat_wf : Spec.wf_pattern pat.
Hypothesis k_pos : 1 <= k.

Let hits := Spec.all_hits self pat stream.

(** The search loop appends the hits among its positions until it holds
    [k] results. *)
Lemma search_loop_spec (positions : list Z) :
  forall acc : list Patterns.found,
    len acc < k ->
    Patterns.search_loop self pat stream k positions acc
    = Ok (acc ++ firstn (Z.to_nat (k - len acc)) (hits positions)).
Proof.
  induction positions as [|pos rest IH]; intros acc Hacc.
  - simpl. unfold hits, Spec.all_hits. simpl. rewrite firstn_nil.
    now rewrite app_nil_r.
  - cbn [Patterns.search_loop]. unfold hits, Spec.all_hits. cbn [flat_map].
    unfold Spec.hit at 1.
    destruct (match_at_position_total pat stream pos pat_wf) as (b & e & Hm).
    rewrite Hm. cbn [bind]. destruct b.
    + set (x := (pos, Patterns._extract_follow_digits self stream e)).
      rewrite len_app. change (len [x]) with 1.
      replace (Z.to_nat (k - len acc)) with (S (Z.to_nat (k - (len acc + 1)))) by lia.
      cbn [app firstn].
      destruct (Z.geb_spec (len acc + 1) k) as [Hfull|Hroom].
      * replace (Z.to_nat (k - (len acc + 1))) with O by lia. reflexivity.
      * rewrite IH by (rewrite len_app; change (len [x]) with 1; lia).
        rewrite len_app. change (len [x]) with 1.
        rewrite <- app_assoc. reflexivity.
    + cbn [app]. apply IH. exact Hacc.
Qed.

Lemma sequential_spec (start_from : Z) :
  Patterns._find_pattern_sequential self pat stream k start_from
  = Ok (firstn (Z.to_nat k)
               (hits (range start_from (len stream - Patterns.length pat + 1)))).
Proof.
  unfold Patterns._find_pattern_sequential.
  rewrite search_loop_spec by (change (len (@nil Patterns.found)) with 0; lia).
  change (len (@nil Patterns.found)) with 0. now rewrite Z.sub_0_r.
Qed.

Lemma search_chunk_spec (start end_ : Z) :
  Patterns._search_chunk self pat stream start end_ k
  = Ok (firstn (Z.to_nat k) (hits (range start end_))).
Proof.
  unfold Patterns._search_chunk.
  rewrite search_loop_spec by (change (len (@nil Patterns.found)) with 0; lia).
  change (len (@nil Patterns.found)) with 0. now rewrite Z.sub_0_r.
Qed.

(** Visiting the chunks in order and leaving once [k] results are held
    yields a prefix of all the hits, which holds [k] results or all of
    them. *)
Lemma gather_spec (chunks : list (Z * Z)) :
  forall acc : list Patterns.found,
    exists (m : nat) (results : list Patterns.found),
      Patterns.gather (fun start end_ =>
                         Patterns._search_chunk self pat stream start end_ k)
                      k chunks acc = Ok results /\
      results = firstn m (acc ++ flat_map (fun se => hits (range (fst se) (snd se))) chunks) /\
      (k <= len results \/
       results = acc ++ flat_map (fun se => hits (range (fst se) (snd se))) chunks).
Proof.
  induction chunks as [|[s e] rest IH]; intro acc.
  - exists (List.length acc), acc. simpl. rewrite app_nil_r.
    split; [reflexivity|]. split; [now rewrite firstn_all | now right].
  - cbn [Patterns.gather flat_map fst snd]. rewrite search_chunk_spec. cbn [bind].
    set (H1 := hits (range s e)).
    set (Hrest := flat_map (fun se => hits (range (fst se) (snd se))) rest).
    destruct (Z.geb_spec (len (acc ++ firstn (Z.to_nat k) H1)) k) as [Hfull|Hroom].
    + exists (List.length (acc ++ firstn (Z.to_nat k) H1)), (acc ++ firstn (Z.to_nat k) H1).
      split; [reflexivity|]. split; [|now left].
      rewrite length_app, firstn_app_2. f_equal.
      rewrite firstn_app, length_firstn.
      replace (Nat.min (Z.to_nat k) (List.length H1) - List.length H1)%nat with O by lia.
      cbn [firstn]. rewrite app_nil_r.
      destruct (Nat.le_gt_cases (Z.to_nat k) (List.length H1)) as [Hle|Hgt].
      -- now rewrite Nat.min_l by exact Hle.
      -- rewrite Nat.min_r by lia. rewrite firstn_all.
         apply firstn_all2. lia.
    + assert (Hall : firstn (Z.to_nat k) H1 = H1).
      { apply firstn_all2. rewrite len_app in Hroom. unfold len in Hroom.
        pose proof (firstn_le_length (Z.to_nat k) H1) as Hle.
        destruct (Nat.le_gt_cases (List.length H1) (Z.to_nat k)) as [Hok|Hgt]; [exact Hok|].
        rewrite firstn_length_le in Hroom by lia. lia. }
      rewrite Hall in *.
      destruct (IH (acc ++ H1)) as (m & results & Hrun & Hpre & Hend).
      exists m, results. split; [exact Hrun|].
      rewrite <- app_assoc in Hpre, Hend. split; assumption.
Qed.

End Search.

(** Hits carry the position they were found at. *)
Lemma hits_positions (self : Patterns.PatternMatcher) (pat : Patterns.Pattern)
      (stream : list Z) (P : Z -> Prop) (positions : list Z) :
  Forall P positions ->
  Forall (fun x => P (fst x)) (Spec.all_hits self pat stream positions).
Proof.
  induction 1 as [|pos rest Hpos _ IH]; unfold Spec.all_hits; cbn [flat_map].
  - constructor.
  - apply Forall_app. split; [|exact IH].
    unfold Spec.hit. destruct (Patterns.match_at_position pat stream pos) as [[[|] e]|];
      repeat constructor. exact Hpos.
Qed.

Lemma hits_sorted (self : Patterns.PatternMatcher) (pat : Patterns.Pattern)
      (stream : list Z) (positions : list Z) :
  StronglySorted Z.lt positions ->
  StronglySorted (fun x y => fst x < fst y) (Spec.all_hits self pat stream positions).
Proof.
  induction 1 as [|pos rest _ IH Hall]; unfold Spec.all_hits; cbn [flat_map].
  - constructor.
  - pose proof (hits_positions self pat stream (fun i => pos < i) rest Hall) as Hfst.
    unfold Spec.hit. destruct (Patterns.match_at_position pat stream pos) as [[[|] e]|];
      cbn [app]; try exact IH.
    constructor; [exact IH | exact Hfst].
Qed.

Lemma firstn_Forall {A : Type} (P : A -> Prop) (n : nat) (l : list A) :
  Forall P l -> Forall P (firstn n l).
Proof.
  intro H. revert n. induction H as [|x l Hx _ IH]; intros [|n]; simpl;
    constructor; [exact Hx | apply IH].
Qed.

Lemma firstn_sorted {A : Type} (R : A -> A -> Prop) (n : nat) (l : list A) :
  StronglySorted R l -> StronglySorted R (firstn n l).
Proof.
  intro H. revert n. induction H as [|x l _ IH Hall]; intros [|n]; simpl;
    try constructor; [apply IH | now apply firstn_Forall].
Qed.

(** Sorting by position leaves a list with ascending positions as it is. *)
Lemma sort_sorted (l : list Patterns.found) :
  StronglySorted (fun x y => fst x < fst y) l -> Patterns.sort_by_position l = l.
Proof.
  induction 1 as [|x l _ IH Hall]; [reflexivity|].
  cbn [Patterns.sort_by_position fold_right].
  change (fold_right Patterns.insert_by_position [] l) with (Patterns.sort_by_position l).
  rewrite IH. destruct l as [|y l']; [reflexivity|]. simpl.
  inversion Hall as [|? ? Hxy _]; subst.
  destruct (Z.leb_spec (fst x) (fst y)); [reflexivity | lia].
Qed.

Lemma sorted_ascending (l : list Patterns.found) :
  StronglySorted (fun x y => fst x < fst y) l -> Spec.ascending l.
Proof.
  induction 1 as [|x l _ IH Hall]; simpl; [exact I|].
  split; [|exact IH]. destruct l as [|y l']; [exact I|].
  now inversion Hall.
Qed.

Lemma all_hits_flat_map (self : Patterns.PatternMatcher) (pat : Patterns.Pattern)
      (stream : list Z) (chunks : list (Z * Z)) :
  flat_map (fun se => Spec.all_hits self pat stream (range (fst se) (snd se))) chunks
  = Spec.all_hits self pat stream (flat_map (fun se => range (fst se) (snd se)) chunks).
Proof.
  induction chunks as [|se rest IH]; [reflexivity|].
  cbn [flat_map]. unfold Spec.all_hits at 3. rewrite flat_map_app.
  now rewrite IH.
Qed.

(** X25.  For a quota [max_positions >= 1], a well-formed pattern and a
    worker count the thread pool accepts, the parallel variant returns
    exactly what the sequential variant returns: the first
    [max_positions] matches of the whole scan (all of them when there are
    fewer), each with its follow sequence, ascending by position --
    wherever the matches lie with respect to the chunk boundaries. *)
Theorem parallel_equals_sequential :
  forall (cpu_count : Z) (self : Patterns.PatternMatcher) (pat : Patterns.Pattern)
         (stream : list Z) (max_positions start_from : Z),
    Spec.wf_pattern pat ->
    1 <= max_positions ->
    (forall t, Patterns.threads self = Some t -> 0 <= t) ->
    let found_first :=
      firstn (Z.to_nat max_positions)
             (Spec.all_hits self pat stream
                (range start_from (len stream - Patterns.length pat + 1))) in
    Patterns._find_pattern_parallel cpu_count self pat stream max_positions start_from
      = Ok found_first /\
    Patterns._find_pattern_sequential self pat stream max_positions start_from
      = Ok found_first /\
    Spec.ascending found_first /\
    len found_first <= max_positions.
Proof.
  intros cpu_count self pat stream k start_from Hwf Hk Hthreads found_first.
  set (stream_length := len stream - Patterns.length pat + 1) in *.
  set (all := Spec.all_hits self pat stream (range start_from stream_length)) in *.
  assert (Hsorted : StronglySorted (fun x y => fst x < fst y) all).
  { apply hits_sorted, range_sorted. }
  split; [|split; [|split]].
  - unfold Patterns._find_pattern_parallel. fold stream_length.
    set (threads := match Patterns.threads self with
                    | Some 0 => Z.max 1 (cpu_count - 1)
                    | Some t => t
                    | None => Z.max 1 (cpu_count - 1)
                    end).
    assert (Ht : 1 <= threads).
    { unfold threads. destruct (Patterns.threads self) as [[|t|t]|] eqn:E; try lia.
      specialize (Hthreads _ eq_refl). lia. }
    destruct (Z.ltb_spec threads 1) as [|_]; [lia|].
    set (chunk_size := Z.max 1000 (stream_length / threads)).
    set (chunks := map _ (range_step start_from stream_length chunk_size)).
    destruct (gather_spec self pat stream k Hwf Hk chunks [])
      as (m & results & Hrun & Hpre & Hend).
    rewrite Hrun. cbn [bind app] in *.
    rewrite all_hits_flat_map in Hpre, Hend.
    unfold chunks in Hpre, Hend.
    rewrite parallel_chunks_tile in Hpre, Hend by (unfold chunk_size; lia).
    fold all in Hpre, Hend.
    rewrite sort_sorted by (rewrite Hpre; now apply firstn_sorted).
    unfold slice_to. destruct (Z.leb_spec 0 k) as [_|]; [|lia].
    f_equal. unfold found_first. destruct Hend as [Hfull| ->]; [|reflexivity].
    rewrite Hpre. rewrite firstn_firstn.
    rewrite Hpre in Hfull. unfold len in Hfull. rewrite length_firstn in Hfull.
    now rewrite Nat.min_l by lia.
  - apply sequential_spec; assumption.
  - apply sorted_ascending. now apply firstn_sorted.
  - unfold len. pose proof (firstn_le_length (Z.to_nat k) all). unfold found_first. lia.
Qed.

Lemma parallel_equals_sequential_witness :
  Patterns._find_pattern_parallel 4 Inputs.matcher_3 (Patterns.MkPattern [0] None)
                                  Inputs.zeros 5000 0
  = Ok (firstn (Z.to_nat 5000)
          (Spec.all_hits Inputs.matcher_3 (Patterns.MkPattern [0] None) Inputs.zeros
             (range 0 (len Inputs.zeros - 1 + 1)))) /\
  Patterns._find_pattern_sequential Inputs.matcher_3 (Patterns.MkPattern [0] None)
                                    Inputs.zeros 5000 0
  = Ok (firstn (Z.to_nat 5000)
          (Spec.all_hits Inputs.matcher_3 (Patterns.MkPattern [0] None) Inputs.zeros
             (range 0 (len Inputs.zeros - 1 + 1)))).
Proof.
  destruct (parallel_equals_sequential 4 Inputs.matcher_3 (Patterns.MkPattern [0] None)
              Inputs.zeros 5000 0) as (Hpar & Hseq & _).
  - exact I.
  - lia.
  - intros t Ht. discriminate Ht.
  - split; [exact Hpar | exact Hseq].
Defined.

(** C2 (evaluation at the failing input).  With [max_positions = 0] on a
    stream of 10001 zeros and the pattern [0], which occurs 10001 times
    and in every chunk, the sequential variant returns the match at
    position 0, one more than the quota, and the parallel variant returns
    nothing: the two results differ. *)
Lemma parallel_differs_for_zero_quota :
  Patterns._find_pattern_sequential Inputs.matcher_3 (Patterns.MkPattern [0] None)
                                    Inputs.zeros 0 0 = Ok [(0, [0; 0; 0])] /\
  Patterns._find_pattern_parallel 4 Inputs.matcher_3 (Patterns.MkPattern [0] None)
                                  Inputs.zeros 0 0 = Ok [] /\
  Patterns._find_pattern_parallel 4 Inputs.matcher_3 (Patterns.MkPattern [0] None)
                                  Inputs.zeros 0 0
  <> Patterns._find_pattern_sequential Inputs.matcher_3 (Patterns.MkPattern [0] None)
                                       Inputs.zeros 0 0.
Proof.
  split; [vm_compute; reflexivity|].
  split; [vm_compute; reflexivity|].
  vm_compute. discriminate.
Qed.

(** ** Binding and verifying keys *)

Lemma insert_length (x : Patterns.found) (l : list Patterns.found) :
  List.length (Patterns.insert_by_position x l) = S (List.length l).
Proof.
  induction l as [|y l IH]; [reflexivity|]. simpl.
  destruct (fst x <=? fst y); simpl; [reflexivity | now rewrite IH].
Qed.

Lemma sort_length (l : list Patterns.found) :
  List.length (Patterns.sort_by_position l) = List.length l.
Proof.
  induction l as [|x l IH]; [reflexivity|].
  cbn [Patterns.sort_by_position fold_right].
  change (fold_right Patterns.insert_by_position [] l) with (Patterns.sort_by_position l).
  now rewrite insert_length, IH.
Qed.

(** With a quota of at least one the search loop never returns more
    results than the quota. *)
Lemma search_loop_bound (self : Patterns.PatternMatcher) (pat : Patterns.Pattern)
      (stream : list Z) (k : Z) (positions : list Z) :
  forall acc results,
    len acc < k ->
    Patterns.search_loop self pat stream k positions acc = Ok results ->
    len results <= k.
Proof.
  induction positions as [|pos rest IH]; intros acc results Hacc H.
  - simpl in H. injection H as <-. lia.
  - cbn [Patterns.search_loop] in H. inv_bind H. destruct a as [[|] e].
    + rewrite len_app in H. change (len [(pos, Patterns._extract_follow_digits self stream e)])
        with 1 in H.
      destruct (Z.geb_spec (len acc + 1) k) as [Hfull|Hroom].
      * injection H as <-. rewrite len_app.
        change (len [(pos, Patterns._extract_follow_digits self stream e)]) with 1. lia.
      * eapply IH; [|exact H]. rewrite len_app.
        change (len [(pos, Patterns._extract_follow_digits self stream e)]) with 1. lia.
    + eapply IH; eassumption.
Qed.

Lemma slice_to_length {A : Type} (k : Z) (l : list A) : 0 <= k -> len (slice_to k l) <= k.
Proof.
  intro Hk. unfold slice_to. destruct (Z.leb_spec 0 k); [|lia].
  unfold len. pose proof (firstn_le_length (Z.to_nat k) l). lia.
Qed.

Lemma slice_to_all {A : Type} (k : Z) (l : list A) : len l <= k -> slice_to k l = l.
Proof.
  intro H. pose proof (len_nonneg l). unfold slice_to.
  destruct (Z.leb_spec 0 k); [|lia]. apply firstn_all2. unfold len in H. lia.
Qed.

Lemma find_pattern_bound (cpu_count : Z) (self : Patterns.PatternMatcher)
      (pat : Patterns.Pattern) (stream : list Z) (k start_from : Z)
      (results : list Patterns.found) :
  1 <= k ->
  Patterns.find_pattern cpu_count self pat stream k start_from = Ok results ->
  len results <= k.
Proof.
  intros Hk H. unfold Patterns.find_pattern in H. inv_bind H. injection H as <-.
  unfold len. rewrite sort_length. fold (len a).
  destruct ((len stream >? 10000) && _).
  - unfold Patterns._find_pattern_parallel in Ha.
    destruct (_ <? 1); [discriminate|]. inv_bind Ha. injection Ha as <-.
    apply slice_to_length. lia.
  - unfold Patterns._find_pattern_sequential in Ha.
    eapply search_loop_bound; [|exact Ha]. change (len (@nil Patterns.found)) with 0. lia.
Qed.

(** X26.  For a quota [max_positions >= 1]: whenever [get_public_key]
    returns a public key, [verify_key_pair] on the same private key and
    that public key returns [True]. *)
Theorem bind_then_verify :
  forall (rng_fuel : nat) (env : Streams.Env) (w : Keys.World)
         (private_key : Keys.PrivateKey) (max_positions : Z)
         (public_key : Keys.PublicKey) (private_key' : Keys.PrivateKey) (w' : Keys.World),
    1 <= max_positions ->
    Keys.get_public_key rng_fuel env w private_key max_positions
      = Ok (public_key, private_key', w') ->
    Keys.verify_key_pair rng_fuel env w' private_key' public_key
      = Ok (true, private_key', w').
Proof.
  intros rng_fuel env w sk k pk sk' w' Hk H.
  unfold Keys.get_public_key, Keys.get_follow_sequences in H.
  inv_bind H. destruct a as [[seqs sk1] w1]. injection H as <- <- <-.
  inv_bind Ha. destruct a as [[matches sk2] w2]. injection Ha as <- <- <-.
  unfold Keys.verify_key_pair, Keys.get_follow_sequences. cbn [Keys.max_positions].
  unfold Keys.find_pattern_matches in *.
  destruct (Keys._matches sk) as [cached|] eqn:Hcache.
  - injection Ha0 as <- <- <-. rewrite Hcache. cbn [bind Keys.verification_token].
    now rewrite String.eqb_refl.
  - inv_bind Ha0. destruct a as [stream w3]. inv_bind Ha0. injection Ha0 as <- <- <-.
    cbn [Keys._matches bind Keys.verification_token].
    rewrite slice_to_all by (eapply find_pattern_bound; eassumption).
    now rewrite String.eqb_refl.
Qed.

Lemma bind_then_verify_witness :
  exists (public_key : Keys.PublicKey) (private_key' : Keys.PrivateKey) (w' : Keys.World),
    Keys.get_public_key 64 Inputs.env None Inputs.key_52 1
      = Ok (public_key, private_key', w') /\
    Keys._matches private_key'
      = Some [(28, [1; 1; 6; 4; 2; 7; 1; 8; 4; 4; 3; 0; 6; 3; 8; 2; 9; 6; 4; 0; 5; 4; 3; 9; 4])] /\
    Keys.verify_key_pair 64 Inputs.env w' private_key' public_key
      = Ok (true, private_key', w').
Proof.
  eexists. eexists. eexists.
  split; [vm_compute; reflexivity|].
  split; [reflexivity|].
  apply (bind_then_verify 64 Inputs.env None Inputs.key_52 1); [lia|].
  vm_compute. reflexivity.
Defined.

(** C4 (evaluation at the failing input).  With [max_positions = 0] the
    key whose pattern [5; 2] occurs at position 28 of its stream is bound
    to the token of that one match, and the verification of the same key
    against that public key, which cuts the cached match away, answers
    [False]. *)
Lemma bind_then_verify_fails_for_zero_quota :
  exists (public_key : Keys.PublicKey) (private_key' : Keys.PrivateKey) (w' : Keys.World),
    Keys.get_public_key 64 Inputs.env None Inputs.key_52 0
      = Ok (public_key, private_key', w') /\
    Keys.verify_key_pair 64 Inputs.env w' private_key' public_key
      = Ok (false, private_key', w').
Proof.
  eexists. eexists. eexists.
  split; [vm_compute; reflexivity|].
  vm_compute. reflexivity.
Qed.

(** Synthesizing the same stream again, in the world the first synthesis
    left, gives the same stream and leaves the same world. *)
Lemma get_synthetic_stream_again :
  forall rng_fuel env w pi_seed e_seed length n m t stream w',
    Streams.get_synthetic_stream rng_fuel env w pi_seed e_seed length n m t
      = Ok (stream, w') ->
    Streams.get_synthetic_stream rng_fuel env w' pi_seed e_seed length n m t
      = Ok (stream, w').
Proof.
  intros rng_fuel env w pi_seed e_seed length n m t stream w' H.
  unfold Streams.get_synthetic_stream in *.
  inv_bind H. inv_bind H. destruct a0 as [s g2]. injection H as <- <-.
  unfold Streams.from_seeds in *. inv_bind Ha. inv_bind Ha. injection Ha as <-.
  rewrite Ha1, Ha2. cbn [bind].
  assert (Hsame : Streams.set_parameters (Streams.get_stream_generator (Some g2)) a0 a1
                  = Streams.set_parameters (Streams.get_stream_generator w) a0 a1).
  { unfold Streams.generate in Ha0.
    cbn [Streams.pi_offsets Streams.e_offsets Streams._cache Streams.modulus
         Streams.threads Streams.set_parameters Streams.cache_get] in Ha0.
    unfold Streams.set_parameters. cbn [Streams.get_stream_generator].
    destruct a0 as [|p0 ps0]; destruct a1 as [|e0 es0]; try discriminate;
      inv_bind Ha0; injection Ha0 as _ <-;
      destruct (len (@nil (Z * list Z)) <? 10); reflexivity. }
  rewrite Hsame, Ha0. reflexivity.
Qed.

(** The round trip of the key files: a private key that has not searched
    yet (as one loaded from its file) is bound, and a second copy of it,
    which has not searched either, verifies -- for every quota. *)
Lemma bind_then_verify_reloaded :
  forall rng_fuel env w sk k pk sk' w',
    Keys._matches sk = None ->
    Keys.get_public_key rng_fuel env w sk k = Ok (pk, sk', w') ->
    Keys.verify_key_pair rng_fuel env w' sk pk = Ok (true, sk', w').
Proof.
  intros rng_fuel env w sk k pk sk' w' Hfresh H.
  unfold Keys.get_public_key, Keys.get_follow_sequences in H.
  inv_bind H. destruct a as [[seqs sk1] w1]. injection H as <- <- <-.
  inv_bind Ha. destruct a as [[matches sk2] w2]. injection Ha as <- <- <-.
  unfold Keys.verify_key_pair, Keys.get_follow_sequences. cbn [Keys.max_positions].
  unfold Keys.find_pattern_matches in *. rewrite Hfresh in *.
  inv_bind Ha0. destruct a as [stream w3]. inv_bind Ha0. injection Ha0 as <- <- <-.
  unfold Keys.generate_stream in *.
  rewrite (get_synthetic_stream_again _ _ _ _ _ _ _ _ _ _ _ Ha). cbn [bind].
  rewrite Ha1. cbn [bind Keys.verification_token].
  now rewrite String.eqb_refl.
Qed.

(** The token of a key whose search found nothing is the digest of the
    empty string. *)
Lemma token_without_matches :
  forall rng_fuel env w sk k pk sk' w',
    Keys.get_public_key rng_fuel env w sk k = Ok (pk, sk', w') ->
    Keys._matches sk' = Some [] ->
    Keys.verification_token pk = Patterns.hash_follow_sequences [].
Proof.
  intros rng_fuel env w sk k pk sk' w' H Hnone.
  unfold Keys.get_public_key, Keys.get_follow_sequences in H.
  inv_bind H. destruct a as [[seqs sk1] w1]. injection H as <- <- <-.
  inv_bind Ha. destruct a as [[matches sk2] w2]. injection Ha as <- <- <-.
  cbn [Keys.verification_token].
  unfold Keys.find_pattern_matches in Ha0.
  destruct (Keys._matches sk) as [cached|] eqn:Hcache.
  - injection Ha0 as <- <- <-. rewrite Hcache in Hnone. injection Hnone as ->.
    unfold slice_to. destruct (0 <=? k); now rewrite firstn_nil.
  - inv_bind Ha0. destruct a as [stream w3]. inv_bind Ha0. injection Ha0 as <- <- <-.
    cbn [Keys._matches] in Hnone. injection Hnone as ->. reflexivity.
Qed.

Lemma verify_without_matches :
  forall rng_fuel env w sk pk,
    Keys._matches sk = Some [] ->
    Keys.verification_token pk = Patterns.hash_follow_sequences [] ->
    Keys.verify_key_pair rng_fuel env w sk pk = Ok (true, sk, w).
Proof.
  intros rng_fuel env w sk pk Hnone Htoken.
  unfold Keys.verify_key_pair, Keys.get_follow_sequences, Keys.find_pattern_matches.
  rewrite Hnone. cbn [bind].
  replace (slice_to (Keys.max_positions pk) (@nil Patterns.found)) with (@nil Patterns.found)
    by (unfold slice_to; destruct (0 <=? _); now rewrite firstn_nil).
  cbn [map]. rewrite Htoken. now rewrite String.eqb_refl.
Qed.

(** C10.  The token of no follow sequence is the digest of the empty
    string, whatever the key.  Hence two private keys whose searches find
    nothing are bound to the same token, and each verifies against the
    public key of the other. *)
Theorem keys_without_matches_collide :
  forall (rng_fuel : nat) (env : Streams.Env) (w1 w2 : Keys.World)
         (sk1 sk2 : Keys.PrivateKey) (k1 k2 : Z)
         (pk1 pk2 : Keys.PublicKey) (sk1' sk2' : Keys.PrivateKey) (w1' w2' : Keys.World),
    Keys.get_public_key rng_fuel env w1 sk1 k1 = Ok (pk1, sk1', w1') ->
    Keys._matches sk1' = Some [] ->
    Keys.get_public_key rng_fuel env w2 sk2 k2 = Ok (pk2, sk2', w2') ->
    Keys._matches sk2' = Some [] ->
    Patterns.hash_follow_sequences [] = Sha256.hexdigest (encode "") /\
    Keys.verification_token pk1
      = "e3b0c44298fc1c149afbf4c8996fb92427ae41e4649b934ca495991b7852b855"%string /\
    Keys.verification_token pk2 = Keys.verification_token pk1 /\
    (forall w, Keys.verify_key_pair rng_fuel env w sk1' pk2 = Ok (true, sk1', w)) /\
    (forall w, Keys.verify_key_pair rng_fuel env w sk2' pk1 = Ok (true, sk2', w)).
Proof.
  intros rng_fuel env w1 w2 sk1 sk2 k1 k2 pk1 pk2 sk1' sk2' w1' w2' H1 Hn1 H2 Hn2.
  pose proof (token_without_matches _ _ _ _ _ _ _ _ H1 Hn1) as T1.
  pose proof (token_without_matches _ _ _ _ _ _ _ _ H2 Hn2) as T2.
  split; [reflexivity|].
  split; [rewrite T1; vm_compute; reflexivity|].
  split; [congruence|].
  split; intro w; apply verify_without_matches; assumption.
Qed.

(** ** Streams stay below the modulus; patterns that cannot occur *)

Lemma add_mod_range (m r d : Z) : 0 < m -> 0 <= Streams.add_mod m r d < m.
Proof.
  intro Hm. unfold Streams.add_mod.
  destruct (Z.eqb_spec m 0); [lia|].
  destruct (Streams.result_width m); apply Z.mod_pos_bound; exact Hm.
Qed.

Lemma accumulate_range (get : Z -> Z -> result (list Z)) (start cl m : Z)
      (offsets : list Z) :
  0 < m ->
  forall acc r,
    Forall (fun x => 0 <= x < m) acc ->
    Streams.accumulate get start cl m offsets acc = Ok r ->
    Forall (fun x => 0 <= x < m) r.
Proof.
  intro Hm. induction offsets as [|o rest IH]; intros acc r Hacc H; simpl in H.
  - now injection H as <-.
  - inv_bind H. eapply IH; [|exact H].
    apply Forall_forall. intros x Hx. apply in_map_iff in Hx.
    destruct Hx as ([r0 d0] & <- & _). now apply add_mod_range.
Qed.

Lemma chunk_range (env : Streams.Env) (start end_ : Z) (ps es : list Z) (m : Z)
      (r : list Z) :
  0 < m ->
  Streams._generate_stream_chunk env start end_ ps es m = Ok r ->
  Forall (fun x => 0 <= x < m) r.
Proof.
  intros Hm H. unfold Streams._generate_stream_chunk in H.
  destruct (end_ - start <? 0); [discriminate|]. inv_bind H.
  eapply accumulate_range; [exact Hm | | exact H].
  eapply accumulate_range; [exact Hm | | exact Ha].
  apply Forall_forall. intros x Hx. apply repeat_spec in Hx. lia.
Qed.

Lemma collect_all (f : Z -> Z -> result (list Z)) (P : list Z -> Prop)
      (chunks : list (Z * Z)) :
  (forall s e r, f s e = Ok r -> P r) ->
  forall rs, Streams.collect f chunks = Ok rs -> Forall P rs.
Proof.
  intro Hf. induction chunks as [|[s e] rest IH]; intros rs H; simpl in H.
  - injection H as <-. constructor.
  - inv_bind H. inv_bind H. injection H as <-. constructor; eauto.
Qed.

(** Every cell of a synthesized stream is in [0, modulus). *)
Lemma synthetic_stream_range (env : Streams.Env) (ps es : list Z) (length m : Z)
      (threads : option Z) (stream : list Z) :
  0 < m ->
  Streams.generate_synthetic_stream env ps es length m threads = Ok stream ->
  Forall (fun x => 0 <= x < m) stream.
Proof.
  intros Hm H. unfold Streams.generate_synthetic_stream in H.
  destruct (_ =? 0); [discriminate|]. destruct (_ <? 1); [discriminate|].
  inv_bind H. unfold Streams.concatenate in H.
  apply (collect_all _ (Forall (fun x => 0 <= x < m))) in Ha;
    [|intros s e r Hr; eapply chunk_range; eassumption].
  destruct a as [|r0 rs]; [discriminate|]. injection H as <-.
  change (r0 ++ List.concat rs) with (List.concat (r0 :: rs)).
  apply Forall_concat. exact Ha.
Qed.

Lemma get_synthetic_stream_range (rng_fuel : nat) (env : Streams.Env)
      (w : option Streams.StreamGenerator) (ps es length n m : Z) (t : option Z)
      (stream : list Z) (w' : option Streams.StreamGenerator) :
  0 < Streams.modulus (Streams.get_stream_generator w) ->
  Streams.get_synthetic_stream rng_fuel env w ps es length n m t = Ok (stream, w') ->
  Forall (fun x => 0 <= x < Streams.modulus (Streams.get_stream_generator w)) stream.
Proof.
  intros Hm H. unfold Streams.get_synthetic_stream in H.
  inv_bind H. inv_bind H. destruct a0 as [s g]. injection H as <- _.
  unfold Streams.from_seeds in Ha. inv_bind Ha. inv_bind Ha. injection Ha as <-.
  unfold Streams.generate, Streams.set_parameters in Ha0.
  cbn [Streams.pi_offsets Streams.e_offsets Streams._cache Streams.modulus
       Streams.threads Streams.cache_get] in Ha0.
  destruct a0 as [|p0 ps0]; destruct a1 as [|e0 es0]; try discriminate;
    inv_bind Ha0; injection Ha0 as <- _;
    eapply synthetic_stream_range; eassumption.
Qed.

(** A pattern whose first digit is no value of the stream matches
    nowhere. *)
Lemma match_first_digit_absent (pat : Patterns.Pattern) (stream : list Z) (pos : Z)
      (d : Z) (ds : list Z) :
  Patterns.digits pat = d :: ds -> ~ In d stream ->
  Patterns.match_at_position pat stream pos = Ok (false, -1).
Proof.
  intros Hd Hnot. unfold Patterns.match_at_position.
  destruct (Z.ltb_spec pos 0) as [|Hpos]; [reflexivity|]. cbn [orb].
  destruct (Z.geb_spec pos (len stream)) as [|Hin]; [reflexivity|].
  assert (Hv : nth (Z.to_nat pos) stream 0 <> d).
  { intro E. apply Hnot. rewrite <- E. apply nth_In. unfold len in Hin. lia. }
  apply Z.eqb_neq in Hv.
  destruct (Patterns.is_contiguous pat) eqn:Hc.
  - destruct (_ >? _); [reflexivity|]. rewrite Hd. cbn [Patterns.match_contiguous].
    rewrite Z.add_0_r, np_getitem_inside by lia. cbn [bind]. now rewrite Hv.
  - unfold Patterns.is_contiguous in Hc.
    destruct (Patterns.spacing pat) as [sp|]; [|discriminate].
    rewrite Hd. cbn [Patterns.match_spaced].
    destruct (Z.geb_spec pos (len stream)); [reflexivity|].
    rewrite np_getitem_inside by lia. cbn [bind]. now rewrite Hv.
Qed.

Section NoMatch.

Variable self : Patterns.PatternMatcher.
Variable pat : Patterns.Pattern.
Variable stream : list Z.
Variable k : Z.
Hypothesis nowhere : forall pos, Patterns.match_at_position pat stream pos = Ok (false, -1).

Lemma search_loop_no_match (positions : list Z) :
  forall acc, Patterns.search_loop self pat stream k positions acc = Ok acc.
Proof.
  induction positions as [|pos rest IH]; intro acc; [reflexivity|].
  cbn [Patterns.search_loop]. rewrite nowhere. cbn [bind]. apply IH.
Qed.

Lemma gather_no_match (chunks : list (Z * Z)) :
  Patterns.gather (fun start end_ =>
                     Patterns._search_chunk self pat stream start end_ k)
                  k chunks [] = Ok [].
Proof.
  induction chunks as [|[s e] rest IH]; [reflexivity|].
  cbn [Patterns.gather]. unfold Patterns._search_chunk at 1.
  rewrite search_loop_no_match. cbn [bind app].
  destruct (_ >=? _); [reflexivity | exact IH].
Qed.

Lemma find_pattern_no_match (cpu_count start_from : Z) :
  Patterns.threads self = None ->
  Patterns.find_pattern cpu_count self pat stream k start_from = Ok [].
Proof.
  intro Ht. unfold Patterns.find_pattern. destruct (_ && _).
  - unfold Patterns._find_pattern_parallel. rewrite Ht.
    destruct (Z.ltb_spec (Z.max 1 (cpu_count - 1)) 1); [lia|].
    rewrite gather_no_match. cbn [bind Patterns.sort_by_position fold_right].
    unfold slice_to. destruct (0 <=? k); now rewrite firstn_nil.
  - unfold Patterns._find_pattern_sequential. now rewrite search_loop_no_match.
Qed.

End NoMatch.

(** A fresh key whose first pattern digit is no value of its stream is
    bound to the token of no follow sequence, and caches the empty list
    of matches. *)
Lemma bind_absent_pattern :
  forall rng_fuel env w sk k stream w' d ds,
    Keys._matches sk = None ->
    Keys.generate_stream rng_fuel env w sk 10000 = Ok (stream, w') ->
    Patterns.digits (Keys.pattern sk) = d :: ds -> ~ In d stream ->
    Keys.get_public_key rng_fuel env w sk k
    = Ok (Keys.MkPublicKey (Patterns.hash_follow_sequences []) k (Keys.follow_digits sk),
          Keys.MkPrivateKey (Keys.pi_seed sk) (Keys.e_seed sk) (Keys.pattern sk)
                            (Keys.num_offsets sk) (Keys.modulus sk)
                            (Keys.follow_digits sk) (Some []),
          w').
Proof.
  intros rng_fuel env w sk k stream w' d ds Hcache Hstream Hd Hnot.
  unfold Keys.get_public_key, Keys.get_follow_sequences, Keys.find_pattern_matches.
  rewrite Hcache, Hstream. cbn [bind].
  rewrite find_pattern_no_match; [reflexivity | | reflexivity].
  intro pos. eapply match_first_digit_absent; eassumption.
Qed.

(** The streams of the two keys of the witness are synthesized without an
    exception. *)
Lemma key_absent_1_stream :
  exists stream w',
    Keys.generate_stream 64 Inputs.env None Inputs.key_absent_1 10000 = Ok (stream, w').
Proof. eexists. eexists. vm_compute. reflexivity. Qed.

Lemma key_absent_2_stream :
  exists stream w',
    Keys.generate_stream 64 Inputs.env None Inputs.key_absent_2 10000 = Ok (stream, w').
Proof. eexists. eexists. vm_compute. reflexivity. Qed.

(** In a process whose stream generator is still to be created the
    stream of a key is reduced modulo 10, and holds no digit of 10 or
    more. *)
Lemma digit_above_modulus_absent :
  forall rng_fuel env sk length stream w' d,
    Keys.generate_stream rng_fuel env None sk length = Ok (stream, w') ->
    10 <= d -> ~ In d stream.
Proof.
  intros rng_fuel env sk length stream w' d Hs Hd Hin.
  unfold Keys.generate_stream in Hs.
  apply get_synthetic_stream_range in Hs; [|reflexivity].
  rewrite Forall_forall in Hs. specialize (Hs d Hin). cbn in Hs. lia.
Qed.

Lemma keys_without_matches_collide_witness :
  exists (pk1 pk2 : Keys.PublicKey) (sk1' sk2' : Keys.PrivateKey) (w1' w2' : Keys.World),
    Keys.get_public_key 64 Inputs.env None Inputs.key_absent_1 5 = Ok (pk1, sk1', w1') /\
    Keys.get_public_key 64 Inputs.env None Inputs.key_absent_2 3 = Ok (pk2, sk2', w2') /\
    Keys._matches sk1' = Some [] /\ Keys._matches sk2' = Some [] /\
    Keys.verification_token pk2 = Keys.verification_token pk1 /\
    Keys.verify_key_pair 64 Inputs.env w2' sk1' pk2 = Ok (true, sk1', w2') /\
    Keys.verify_key_pair 64 Inputs.env w1' sk2' pk1 = Ok (true, sk2', w1').
Proof.
  destruct key_absent_1_stream as (s1 & w1' & Hs1).
  destruct key_absent_2_stream as (s2 & w2' & Hs2).
  pose proof (bind_absent_pattern 64 Inputs.env None Inputs.key_absent_1 5 s1 w1' 11 []
                eq_refl Hs1 eq_refl
                (digit_above_modulus_absent _ _ _ _ _ _ 11 Hs1 ltac:(lia))) as H1.
  pose proof (bind_absent_pattern 64 Inputs.env None Inputs.key_absent_2 3 s2 w2' 12 [3]
                eq_refl Hs2 eq_refl
                (digit_above_modulus_absent _ _ _ _ _ _ 12 Hs2 ltac:(lia))) as H2.
  destruct (keys_without_matches_collide 64 Inputs.env None None
              Inputs.key_absent_1 Inputs.key_absent_2 5 3 _ _ _ _ _ _
              H1 eq_refl H2 eq_refl)
    as (_ & _ & Htok & Hv1 & Hv2).
  do 6 eexists.
  split; [exact H1|]. split; [exact H2|].
  split; [reflexivity|]. split; [reflexivity|].
  split; [exact Htok|]. split; [apply Hv1 | apply Hv2].
Defined.

(** ** Digit continuity on a terminated file *)

Lemma bind_ret {A : Type} (m : result A) : bind m (fun a => Ok a) = m.
Proof. now destruct m. Qed.

Lemma skip_to_point_nonneg (m : list Z) : 0 <= Digits.skip_to_point m.
Proof.
  induction m as [|c m IH]; cbn [Digits.skip_to_point]; [lia|].
  destruct (c =? 46); lia.
Qed.

Lemma first_digit_some (l : list Z) :
  forall base j,
    Spec.first_digit l base = Some j ->
    base <= j < base + len l /\
    Digits.isdigit (nth (Z.to_nat (j - base)) l 0) = true.
Proof.
  induction l as [|c l IH]; intros base j H; simpl in H; [discriminate|].
  rewrite len_cons. pose proof (len_nonneg l).
  destruct (Digits.isdigit c) eqn:Hc.
  - injection H as <-. rewrite Z.sub_diag. simpl. split; [lia | exact Hc].
  - apply IH in H. destruct H as [Hj Hd]. split; [lia|].
    replace (Z.to_nat (j - base)) with (S (Z.to_nat (j - (base + 1)))) by lia.
    exact Hd.
Qed.

Lemma first_digit_none (l : list Z) :
  forall base,
    Spec.first_digit l base = None ->
    forall i, (i < List.length l)%nat -> Digits.isdigit (nth i l 0) = false.
Proof.
  induction l as [|c l IH]; intros base H i Hi; simpl in *; [lia|].
  destruct (Digits.isdigit c) eqn:Hc; [discriminate|].
  destruct i as [|i]; [exact Hc|]. apply (IH _ H). lia.
Qed.

Lemma skipn_cons_nth (m : list Z) (q : nat) (c : Z) (rest : list Z) :
  skipn q m = c :: rest ->
  (q < List.length m)%nat /\ nth q m 0 = c /\ skipn (S q) m = rest.
Proof.
  revert m. induction q as [|q IH]; intros m H.
  - destruct m; [discriminate|]. simpl in H. injection H as <- <-.
    simpl. repeat split; lia.
  - destruct m as [|x m]; [discriminate|]. simpl in H.
    destruct (IH m H) as (Hlt & Hn & Hs). simpl. repeat split; [lia | exact Hn | exact Hs].
Qed.

Section Cycle.

Variable m : list Z.

Let n := len m.

Lemma read_loop_wrap (fuel : nat) (q : Z) (r : nat) :
  Digits.read_loop fuel m q r = Digits.read_loop fuel m (Spec.wrap m q) r.
Proof.
  unfold Spec.wrap. destruct r as [|r]; destruct fuel as [|fuel]; try reflexivity.
  cbn [Digits.read_loop].
  destruct (Z.geb_spec q (len m)) as [Hq|Hq].
  - destruct (Z.geb_spec 0 (len m)); reflexivity.
  - destruct (Z.geb_spec q (len m)); [lia | reflexivity].
Qed.

Lemma mmap_getitem_inside (q : Z) :
  0 <= q < len m -> Digits.mmap_getitem m q = Ok (nth (Z.to_nat q) m 0).
Proof.
  intros [H0 H1]. unfold Digits.mmap_getitem.
  destruct (Z.leb_spec 0 q); [|lia]. destruct (Z.ltb_spec q (len m)); [|lia]. reflexivity.
Qed.

(** The read loop from [q] passes the non-digits of the rest of the file:
    it reads the first digit it meets, or arrives at the end. *)
Lemma read_scan (suffix : list Z) :
  forall q : Z,
    0 <= q <= n -> skipn (Z.to_nat q) m = suffix ->
    match Spec.first_digit suffix q with
    | Some j =>
        forall F r,
          Digits.read_loop (Z.to_nat (j - q) + S F) m q (S r)
          = (d <- Digits.int_of_char (nth (Z.to_nat j) m 0) ;;
             ds <- Digits.read_loop F m (j + 1) r ;; Ok (d :: ds))
    | None =>
        forall F r,
          Digits.read_loop (List.length suffix + F) m q (S r)
          = Digits.read_loop F m n (S r)
    end.
Proof.
  induction suffix as [|c rest IH]; intros q Hq Hs.
  - simpl. intros F r. f_equal.
    assert (List.length (skipn (Z.to_nat q) m) = O) by now rewrite Hs.
    rewrite length_skipn in H. unfold n, len in *. lia.
  - apply skipn_cons_nth in Hs. destruct Hs as (Hlt & Hc & Hrest).
    assert (Hqn : q < n) by (unfold n, len; lia).
    replace (S (Z.to_nat q)) with (Z.to_nat (q + 1)) in Hrest by lia.
    specialize (IH (q + 1) ltac:(lia) Hrest).
    cbn [Spec.first_digit].
    assert (Hstep : forall f r,
               Digits.read_loop (S f) m q (S r)
               = if Digits.isdigit c
                 then (d <- Digits.int_of_char c ;;
                       ds <- Digits.read_loop f m (q + 1) r ;; Ok (d :: ds))
                 else Digits.read_loop f m (q + 1) (S r)).
    { intros f r. cbn [Digits.read_loop].
      destruct (Z.geb_spec q (len m)) as [Hge|_]; [unfold n in Hqn; lia|].
      rewrite mmap_getitem_inside by (unfold n in Hqn; lia). rewrite Hc. reflexivity. }
    destruct (Digits.isdigit c) eqn:Hd.
    + intros F r. rewrite Z.sub_diag. cbn [Z.to_nat Nat.add]. rewrite Hstep, Hc. reflexivity.
    + destruct (Spec.first_digit rest (q + 1)) as [j|] eqn:Hf.
      * apply first_digit_some in Hf. destruct Hf as [Hj _].
        intros F r.
        replace (Z.to_nat (j - q) + S F)%nat with (S (Z.to_nat (j - (q + 1)) + S F)) by lia.
        rewrite Hstep. apply IH.
      * intros F r. cbn [List.length Nat.add]. rewrite Hstep. apply IH.
Qed.

(** The skip loop from [q] passes the same bytes and stops after the
    first digit, or wraps to the start after a non-digit in last place. *)
Lemma skip_scan (suffix : list Z) :
  forall q : Z,
    0 <= q <= n -> skipn (Z.to_nat q) m = suffix ->
    match Spec.first_digit suffix q with
    | Some j => forall F, Digits.skip_one_loop (Z.to_nat (j - q) + S F) m q = Ok (j + 1)
    | None =>
        forall F, q < n ->
          Digits.skip_one_loop (List.length suffix + F) m q = Digits.skip_one_loop F m 0
    end.
Proof.
  induction suffix as [|c rest IH]; intros q Hq Hs.
  - simpl. intros F Hqn.
    assert (List.length (skipn (Z.to_nat q) m) = O) by now rewrite Hs.
    rewrite length_skipn in H. unfold n, len in *. lia.
  - pose proof Hs as Hs0.
    apply skipn_cons_nth in Hs. destruct Hs as (Hlt & Hc & Hrest).
    assert (Hqn : q < n) by (unfold n, len; lia).
    replace (S (Z.to_nat q)) with (Z.to_nat (q + 1)) in Hrest by lia.
    specialize (IH (q + 1) ltac:(lia) Hrest).
    cbn [Spec.first_digit].
    assert (Hstep : forall f,
               Digits.skip_one_loop (S f) m q
               = if Digits.isdigit c then Ok (q + 1)
                 else Digits.skip_one_loop f m (if q + 1 >=? len m then 0 else q + 1)).
    { intro f. cbn [Digits.skip_one_loop].
      destruct (Z.ltb_spec q (len m)) as [_|Hge]; [|unfold n in Hqn; lia].
      rewrite mmap_getitem_inside by (unfold n in Hqn; lia). rewrite Hc. reflexivity. }
    destruct (Digits.isdigit c) eqn:Hd.
    + intro F. rewrite Z.sub_diag. cbn [Z.to_nat Nat.add]. now rewrite Hstep.
    + destruct (Spec.first_digit rest (q + 1)) as [j|] eqn:Hf.
      * apply first_digit_some in Hf. destruct Hf as [Hj _].
        intro F.
        replace (Z.to_nat (j - q) + S F)%nat with (S (Z.to_nat (j - (q + 1)) + S F)) by lia.
        rewrite Hstep.
        assert (Hr : len rest = n - (q + 1)).
        { rewrite <- Hrest. unfold len, n, len. rewrite length_skipn. lia. }
        destruct (Z.geb_spec (q + 1) (len m)) as [Hge|_]; [fold n in Hge; lia|].
        apply IH.
      * intros F _. cbn [List.length Nat.add]. rewrite Hstep.
        destruct (Z.geb_spec (q + 1) (len m)) as [Hge|Hlt'].
        -- assert (Hr : rest = []).
           { assert (List.length rest = O).
             { rewrite <- Hrest, length_skipn. fold n in Hge. unfold n, len in *. lia. }
             now destruct rest. }
           rewrite Hr. reflexivity.
        -- apply IH. fold n in Hlt'. lia.
Qed.

Hypothesis file_terminated : Spec.terminated m.

Lemma n_pos : 0 < n.
Proof.
  destruct file_terminated as (Hp & _). pose proof (skip_to_point_nonneg m). unfold n. lia.
Qed.

(** On a terminated file the next digit of the cycle exists, is not the
    last byte, and comes before the cursor when no digit follows it. *)
Lemma next_index_spec (q : Z) :
  0 <= q < n ->
  exists j,
    Spec.next_index m q = Some j /\ 0 <= j /\ j + 1 < n /\
    (Spec.first_digit (skipn (Z.to_nat q) m) q = Some j /\ q <= j \/
     Spec.first_digit (skipn (Z.to_nat q) m) q = None /\
     Spec.first_digit m 0 = Some j /\ j < q).
Proof.
  intro Hq. destruct file_terminated as (_ & Hlast & Hdigit).
  assert (Hnot_last : forall j, 0 <= j < n ->
            Digits.isdigit (nth (Z.to_nat j) m 0) = true -> j + 1 < n).
  { intros j Hj Hd. destruct (Z.eq_dec j (n - 1)) as [->|]; [|lia].
    replace (Z.to_nat (n - 1)) with (List.length m - 1)%nat in Hd
      by (unfold n, len; lia).
    congruence. }
  unfold Spec.next_index.
  destruct (Spec.first_digit (skipn (Z.to_nat q) m) q) as [j|] eqn:Hf.
  - pose proof (first_digit_some _ _ _ Hf) as [Hj Hd].
    assert (Hlen : len (skipn (Z.to_nat q) m) = n - q).
    { unfold len at 1. rewrite length_skipn. unfold n, len in *. lia. }
    rewrite Hlen in Hj.
    rewrite nth_skipn in Hd.
    replace (Z.to_nat q + Z.to_nat (j - q))%nat with (Z.to_nat j) in Hd by lia.
    exists j. split; [reflexivity|]. split; [lia|]. split; [apply Hnot_last; [lia | exact Hd]|].
    left. split; [reflexivity | lia].
  - destruct (Spec.first_digit m 0) as [j|] eqn:H0; [|now elim Hdigit].
    pose proof (first_digit_some _ _ _ H0) as [Hj Hd].
    rewrite Z.sub_0_r in Hd. fold n in Hj.
    assert (Hjq : j < q).
    { destruct (Z.lt_ge_cases j q) as [|Hge]; [assumption|].
      pose proof (first_digit_none _ _ Hf (Z.to_nat (j - q))) as Hnone.
      rewrite length_skipn, nth_skipn in Hnone.
      replace (Z.to_nat q + Z.to_nat (j - q))%nat with (Z.to_nat j) in Hnone by lia.
      rewrite Hnone in Hd; [discriminate|]. unfold n, len in *. lia. }
    exists j. split; [reflexivity|]. split; [lia|]. split; [apply Hnot_last; [lia | exact Hd]|].
    right. repeat split; assumption.
Qed.

(** One turn of the skip loop moves the cursor just past the next digit
    of the cycle. *)
Lemma skip_one_cycle (q : Z) :
  0 <= q < n ->
  exists j,
    Spec.next_index m q = Some j /\ 0 <= j /\ j + 1 < n /\
    Digits.skip_one m q = Ok (j + 1).
Proof.
  intro Hq. destruct (next_index_spec q Hq) as (j & Hnext & Hj0 & Hjn & Hcase).
  exists j. repeat split; try assumption.
  unfold Digits.skip_one. fold (len m) in *.
  destruct Hcase as [(Hf & Hqj) | (Hf & H0 & Hjq)].
  - pose proof (skip_scan _ q ltac:(lia) eq_refl) as Hscan. rewrite Hf in Hscan.
    replace (2 * List.length m + 1)%nat
      with (Z.to_nat (j - q) + S (2 * List.length m - Z.to_nat (j - q)))%nat
      by (unfold n, len in *; lia).
    apply Hscan.
  - pose proof (skip_scan _ q ltac:(lia) eq_refl) as Hscan. rewrite Hf in Hscan.
    pose proof (skip_scan m 0 ltac:(pose proof n_pos; lia) eq_refl) as Hscan0.
    rewrite H0 in Hscan0.
    rewrite length_skipn in Hscan.
    replace (2 * List.length m + 1)%nat
      with ((List.length m - Z.to_nat q)
            + (Z.to_nat (j - 0) + S (List.length m + Z.to_nat q - Z.to_nat j)))%nat
      by (unfold n, len in *; lia).
    rewrite Hscan by lia. apply Hscan0.
Qed.

(** With the fuel of [extract_digits] the read loop reads the cycle. *)
Lemma read_loop_cycle (L : nat) :
  forall (q : Z) (F : nat),
    0 <= q <= n ->
    Digits.read_loop (L * List.length m + F) m q L = Spec.read_cycle m q L.
Proof.
  induction L as [|L IH]; intros q F Hq.
  - destruct (0 * List.length m + F)%nat; reflexivity.
  - rewrite read_loop_wrap. cbn [Spec.read_cycle].
    pose proof n_pos as Hn.
    assert (Hw : 0 <= Spec.wrap m q < n).
    { unfold Spec.wrap. fold n. destruct (Z.geb_spec q n); lia. }
    set (q0 := Spec.wrap m q) in *.
    destruct (next_index_spec q0 Hw) as (j & Hnext & Hj0 & Hjn & Hcase).
    rewrite Hnext.
    destruct Hcase as [(Hf & Hqj) | (Hf & H0 & Hjq)].
    + pose proof (read_scan _ q0 ltac:(lia) eq_refl) as Hscan. rewrite Hf in Hscan.
      replace (S L * List.length m + F)%nat
        with (Z.to_nat (j - q0)
              + S (L * List.length m + (List.length m - Z.to_nat (j - q0) - 1 + F)))%nat
        by (unfold n, len in *; lia).
      rewrite Hscan. rewrite IH by lia. reflexivity.
    + pose proof (read_scan _ q0 ltac:(lia) eq_refl) as Hscan. rewrite Hf in Hscan.
      pose proof (read_scan m 0 ltac:(lia) eq_refl) as Hscan0. rewrite H0 in Hscan0.
      rewrite length_skipn in Hscan.
      replace (S L * List.length m + F)%nat
        with ((List.length m - Z.to_nat q0)
              + (Z.to_nat (j - 0)
                 + S (L * List.length m + (Z.to_nat q0 - Z.to_nat j - 1 + F))))%nat
        by (unfold n, len in *; lia).
      rewrite Hscan. rewrite read_loop_wrap.
      replace (Spec.wrap m n) with 0
        by (unfold Spec.wrap; fold n; destruct (Z.geb_spec n n); lia).
      rewrite Hscan0. rewrite IH by lia. reflexivity.
Qed.

(** Skipping [L1] digits from [q] leads to the cursor from which the
    cycle continues after its first [L1] digits. *)
Lemma read_cycle_app (L1 : nat) :
  forall q : Z,
    0 <= q < n ->
    exists q',
      0 <= q' < n /\
      Digits.skip_digits m (Z.of_nat L1) q = Ok q' /\
      forall L2 : nat,
        Spec.read_cycle m q (L1 + L2)
        = (l1 <- Spec.read_cycle m q L1 ;;
           l2 <- Spec.read_cycle m q' L2 ;; Ok (l1 ++ l2)).
Proof.
  induction L1 as [|L1 IH]; intros q Hq.
  - exists q. split; [exact Hq|]. split; [reflexivity|].
    intro L2. cbn [Nat.add Spec.read_cycle bind app]. now rewrite bind_ret.
  - destruct (skip_one_cycle q Hq) as (j & Hnext & Hj0 & Hjn & Hskip).
    destruct (IH (j + 1) ltac:(lia)) as (q' & Hq' & Hiter & Happ).
    exists q'. split; [exact Hq'|]. split.
    + unfold Digits.skip_digits in *.
      replace (Z.to_N (Z.of_nat (S L1))) with (N.succ (Z.to_N (Z.of_nat L1))) by lia.
      rewrite N.iter_succ_r. cbn [bind]. rewrite Hskip. exact Hiter.
    + intro L2. cbn [Nat.add Spec.read_cycle].
      replace (Spec.wrap m q) with q
        by (unfold Spec.wrap; fold n; destruct (Z.geb_spec q n); lia).
      rewrite Hnext, Happ.
      destruct (Digits.int_of_char (nth (Z.to_nat j) m 0)) as [d|e]; [|reflexivity].
      cbn [bind].
      destruct (Spec.read_cycle m (j + 1) L1) as [l1|e]; [|reflexivity].
      cbn [bind].
      destruct (Spec.read_cycle m q' L2) as [l2|e]; reflexivity.
Qed.

(** Digit continuity: on a terminated file the digits at [s], [L1 + L2]
    of them, are the [L1] digits at [s] followed by the [L2] digits at
    [s + L1], wherever the reads wrap; a byte that [int] refuses raises
    the same exception on both sides. *)
Theorem digit_continuity_on_terminated_file :
  forall s L1 L2 : Z,
    0 <= s -> 0 < L1 -> 0 < L2 ->
    Digits.extract_digits m s (L1 + L2)
    = (l1 <- Digits.extract_digits m s L1 ;;
       l2 <- Digits.extract_digits m (s + L1) L2 ;; Ok (l1 ++ l2)).
Proof.
  intros s L1 L2 Hs H1 H2.
  destruct file_terminated as (Hpoint & _).
  pose proof (skip_to_point_nonneg m) as Hp0.
  set (p0 := Digits.skip_to_point m + 1) in *.
  destruct (read_cycle_app (Z.to_nat s) p0 ltac:(fold n in Hpoint; lia))
    as (q & Hq & Hskip & _).
  rewrite Z2Nat.id in Hskip by lia.
  destruct (read_cycle_app (Z.to_nat L1) q Hq) as (q' & Hq' & Hskip' & Happ).
  rewrite Z2Nat.id in Hskip' by lia.
  assert (Hskip2 : Digits.skip_digits m (s + L1) p0 = Ok q').
  { unfold Digits.skip_digits in *.
    replace (Z.to_N (s + L1)) with (Z.to_N L1 + Z.to_N s)%N by lia.
    rewrite N.iter_add, Hskip. exact Hskip'. }
  unfold Digits.extract_digits. fold p0. rewrite Hskip, Hskip2. cbn [bind].
  rewrite !read_loop_cycle by lia.
  replace (Z.to_nat (L1 + L2)) with (Z.to_nat L1 + Z.to_nat L2)%nat by lia.
  apply Happ.
Qed.

End Cycle.

(** The same for the two access functions of the store. *)
Corollary get_pi_digits_continuity :
  forall (store : Digits.DigitStore) (p e : list Z) (s L1 L2 : Z),
    Digits.open store = Ok (p, e) -> Spec.terminated p ->
    0 <= s -> 0 < L1 -> 0 < L2 ->
    Digits.get_pi_digits store s (L1 + L2)
    = (l1 <- Digits.get_pi_digits store s L1 ;;
       l2 <- Digits.get_pi_digits store (s + L1) L2 ;; Ok (l1 ++ l2)).
Proof.
  intros store p e s L1 L2 Hopen Hterm Hs H1 H2. unfold Digits.get_pi_digits.
  destruct (Z.ltb_spec s 0); [lia|]. destruct (Z.ltb_spec (s + L1) 0); [lia|].
  destruct (Z.leb_spec (L1 + L2) 0); [lia|]. destruct (Z.leb_spec L1 0); [lia|].
  destruct (Z.leb_spec L2 0); [lia|]. cbn [orb]. rewrite Hopen. cbn [bind].
  now apply digit_continuity_on_terminated_file.
Qed.

(** X24.  On a file of e whose last byte is not a digit, two reads one
    after the other concatenate to the long read, across the wrap. *)
Corollary get_e_digits_continuity :
  forall (store : Digits.DigitStore) (p e : list Z) (s L1 L2 : Z),
    Digits.open store = Ok (p, e) -> Spec.terminated e ->
    0 <= s -> 0 < L1 -> 0 < L2 ->
    Digits.get_e_digits store s (L1 + L2)
    = (l1 <- Digits.get_e_digits store s L1 ;;
       l2 <- Digits.get_e_digits store (s + L1) L2 ;; Ok (l1 ++ l2)).
Proof.
  intros store p e s L1 L2 Hopen Hterm Hs H1 H2. unfold Digits.get_e_digits.
  destruct (Z.ltb_spec s 0); [lia|]. destruct (Z.ltb_spec (s + L1) 0); [lia|].
  destruct (Z.leb_spec (L1 + L2) 0); [lia|]. destruct (Z.leb_spec L1 0); [lia|].
  destruct (Z.leb_spec L2 0); [lia|]. cbn [orb]. rewrite Hopen. cbn [bind].
  now apply digit_continuity_on_terminated_file.
Qed.

(** The digit files with a line end appended are terminated; there the
    reads that broke continuity above concatenate, across the wrap. *)
Example terminated_store_continuity :
  Spec.terminated (encode Digits.PI_START ++ [10]) /\
  Digits.get_pi_digits Inputs.terminated_store 100 1 = Ok [3] /\
  Digits.get_pi_digits Inputs.terminated_store 101 1 = Ok [1] /\
  Digits.get_pi_digits Inputs.terminated_store 100 2 = Ok [3; 1] /\
  Digits.get_pi_digits Inputs.terminated_store 98 (2 + 3)
  = (l1 <- Digits.get_pi_digits Inputs.terminated_store 98 2 ;;
     l2 <- Digits.get_pi_digits Inputs.terminated_store (98 + 2) 3 ;; Ok (l1 ++ l2)).
Proof.
  assert (Hterm : Spec.terminated (encode Digits.PI_START ++ [10])).
  { split; [vm_compute; reflexivity|]. split; [reflexivity | discriminate]. }
  split; [exact Hterm|].
  split; [vm_compute; reflexivity|].
  split; [vm_compute; reflexivity|].
  split; [vm_compute; reflexivity|].
  apply (get_pi_digits_continuity Inputs.terminated_store
           (encode Digits.PI_START ++ [10]) (encode Digits.E_START ++ [10]));
    [reflexivity | exact Hterm | lia | lia | lia].
Qed.

(* ------------------------------------------------------------------ *)
(** * Further properties of the code *)

(** ** The digit files: download, reads that return, reads that hang *)

Lemma download_one_exists (force : bool) (shipped : option (list Z)) (start : string)
      (file : option (list Z)) :
  Digits.exists_ (Digits.download_one force shipped start file) = true.
Proof.
  unfold Digits.download_one.
  destruct force, file as [bytes|], shipped as [b|]; reflexivity.
Qed.

Lemma download_one_again (force : bool) (shipped : option (list Z)) (start : string)
      (file : option (list Z)) :
  Digits.download_one false shipped start (Digits.download_one force shipped start file)
  = Digits.download_one force shipped start file.
Proof.
  unfold Digits.download_one.
  destruct force, file as [bytes|], shipped as [b|]; reflexivity.
Qed.

(** X1.  After [download_digits], forced or not, both digit files exist,
    so that [open] does not raise [FileNotFoundError]; without [force] a
    file that existed keeps its bytes, and a second download without
    [force] changes nothing. *)
Theorem download_digits_leaves_both_files :
  forall (shipped : Digits.DigitStore) (force : bool) (s : Digits.DigitStore),
    Digits.exists_ (Digits.pi_file (Digits.download_digits shipped force s)) = true /\
    Digits.exists_ (Digits.e_file (Digits.download_digits shipped force s)) = true /\
    Digits.open (Digits.download_digits shipped force s) <> Raise FileNotFoundError /\
    (forall bytes, Digits.pi_file s = Some bytes ->
                   Digits.pi_file (Digits.download_digits shipped false s) = Some bytes) /\
    (forall bytes, Digits.e_file s = Some bytes ->
                   Digits.e_file (Digits.download_digits shipped false s) = Some bytes) /\
    Digits.download_digits shipped false (Digits.download_digits shipped force s)
    = Digits.download_digits shipped force s.
Proof.
  intros shipped force s.
  pose proof (download_one_exists force (Digits.pi_file shipped) Digits.PI_START
                (Digits.pi_file s)) as Hpi.
  pose proof (download_one_exists force (Digits.e_file shipped) Digits.E_START
                (Digits.e_file s)) as He.
  split; [exact Hpi|]. split; [exact He|]. split; [|split; [|split]].
  - unfold Digits.open, Digits.download_digits. cbn [Digits.pi_file Digits.e_file].
    destruct (Digits.download_one force (Digits.pi_file shipped) _ _) as [[|b bs]|];
      [| |discriminate Hpi];
      (destruct (Digits.download_one force (Digits.e_file shipped) _ _) as [[|c cs]|];
       [| |discriminate He]); discriminate.
  - intros bytes H. cbn. unfold Digits.download_one. now rewrite H.
  - intros bytes H. cbn. unfold Digits.download_one. now rewrite H.
  - unfold Digits.download_digits. cbn [Digits.pi_file Digits.e_file].
    now rewrite !download_one_again.
Qed.

(** A byte that [isdigit] accepts and [int] converts is a decimal digit. *)
Lemma int_of_char_range (b d : Z) : Digits.int_of_char b = Ok d -> 0 <= d <= 9.
Proof.
  unfold Digits.int_of_char.
  destruct (Z.leb_spec 48 b); destruct (Z.leb_spec b 57); cbn [andb];
    intro Hc; try discriminate. injection Hc as <-. lia.
Qed.

(** Whatever the read loop returns holds as many digits as were asked. *)
Lemma read_loop_digits (fuel : nat) (m : list Z) :
  forall (pos : Z) (remaining : nat) (ds : list Z),
    Digits.read_loop fuel m pos remaining = Ok ds ->
    List.length ds = remaining /\ Forall (fun d => 0 <= d <= 9) ds.
Proof.
  induction fuel as [|fuel IH]; intros pos remaining ds H.
  - destruct remaining; [|discriminate]. injection H as <-. split; [reflexivity | constructor].
  - destruct remaining as [|remaining].
    + injection H as <-. split; [reflexivity | constructor].
    + cbn [Digits.read_loop] in H. inv_bind H.
      destruct (Digits.isdigit a).
      * inv_bind H. inv_bind H. injection H as <-.
        apply IH in Ha1. destruct Ha1 as [Hlen Hall].
        apply int_of_char_range in Ha0.
        split; [simpl; congruence | constructor; assumption].
      * apply IH in H. exact H.
Qed.

Lemma extract_digits_shape (m : list Z) (start length : Z) (ds : list Z) :
  0 < length ->
  Digits.extract_digits m start length = Ok ds ->
  len ds = length /\ Forall (fun d => 0 <= d <= 9) ds.
Proof.
  intros HL H. unfold Digits.extract_digits in H. inv_bind H.
  apply read_loop_digits in H. destruct H as [Hlen Hall].
  split; [unfold len; lia | exact Hall].
Qed.

(** The digit that the cycle finds next is a digit byte of the file. *)
Lemma next_index_digit (m : list Z) (q j : Z) :
  0 <= q -> Spec.next_index m q = Some j ->
  0 <= j < len m /\ Digits.isdigit (nth (Z.to_nat j) m 0) = true.
Proof.
  intros Hq H. unfold Spec.next_index in H.
  destruct (Spec.first_digit (skipn (Z.to_nat q) m) q) as [i|] eqn:Hf.
  - injection H as ->. apply first_digit_some in Hf. destruct Hf as [Hj Hd].
    unfold len in Hj. rewrite length_skipn in Hj.
    rewrite nth_skipn in Hd.
    replace (Z.to_nat q + Z.to_nat (j - q))%nat with (Z.to_nat j) in Hd by lia.
    split; [unfold len; lia | exact Hd].
  - apply first_digit_some in H. destruct H as [Hj Hd].
    rewrite Z.sub_0_r in Hd. split; [lia | exact Hd].
Qed.

Lemma ascii_digit_converts (b : Z) :
  0 <= b < 128 -> Digits.isdigit b = true -> Digits.int_of_char b = Ok (b - 48).
Proof.
  intros Hb Hd. unfold Digits.isdigit in Hd. unfold Digits.int_of_char.
  destruct ((48 <=? b) && (b <=? 57)); [reflexivity|].
  cbn [orb] in Hd.
  destruct (Z.eqb_spec b 178); [lia|]. destruct (Z.eqb_spec b 179); [lia|].
  destruct (Z.eqb_spec b 185); [lia|]. discriminate.
Qed.

(** On a terminated file of ASCII bytes the cycle yields digits for
    ever. *)
Lemma read_cycle_returns (m : list Z) :
  Spec.terminated m -> Forall (fun b => 0 <= b < 128) m ->
  forall (L : nat) (q : Z),
    0 <= q -> exists ds, Spec.read_cycle m q L = Ok ds.
Proof.
  intros Hterm Hascii. induction L as [|L IH]; intros q Hq.
  - exists []. reflexivity.
  - cbn [Spec.read_cycle].
    pose proof (n_pos m Hterm) as Hn.
    assert (Hw : 0 <= Spec.wrap m q < len m).
    { unfold Spec.wrap. destruct (Z.geb_spec q (len m)); lia. }
    destruct (next_index_spec m Hterm _ Hw) as (j & Hnext & Hj0 & Hjn & _).
    rewrite Hnext.
    destruct (next_index_digit m _ j (proj1 Hw) Hnext) as [Hj Hd].
    rewrite ascii_digit_converts; [| |exact Hd].
    + cbn [bind]. destruct (IH (j + 1) ltac:(lia)) as (ds & Hds).
      rewrite Hds. cbn [bind]. eauto.
    + rewrite Forall_forall in Hascii. apply Hascii. apply nth_In. unfold len in Hj. lia.
Qed.

(** X2.  Whatever [get_pi_digits] returns is [length] decimal digits; and
    on a file of ASCII bytes whose last byte is not a digit it does return,
    for every start and every positive length. *)
Theorem get_pi_digits_returns_digits :
  forall (store : Digits.DigitStore) (p e : list Z) (start length : Z),
    Digits.open store = Ok (p, e) ->
    (forall ds, Digits.get_pi_digits store start length = Ok ds ->
                len ds = length /\ Forall (fun d => 0 <= d <= 9) ds) /\
    (Spec.terminated p -> Forall (fun b => 0 <= b < 128) p ->
     0 <= start -> 0 < length ->
     exists ds, Digits.get_pi_digits store start length = Ok ds).
Proof.
  intros store p e start length Hopen. split.
  - intros ds H. unfold Digits.get_pi_digits in H.
    destruct (Z.ltb_spec start 0); [discriminate|].
    destruct (Z.leb_spec length 0); [discriminate|]. cbn [orb] in H.
    rewrite Hopen in H. cbn [bind] in H.
    eapply extract_digits_shape; eassumption.
  - intros Hterm Hascii Hs HL. unfold Digits.get_pi_digits.
    destruct (Z.ltb_spec start 0); [lia|].
    destruct (Z.leb_spec length 0); [lia|]. cbn [orb].
    rewrite Hopen. cbn [bind]. unfold Digits.extract_digits.
    pose proof Hterm as (Hpoint & _).
    pose proof (skip_to_point_nonneg p) as Hp0.
    destruct (read_cycle_app p Hterm (Z.to_nat start) (Digits.skip_to_point p + 1)
                ltac:(lia)) as (q & Hq & Hskip & _).
    rewrite Z2Nat.id in Hskip by lia. rewrite Hskip. cbn [bind].
    rewrite (read_loop_cycle p Hterm) by lia.
    apply read_cycle_returns; [assumption | assumption | lia].
Qed.

Lemma get_pi_digits_returns_digits_witness :
  Digits.open Inputs.terminated_store
  = Ok (encode Digits.PI_START ++ [10], encode Digits.E_START ++ [10]) /\
  exists ds, Digits.get_pi_digits Inputs.terminated_store 250 7 = Ok ds /\
             len ds = 7 /\ Forall (fun d => 0 <= d <= 9) ds.
Proof.
  split; [reflexivity|].
  destruct (get_pi_digits_returns_digits Inputs.terminated_store
              (encode Digits.PI_START ++ [10]) (encode Digits.E_START ++ [10]) 250 7
              eq_refl) as [Hshape Htotal].
  destruct Htotal as (ds & Hds).
  - split; [vm_compute; reflexivity|]. split; [reflexivity | discriminate].
  - apply Forall_forall. intros b Hb.
    assert (Hall : forallb (fun b => (0 <=? b) && (b <? 128))
                           (encode Digits.PI_START ++ [10]) = true) by reflexivity.
    rewrite forallb_forall in Hall. specialize (Hall b Hb).
    apply andb_prop in Hall. destruct Hall as [H0 H1].
    apply Z.leb_le in H0. apply Z.ltb_lt in H1. lia.
  - lia.
  - lia.
  - exists ds. split; [exact Hds | apply Hshape; exact Hds].
Defined.

(** The skip loop on a file without a digit: it runs out of any fuel, or
    it was past the end and left the cursor alone. *)
Lemma skip_one_loop_without_digit (m : list Z) :
  Forall (fun b => Digits.isdigit b = false) m ->
  forall (fuel : nat) (pos : Z),
    0 <= pos ->
    Digits.skip_one_loop fuel m pos = Raise Diverges \/
    exists pos', Digits.skip_one_loop fuel m pos = Ok pos' /\ 0 <= pos'.
Proof.
  intro Hnone. induction fuel as [|fuel IH]; intros pos Hpos.
  - simpl. destruct (pos <? len m); [now left | right; eauto].
  - cbn [Digits.skip_one_loop].
    destruct (Z.ltb_spec pos (len m)) as [Hin|Hout]; [|right; eauto].
    rewrite mmap_getitem_inside by lia. cbn [bind].
    rewrite Forall_forall in Hnone.
    rewrite (Hnone (nth (Z.to_nat pos) m 0)) by (apply nth_In; unfold len in Hin; lia).
    apply IH. destruct (pos + 1 >=? len m); lia.
Qed.

(** X3.  On a file that holds no digit the read loop of [get_pi_digits]
    never ends: it outlasts every fuel.  Hence no read of such a file
    returns, from any start. *)
Theorem read_without_digit_never_ends :
  forall (m : list Z),
    m <> [] -> Forall (fun b => Digits.isdigit b = false) m ->
    (forall (fuel : nat) (pos : Z) (remaining : nat),
        0 <= pos -> Digits.read_loop fuel m pos (S remaining) = Raise Diverges) /\
    (forall start length : Z,
        0 <= start -> 0 < length ->
        Digits.extract_digits m start length = Raise Diverges).
Proof.
  intros m Hne Hnone.
  assert (Hlen : 0 < len m).
  { destruct m; [now elim Hne | rewrite len_cons; pose proof (len_nonneg m); lia]. }
  assert (Hspin : forall (fuel : nat) (pos : Z) (remaining : nat),
             0 <= pos -> Digits.read_loop fuel m pos (S remaining) = Raise Diverges).
  { induction fuel as [|fuel IH]; intros pos remaining Hpos; [reflexivity|].
    cbn [Digits.read_loop].
    assert (Hw : 0 <= (if pos >=? len m then 0 else pos) < len m).
    { destruct (Z.geb_spec pos (len m)); lia. }
    set (q := if pos >=? len m then 0 else pos) in *.
    rewrite mmap_getitem_inside by exact Hw. cbn [bind].
    rewrite Forall_forall in Hnone.
    rewrite (Hnone (nth (Z.to_nat q) m 0)) by (apply nth_In; unfold len in Hw; lia).
    apply IH. lia. }
  split; [exact Hspin|].
  intros start length Hs HL. unfold Digits.extract_digits.
  assert (Hskip : Digits.skip_digits m start (Digits.skip_to_point m + 1) = Raise Diverges \/
                  exists pos', Digits.skip_digits m start (Digits.skip_to_point m + 1)
                               = Ok pos' /\ 0 <= pos').
  { unfold Digits.skip_digits.
    apply (N.iter_invariant (Z.to_N start) _
             (fun r => p <- r ;; Digits.skip_one m p)
             (fun r => r = Raise Diverges \/ exists pos', r = Ok pos' /\ 0 <= pos')).
    - intros r [-> | (pos' & -> & Hpos')]; [now left|]. cbn [bind].
      apply skip_one_loop_without_digit; assumption.
    - right. eexists. split; [reflexivity|].
      pose proof (skip_to_point_nonneg m). lia. }
  destruct Hskip as [-> | (pos' & -> & Hpos')]; [reflexivity|]. cbn [bind].
  replace (Z.to_nat length) with (S (Z.to_nat (length - 1))) by lia.
  apply Hspin. exact Hpos'.
Qed.

Lemma read_without_digit_never_ends_witness :
  (forall fuel : nat, Digits.read_loop fuel [46; 10] 2 1 = Raise Diverges) /\
  Digits.extract_digits [46; 10] 0 1 = Raise Diverges.
Proof.
  destruct (read_without_digit_never_ends [46; 10]) as [Hspin Hall].
  - discriminate.
  - repeat constructor.
  - split; [intro fuel; apply Hspin; lia | apply Hall; lia].
Defined.

(** ** The shape of a synthesized stream *)

Lemma get_pi_digits_length (store : Digits.DigitStore) (start length : Z) (ds : list Z) :
  Digits.get_pi_digits store start length = Ok ds -> len ds = length.
Proof.
  intro H. unfold Digits.get_pi_digits in H.
  destruct (Z.ltb_spec start 0); [discriminate|].
  destruct (Z.leb_spec length 0); [discriminate|]. cbn [orb] in H.
  inv_bind H. destruct a as [p e]. cbn in H.
  eapply extract_digits_shape; eassumption.
Qed.

Lemma get_e_digits_length (store : Digits.DigitStore) (start length : Z) (ds : list Z) :
  Digits.get_e_digits store start length = Ok ds -> len ds = length.
Proof.
  intro H. unfold Digits.get_e_digits in H.
  destruct (Z.ltb_spec start 0); [discriminate|].
  destruct (Z.leb_spec length 0); [discriminate|]. cbn [orb] in H.
  inv_bind H. destruct a as [p e]. cbn in H.
  eapply extract_digits_shape; eassumption.
Qed.

(** Adding chunks of the length of the accumulator keeps its length. *)
Lemma accumulate_length (get : Z -> Z -> result (list Z)) (start cl m : Z)
      (offsets : list Z) :
  (forall o l r, get o l = Ok r -> len r = l) ->
  forall acc r,
    len acc = cl ->
    Streams.accumulate get start cl m offsets acc = Ok r ->
    len r = cl.
Proof.
  intro Hget. induction offsets as [|o rest IH]; intros acc r Hacc H; simpl in H.
  - now injection H as <-.
  - inv_bind H. apply Hget in Ha. eapply IH; [|exact H].
    unfold len in *. rewrite length_map, length_combine. lia.
Qed.

Lemma len_range (a b : Z) : len (range a b) = Z.max 0 (b - a).
Proof. unfold len, range. rewrite length_map, length_seq. lia. Qed.

Lemma chunk_length (env : Streams.Env) (start end_ : Z) (ps es : list Z) (m : Z)
      (r : list Z) :
  Streams._generate_stream_chunk env start end_ ps es m = Ok r ->
  len r = len (range start end_).
Proof.
  intro H. unfold Streams._generate_stream_chunk in H.
  destruct (Z.ltb_spec (end_ - start) 0); [discriminate|]. inv_bind H.
  rewrite len_range, Z.max_r by lia.
  eapply accumulate_length; [apply get_e_digits_length | | exact H].
  eapply accumulate_length; [apply get_pi_digits_length | | exact Ha].
  unfold len. rewrite repeat_length. lia.
Qed.

Lemma collect_length (f : Z -> Z -> result (list Z)) (chunks : list (Z * Z)) :
  (forall s e r, f s e = Ok r -> len r = len (range s e)) ->
  forall rs,
    Streams.collect f chunks = Ok rs ->
    len (List.concat rs) = len (flat_map (fun se => range (fst se) (snd se)) chunks).
Proof.
  intro Hf. induction chunks as [|[s e] rest IH]; intros rs H; simpl in H.
  - now injection H as <-.
  - inv_bind H. inv_bind H. injection H as <-.
    cbn [List.concat flat_map fst snd]. rewrite !len_app.
    rewrite (Hf _ _ _ Ha), (IH _ Ha0). reflexivity.
Qed.

Lemma range_step_empty (a b step : Z) :
  b <= a -> 0 < step -> range_step a b step = [].
Proof.
  intros Hb Hs. unfold range_step.
  assert (Hq : (b - a + step - 1) / step <= 0).
  { apply Z.lt_succ_r. apply Z.div_lt_upper_bound; lia. }
  replace (Z.to_nat ((b - a + step - 1) / step)) with O by lia. reflexivity.
Qed.

(** X4.  Whatever [generate_synthetic_stream] returns holds exactly
    [length] cells; for a positive modulus each cell is in [0, modulus). *)
Theorem synthetic_stream_shape :
  forall (env : Streams.Env) (pi_offsets e_offsets : list Z) (length modulus : Z)
         (threads : option Z) (stream : list Z),
    Streams.generate_synthetic_stream env pi_offsets e_offsets length modulus threads
      = Ok stream ->
    len stream = length /\
    (0 < modulus -> Forall (fun x => 0 <= x < modulus) stream).
Proof.
  intros env ps es length m threads stream H. split.
  - unfold Streams.generate_synthetic_stream in H.
    destruct (_ =? 0); [discriminate|]. destruct (_ <? 1); [discriminate|].
    match type of H with
    | context [Z.max 1 ?q] => set (chunk_size := Z.max 1 q) in *
    end.
    assert (Hc : 0 < chunk_size) by (unfold chunk_size; lia).
    destruct (Z.le_gt_cases length 0) as [Hneg|Hpos].
    { rewrite range_step_empty in H by assumption. discriminate H. }
    inv_bind H. unfold Streams.concatenate in H.
    apply collect_length in Ha; [|intros s e r Hr; eapply chunk_length; exact Hr].
    destruct a as [|r0 rs]; [discriminate|]. injection H as <-.
    change (r0 ++ List.concat rs) with (List.concat (r0 :: rs)). rewrite Ha.
    unfold range_step. rewrite flat_map_concat_map, !map_map, <- flat_map_concat_map.
    cbn [fst snd].
    rewrite (chunks_tile length chunk_size Hc _ 0 eq_refl).
    rewrite len_range. lia.
  - intro Hm. eapply synthetic_stream_range; eassumption.
Qed.

Lemma synthetic_stream_shape_witness :
  Streams.generate_synthetic_stream Inputs.env [3] [5] 4 7 (Some 2) = Ok [6; 3; 4; 0] /\
  len [6; 3; 4; 0] = 4 /\
  (0 < 7 -> Forall (fun x => 0 <= x < 7) [6; 3; 4; 0]).
Proof.
  assert (H : Streams.generate_synthetic_stream Inputs.env [3] [5] 4 7 (Some 2)
              = Ok [6; 3; 4; 0]) by (vm_compute; reflexivity).
  split; [exact H|].
  exact (synthetic_stream_shape Inputs.env [3] [5] 4 7 (Some 2) [6; 3; 4; 0] H).
Defined.

(** X5.  A stream of no cell cannot be asked for: with a length of zero
    or less there is no chunk, and [np.concatenate] refuses the empty list
    of chunks with [ValueError] (a zero worker count divides by zero
    before that). *)
Theorem synthesis_refuses_empty_length :
  forall (env : Streams.Env) (pi_offsets e_offsets : list Z) (length modulus : Z)
         (threads : option Z),
    length <= 0 ->
    Streams.generate_synthetic_stream env pi_offsets e_offsets length modulus threads
    = Raise (if match threads with
                | None => Z.max 1 (Streams.cpu_count env - 1)
                | Some t => t
                end =? 0
             then ZeroDivisionError else ValueError).
Proof.
  intros env ps es length m threads Hlen. unfold Streams.generate_synthetic_stream.
  destruct (_ =? 0); [reflexivity|]. destruct (_ <? 1); [reflexivity|].
  rewrite range_step_empty by lia. reflexivity.
Qed.

Lemma synthesis_refuses_empty_length_witness :
  0 <= 0 /\
  Streams.generate_synthetic_stream Inputs.env [3] [5] 0 10 None = Raise ValueError.
Proof.
  split; [lia|].
  exact (synthesis_refuses_empty_length Inputs.env [3] [5] 0 10 None ltac:(lia)).
Defined.

(** ** The stream generator: its cache and its two entry points *)

Lemma cache_get_set (c : list (Z * list Z)) (k : Z) (v : list Z) :
  Streams.cache_get (Streams.cache_set c k v) k = Some v.
Proof.
  induction c as [|[k' v'] c IH]; cbn [Streams.cache_set Streams.cache_get].
  - now rewrite Z.eqb_refl.
  - destruct (Z.eqb_spec k' k) as [->|Hne]; cbn [Streams.cache_get].
    + now rewrite Z.eqb_refl.
    + destruct (Z.eqb_spec k' k); [contradiction | exact IH].
Qed.

Lemma cache_set_new (c : list (Z * list Z)) (k : Z) (v : list Z) :
  Streams.cache_get c k = None -> len (Streams.cache_set c k v) = len c + 1.
Proof.
  induction c as [|[k' v'] c IH]; cbn [Streams.cache_set Streams.cache_get]; intro H.
  - reflexivity.
  - destruct (k' =? k); [discriminate|]. rewrite !len_cons, IH by exact H. reflexivity.
Qed.

(** X6.  The cache of [StreamGenerator.generate] never grows past ten
    streams; while it has room, the stream of a length is served from the
    cache on the next call, whatever the digit files have become; once it
    is full, a call leaves the generator as it was. *)
Theorem generate_serves_cache :
  forall (env : Streams.Env) (g : Streams.StreamGenerator) (length : Z)
         (stream : list Z) (g' : Streams.StreamGenerator),
    Streams.generate env g length = Ok (stream, g') ->
    (len (Streams._cache g) <= 10 -> len (Streams._cache g') <= 10) /\
    (len (Streams._cache g) < 10 ->
     forall env', Streams.generate env' g' length = Ok (stream, g')) /\
    (10 <= len (Streams._cache g) -> g' = g).
Proof.
  intros env g length stream g' H.
  unfold Streams.generate in H.
  assert (Hcases :
            (Streams.pi_offsets g <> [] \/ Streams.e_offsets g <> []) /\
            (Streams.cache_get (Streams._cache g) length = Some stream /\ g' = g \/
             Streams.cache_get (Streams._cache g) length = None /\
             g' = if len (Streams._cache g) <? 10
                  then Streams.MkStreamGenerator
                         (Streams.pi_offsets g) (Streams.e_offsets g) (Streams.modulus g)
                         (Streams.threads g)
                         (Streams.cache_set (Streams._cache g) length stream)
                  else g)).
  { destruct (Streams.pi_offsets g) as [|p ps] eqn:Hp;
      destruct (Streams.e_offsets g) as [|e es] eqn:He; try discriminate H;
      (split; [first [left; discriminate | right; discriminate]|]);
      (destruct (Streams.cache_get (Streams._cache g) length) as [cached|];
       [injection H as <- <-; left; split; reflexivity
       |inv_bind H; injection H as <- <-; right; split; reflexivity]). }
  clear H. destruct Hcases as [Hoffsets Hcache].
  assert (Hhit : forall env' g0,
             (Streams.pi_offsets g0 <> [] \/ Streams.e_offsets g0 <> []) ->
             Streams.cache_get (Streams._cache g0) length = Some stream ->
             Streams.generate env' g0 length = Ok (stream, g0)).
  { intros env' g0 Hoff Hget. unfold Streams.generate. rewrite Hget.
    destruct (Streams.pi_offsets g0), (Streams.e_offsets g0); try reflexivity.
    destruct Hoff as [Hoff|Hoff]; now elim Hoff. }
  destruct Hcache as [[Hget ->] | [Hget ->]].
  - split; [auto|]. split; [|reflexivity].
    intros _ env'. now apply Hhit.
  - destruct (Z.ltb_spec (len (Streams._cache g)) 10) as [Hroom|Hfull].
    + split; [|split].
      * intros _. cbn [Streams._cache]. rewrite cache_set_new by exact Hget. lia.
      * intros _ env'. apply Hhit; cbn [Streams.pi_offsets Streams.e_offsets Streams._cache].
        -- exact Hoffsets.
        -- apply cache_get_set.
      * lia.
    + split; [auto|]. split; [lia | reflexivity].
Qed.

Lemma generate_serves_cache_witness :
  exists (stream : list Z) (g' : Streams.StreamGenerator),
    Streams.generate Inputs.env (Streams.MkStreamGenerator [3] [5] 7 (Some 2) []) 4
    = Ok (stream, g') /\
    len (Streams._cache g') <= 10 /\
    Streams.generate (Streams.MkEnv (Digits.MkDigitStore None None) 1) g' 4
    = Ok (stream, g').
Proof.
  eexists. eexists.
  assert (H : Streams.generate Inputs.env (Streams.MkStreamGenerator [3] [5] 7 (Some 2) []) 4
              = Ok ([6; 3; 4; 0],
                    Streams.MkStreamGenerator [3] [5] 7 (Some 2) [(4, [6; 3; 4; 0])]))
    by (vm_compute; reflexivity).
  split; [exact H|].
  destruct (generate_serves_cache _ _ _ _ _ H) as (Hbound & Hserve & _).
  split; [apply Hbound; cbn; lia | apply Hserve; cbn; lia].
Defined.

(** A draw of [bounded_uint64] below the 32-bit limit is inside its
    range. *)
Lemma bounded_uint64_range (fuel : nat) (off rng : Z) (st st' : Numpy.mt19937_state)
      (v : Z) :
  0 <= rng < 0xFFFFFFFF ->
  Numpy.bounded_uint64 fuel off rng st = Ok (v, st') -> off <= v <= off + rng.
Proof.
  intros Hrng H. unfold Numpy.bounded_uint64 in H.
  destruct (Z.eqb_spec rng 0) as [->|Hnz]; [injection H as <- _; lia|].
  destruct (Z.leb_spec rng 0xFFFFFFFF) as [_|]; [|lia].
  destruct (Z.eqb_spec rng 0xFFFFFFFF) as [|_]; [lia|].
  inv_bind H. destruct a as [x st1]. injection H as <- _.
  apply bounded_masked_range in Ha.
  - lia.
  - unfold Numpy.gen_mask. destruct (Z.eqb_spec rng 0); [lia|].
    assert (0 < 2 ^ (Z.log2 rng + 1)) by (apply Z.pow_pos_nonneg; [lia|];
      pose proof (Z.log2_nonneg rng); lia).
    lia.
Qed.

Lemma fill_range (fuel : nat) (off rng : Z) (cnt : nat) :
  0 <= rng < 0xFFFFFFFF ->
  forall st l st',
    Numpy.fill fuel cnt off rng st = Ok (l, st') ->
    List.length l = cnt /\ Forall (fun v => off <= v <= off + rng) l.
Proof.
  intro Hrng. induction cnt as [|cnt IH]; intros st l st' H; simpl in H.
  - injection H as <- _. split; [reflexivity | constructor].
  - inv_bind H. destruct a as [v st1].
    inv_bind H. destruct a as [vs st2]. injection H as <- _.
    destruct (IH _ _ _ Ha0) as [Hlen Hall].
    apply bounded_uint64_range in Ha; [|exact Hrng].
    split; [simpl; congruence | constructor; assumption].
Qed.

Lemma randint_range (fuel : nat) (st st' : Numpy.mt19937_state) (low high size : Z)
      (l : list Z) :
  high - low <= 0xFFFFFFFF ->
  Numpy.randint fuel st low high size = Ok (l, st') ->
  len l = size /\ Forall (fun v => low <= v < high) l.
Proof.
  intros Hwide H. unfold Numpy.randint in H.
  destruct ((low <? - 2 ^ 63) || (high >? 2 ^ 63)) eqn:Hb; [discriminate|].
  cbn [orb] in H.
  destruct (Z.geb_spec low high) as [|Hlt]; [discriminate|].
  destruct (Z.ltb_spec size 0) as [|Hsize]; [discriminate|].
  apply fill_range in H; [|lia]. destruct H as [Hlen Hall].
  split; [unfold len; lia|].
  eapply Forall_impl; [|exact Hall]. simpl. intros v Hv. lia.
Qed.

(** X7.  [get_synthetic_stream] does not use the modulus and the worker
    count it is given: when at least one offset per constant is asked
    for, its stream, or its exception, is the one of
    [generate_streams_from_seeds] under the modulus and the worker count
    of the singleton generator -- 10 and the default in a process that
    has not created it yet. *)
Theorem get_synthetic_stream_uses_singleton :
  forall (rng_fuel : nat) (env : Streams.Env) (w : option Streams.StreamGenerator)
         (pi_seed e_seed length num_offsets modulus : Z) (threads : option Z),
    0 < num_offsets ->
    (r <- Streams.get_synthetic_stream rng_fuel env w pi_seed e_seed length
                                       num_offsets modulus threads ;;
     Ok (fst r))
    = Streams.generate_streams_from_seeds
        rng_fuel env pi_seed e_seed num_offsets length
        (Streams.modulus (Streams.get_stream_generator w))
        (Streams.threads (Streams.get_stream_generator w)).
Proof.
  intros rng_fuel env w pi_seed e_seed length n m t Hn.
  unfold Streams.get_synthetic_stream, Streams.generate_streams_from_seeds,
    Streams.from_seeds.
  destruct (Streams._generate_offsets_from_seed rng_fuel pi_seed n) as [ps|e] eqn:Hps;
    [|reflexivity]. cbn [bind].
  destruct (Streams._generate_offsets_from_seed rng_fuel e_seed n) as [es|e] eqn:Hes;
    [|reflexivity]. cbn [bind].
  assert (Hne : ps <> []).
  { unfold Streams._generate_offsets_from_seed in Hps.
    inv_bind Hps. inv_bind Hps. destruct a0 as [l st]. injection Hps as <-.
    apply randint_range in Ha0; [|lia]. destruct Ha0 as [Hlen _].
    intros ->. change (len (@nil Z)) with 0 in Hlen. lia. }
  unfold Streams.generate, Streams.set_parameters.
  cbn [Streams.pi_offsets Streams.e_offsets Streams._cache Streams.modulus
       Streams.threads Streams.cache_get].
  destruct ps as [|p0 ps]; [now elim Hne|].
  destruct (Streams.generate_synthetic_stream env (p0 :: ps) es length _ _) as [s|e];
    reflexivity.
Qed.

Lemma get_synthetic_stream_uses_singleton_witness :
  0 < 1 /\
  (r <- Streams.get_synthetic_stream 64 Inputs.env None 301604 254923 50 1 7 (Some 3) ;;
   Ok (fst r))
  = Streams.generate_streams_from_seeds 64 Inputs.env 301604 254923 1 50 10 None.
Proof.
  split; [lia|].
  exact (get_synthetic_stream_uses_singleton 64 Inputs.env None 301604 254923 50 1 7
           (Some 3) ltac:(lia)).
Defined.

(** The three offsets of the seed 42, for X8. *)
Lemma offsets_in_range_witness :
  exists offsets : list Z,
    Streams._generate_offsets_from_seed 64 42 3 = Ok offsets /\
    len offsets = 3 /\ Forall (fun o => 0 <= o < 1000000000) offsets.
Proof.
  eexists. split; [vm_compute; reflexivity|].
  apply (offsets_in_range 64 42 3). vm_compute. reflexivity.
Defined.

(** Six cells without an offset, under a modulus of zero, for X9. *)
Lemma synthesis_without_offsets_witness :
  0 < 6 /\ 1 <= 4 /\
  Streams.generate_synthetic_stream (Streams.MkEnv (Digits.MkDigitStore None None) 1)
                                    [] [] 6 0 (Some 4)
  = Ok (repeat 0 (Z.to_nat 6)).
Proof.
  split; [lia|]. split; [lia|].
  apply synthesis_without_offsets; lia.
Defined.

(** A generated key with a seed of 64 bits, for X10. *)
Lemma generated_key_cannot_bind_witness :
  exists key : Keys.PrivateKey,
    2 ^ 32 <= 2 ^ 63 + 5 /\
    Keys.generate (2 ^ 63 + 5) 17 [3; 1; 4] [2; 0] 3 true 100 10 25 = Ok key /\
    Keys.get_public_key 64 Inputs.env None key 5 = Raise ValueError.
Proof.
  eexists. split; [vm_compute; discriminate|].
  split; [reflexivity|].
  apply (generated_key_cannot_bind 64 Inputs.env None (2 ^ 63 + 5) 17 [3; 1; 4] [2; 0]
           3 true 100 10 25).
  - vm_compute. discriminate.
  - reflexivity.
Defined.

(** ** Patterns: span, verification of matches, random patterns,
    dictionaries *)

Lemma sum_firstn_succ (s : list Z) :
  forall k : nat,
    fold_right Z.add 0 (firstn (S k) s) = fold_right Z.add 0 (firstn k s) + nth k s 0.
Proof.
  induction s as [|g s IH]; intro k.
  - destruct k; reflexivity.
  - destruct k as [|k].
    + cbn. lia.
    + change (firstn (S (S k)) (g :: s)) with (g :: firstn (S k) s).
      change (firstn (S k) (g :: s)) with (g :: firstn k s).
      cbn [fold_right nth]. rewrite IH. lia.
Qed.

(** The cumulative offset is the index plus the gaps passed. *)
Lemma cum_offset_sum (s : list Z) (k : nat) :
  Spec.cum_offset (Some s) k = Z.of_nat k + fold_right Z.add 0 (firstn k s).
Proof.
  induction k as [|k IH]; [reflexivity|].
  cbn [Spec.cum_offset]. rewrite IH, sum_firstn_succ. lia.
Qed.

Lemma cum_offset_none (k : nat) : Spec.cum_offset None k = Z.of_nat k.
Proof. induction k as [|k IH]; cbn [Spec.cum_offset]; lia. Qed.

(** The end position of the rule is the start plus [total_span]. *)
Lemma end_position_total_span (pat : Patterns.Pattern) (p : Z) :
  Spec.wf_pattern pat -> Patterns.digits pat <> [] ->
  Spec.end_position pat p = p + Patterns.total_span pat.
Proof.
  intros Hwf Hne. unfold Spec.end_position, Patterns.total_span, Patterns.length.
  assert (Hn : (0 < List.length (Patterns.digits pat))%nat).
  { destruct (Patterns.digits pat); [now elim Hne | simpl; lia]. }
  unfold Spec.wf_pattern in Hwf.
  destruct (Patterns.spacing pat) as [s|].
  - destruct Hwf as [Hlen _]. rewrite cum_offset_sum.
    replace (List.length (Patterns.digits pat) - 1)%nat with (List.length s)
      by (unfold len in Hlen; lia).
    rewrite firstn_all. unfold len in *. lia.
  - rewrite cum_offset_none. unfold len. lia.
Qed.

(** X11.  A match of a pattern that satisfies its invariant starts inside
    the stream, ends [total_span] cells after its start, and fits in the
    stream. *)
Theorem match_ends_after_total_span :
  forall (pat : Patterns.Pattern) (stream : list Z) (p e : Z),
    Spec.wf_pattern pat ->
    Patterns.match_at_position pat stream p = Ok (true, e) ->
    0 <= p < len stream /\
    e = p + Patterns.total_span pat /\
    p + Patterns.total_span pat <= len stream.
Proof.
  intros pat stream p e Hwf H.
  assert (Hp : 0 <= p < len stream).
  { unfold Patterns.match_at_position in H.
    destruct (Z.ltb_spec p 0); [discriminate|].
    destruct (Z.geb_spec p (len stream)); [discriminate|]. lia. }
  split; [exact Hp|].
  destruct (Patterns.digits pat) as [|d ds] eqn:Hd.
  - unfold Spec.wf_pattern in Hwf. unfold Patterns.match_at_position in H.
    unfold Patterns.is_contiguous, Patterns.total_span, Patterns.length in *.
    rewrite Hd in *.
    destruct (Patterns.spacing pat) as [s|].
    + destruct Hwf as [Hlen _]. pose proof (len_nonneg s).
      change (len (@nil Z)) with 0 in Hlen. lia.
    + destruct (Z.ltb_spec p 0); [lia|].
      destruct (Z.geb_spec p (len stream)); [lia|]. cbn [orb] in H.
      change (len (@nil Z)) with 0 in *.
      destruct (Z.gtb_spec (p + 0) (len stream)); [discriminate|].
      cbn in H. injection H as <-. lia.
  - assert (Hne : Patterns.digits pat <> []) by (rewrite Hd; discriminate).
    destruct (match_at_position_cases pat stream p Hwf Hne (proj1 Hp))
      as (b & e' & Hrun & Hrule & Hend).
    rewrite Hrun in H. injection H as -> ->.
    destruct (Hend eq_refl) as [He _].
    rewrite end_position_total_span in He by assumption.
    split; [exact He|].
    assert (Hlast : (List.length (Patterns.digits pat) - 1
                     < List.length (Patterns.digits pat))%nat).
    { rewrite Hd. simpl. lia. }
    pose proof (proj1 Hrule eq_refl _ Hlast) as [Hin _].
    rewrite <- (end_position_total_span pat p Hwf Hne).
    unfold Spec.end_position. lia.
Qed.

Lemma match_ends_after_total_span_witness :
  Spec.wf_pattern (Patterns.MkPattern [3; 1; 9] (Some [2; 3])) /\
  Patterns.match_at_position (Patterns.MkPattern [3; 1; 9] (Some [2; 3]))
                             [0; 0; 3; 5; 5; 1; 7; 7; 7; 9; 4; 8] 2 = Ok (true, 10) /\
  0 <= 2 < len [0; 0; 3; 5; 5; 1; 7; 7; 7; 9; 4; 8] /\
  10 = 2 + Patterns.total_span (Patterns.MkPattern [3; 1; 9] (Some [2; 3])) /\
  2 + Patterns.total_span (Patterns.MkPattern [3; 1; 9] (Some [2; 3]))
  <= len [0; 0; 3; 5; 5; 1; 7; 7; 7; 9; 4; 8].
Proof.
  assert (Hwf : Spec.wf_pattern (Patterns.MkPattern [3; 1; 9] (Some [2; 3])))
    by (split; [reflexivity | repeat constructor; lia]).
  split; [exact Hwf|]. split; [reflexivity|].
  exact (match_ends_after_total_span (Patterns.MkPattern [3; 1; 9] (Some [2; 3]))
           [0; 0; 3; 5; 5; 1; 7; 7; 7; 9; 4; 8] 2 10 Hwf eq_refl).
Defined.

Lemma array_equal_spec (a : list Z) : forall b, Patterns.array_equal a b = true <-> a = b.
Proof.
  induction a as [|x a IH]; intros [|y b]; cbn [Patterns.array_equal];
    try (split; [discriminate | discriminate]); [split; reflexivity|].
  rewrite andb_true_iff, Z.eqb_eq, IH. split.
  - intros [-> ->]. reflexivity.
  - intro H. injection H as -> ->. split; reflexivity.
Qed.

(** One turn of the loop of [verify_pattern_matches] passes exactly on a
    hit: a match at the position, with the follow sequence expected. *)
Lemma verify_step (self : Patterns.PatternMatcher) (pat : Patterns.Pattern)
      (stream : list Z) (pos : Z) (follow : list Z) (rest : list Patterns.found) :
  (Spec.hit self pat stream pos = [(pos, follow)] ->
   Patterns.verify_pattern_matches self pat stream ((pos, follow) :: rest)
   = Patterns.verify_pattern_matches self pat stream rest) /\
  (Patterns.verify_pattern_matches self pat stream ((pos, follow) :: rest) = Ok true ->
   Spec.hit self pat stream pos = [(pos, follow)] /\
   Patterns.verify_pattern_matches self pat stream rest = Ok true) /\
  (forall b e, Patterns.match_at_position pat stream pos = Ok (b, e) ->
   Spec.hit self pat stream pos <> [(pos, follow)] ->
   Patterns.verify_pattern_matches self pat stream ((pos, follow) :: rest) = Ok false).
Proof.
  cbn [Patterns.verify_pattern_matches]. unfold Spec.hit.
  destruct (Patterns.match_at_position pat stream pos) as [[[|] e]|err]; cbn [bind negb].
  - set (actual := Patterns._extract_follow_digits self stream e).
    destruct (Patterns.array_equal actual follow) eqn:Heq.
    + apply array_equal_spec in Heq. rewrite Heq, Z.eqb_refl. cbn [negb orb].
      split; [reflexivity|]. split; [intro H; split; [reflexivity | exact H]|].
      intros b e0 _ Hne. now elim Hne.
    + assert (Hne : actual <> follow).
      { intro E. apply array_equal_spec in E. congruence. }
      rewrite orb_true_r. split; [|split].
      * intro H. injection H as H. contradiction.
      * discriminate.
      * reflexivity.
  - split; [discriminate|]. split; [discriminate | reflexivity].
  - split; [discriminate|]. split; [discriminate|]. intros b e0 H. discriminate H.
Qed.

(** X12.  [verify_pattern_matches] answers [True] exactly when every
    expected entry is a hit: the pattern matches at its position and the
    follow sequence extracted there is the expected one.  For a pattern
    that satisfies its invariant it always answers. *)
Theorem verify_pattern_matches_spec :
  forall (self : Patterns.PatternMatcher) (pat : Patterns.Pattern) (stream : list Z)
         (expected_results : list Patterns.found),
    (Patterns.verify_pattern_matches self pat stream expected_results = Ok true <->
     Forall (fun x => Spec.hit self pat stream (fst x) = [x]) expected_results) /\
    (Spec.wf_pattern pat ->
     exists b, Patterns.verify_pattern_matches self pat stream expected_results = Ok b).
Proof.
  intros self pat stream expected. split; [split|].
  - induction expected as [|[pos follow] rest IH]; intro H; [constructor|].
    apply (proj1 (proj2 (verify_step self pat stream pos follow rest))) in H.
    destruct H as [Hhit Hrest]. constructor; [exact Hhit | exact (IH Hrest)].
  - induction 1 as [|[pos follow] rest Hhit _ IH]; [reflexivity|].
    cbn [fst] in Hhit.
    etransitivity; [exact (proj1 (verify_step self pat stream pos follow rest) Hhit)|].
    exact IH.
  - intro Hwf. induction expected as [|[pos follow] rest IH]; [exists true; reflexivity|].
    destruct (list_eq_dec (fun a b : Patterns.found =>
                             ltac:(decide equality; [apply (list_eq_dec Z.eq_dec)
                                                    | apply Z.eq_dec]))
                          (Spec.hit self pat stream pos) [(pos, follow)]) as [Hhit|Hmiss].
    + destruct IH as (b & Hb). exists b.
      etransitivity; [exact (proj1 (verify_step self pat stream pos follow rest) Hhit)|].
      exact Hb.
    + destruct (match_at_position_total pat stream pos Hwf) as (b & e & Hm).
      exists false.
      exact (proj2 (proj2 (verify_step self pat stream pos follow rest)) b e Hm Hmiss).
Qed.

(** The entries the search loop appends are hits. *)
Lemma search_loop_hits (self : Patterns.PatternMatcher) (pat : Patterns.Pattern)
      (stream : list Z) (k : Z) (positions : list Z) :
  forall acc results,
    Forall (fun x => Spec.hit self pat stream (fst x) = [x]) acc ->
    Patterns.search_loop self pat stream k positions acc = Ok results ->
    Forall (fun x => Spec.hit self pat stream (fst x) = [x]) results.
Proof.
  induction positions as [|pos rest IH]; intros acc results Hacc H.
  - simpl in H. now injection H as <-.
  - cbn [Patterns.search_loop] in H. inv_bind H. destruct a as [[|] e].
    + assert (Hnew : Forall (fun x => Spec.hit self pat stream (fst x) = [x])
                            (acc ++ [(pos, Patterns._extract_follow_digits self stream e)])).
      { apply Forall_app. split; [exact Hacc|]. constructor; [|constructor].
        cbn [fst]. unfold Spec.hit. now rewrite Ha. }
      destruct (_ >=? _); [now injection H as <- | eapply IH; eassumption].
    + eapply IH; eassumption.
Qed.

Lemma gather_hits (self : Patterns.PatternMatcher) (pat : Patterns.Pattern)
      (stream : list Z) (k : Z) (chunks : list (Z * Z)) :
  forall acc results,
    Forall (fun x => Spec.hit self pat stream (fst x) = [x]) acc ->
    Patterns.gather (fun start end_ =>
                       Patterns._search_chunk self pat stream start end_ k)
                    k chunks acc = Ok results ->
    Forall (fun x => Spec.hit self pat stream (fst x) = [x]) results.
Proof.
  induction chunks as [|[s e] rest IH]; intros acc results Hacc H.
  - simpl in H. now injection H as <-.
  - cbn [Patterns.gather] in H. inv_bind H.
    unfold Patterns._search_chunk in Ha. apply search_loop_hits in Ha; [|constructor].
    assert (Hnew : Forall (fun x => Spec.hit self pat stream (fst x) = [x]) (acc ++ a))
      by (apply Forall_app; split; assumption).
    destruct (_ >=? _); [now injection H as <- | eapply IH; eassumption].
Qed.

Lemma insert_Forall (P : Patterns.found -> Prop) (x : Patterns.found)
      (l : list Patterns.found) :
  P x -> Forall P l -> Forall P (Patterns.insert_by_position x l).
Proof.
  intros Hx Hl. induction Hl as [|y l Hy Hl IH]; cbn [Patterns.insert_by_position].
  - repeat constructor. exact Hx.
  - destruct (fst x <=? fst y); repeat constructor; assumption.
Qed.

Lemma sort_Forall (P : Patterns.found -> Prop) (l : list Patterns.found) :
  Forall P l -> Forall P (Patterns.sort_by_position l).
Proof.
  induction 1 as [|x l Hx Hl IH]; [constructor|].
  cbn [Patterns.sort_by_position fold_right]. now apply insert_Forall.
Qed.

(** X13.  What [find_pattern] returns passes [verify_pattern_matches] on
    the same pattern and stream: every entry is a match with its follow
    sequence, for every quota, start and worker count. *)
Theorem found_matches_verify :
  forall (cpu_count : Z) (self : Patterns.PatternMatcher) (pat : Patterns.Pattern)
         (stream : list Z) (max_positions start_from : Z)
         (results : list Patterns.found),
    Patterns.find_pattern cpu_count self pat stream max_positions start_from
      = Ok results ->
    Patterns.verify_pattern_matches self pat stream results = Ok true.
Proof.
  intros cpu_count self pat stream k start_from results H.
  assert (Hhits : Forall (fun x => Spec.hit self pat stream (fst x) = [x]) results).
  { unfold Patterns.find_pattern in H. inv_bind H. injection H as <-.
    apply sort_Forall.
    destruct ((len stream >? 10000) && _).
    - unfold Patterns._find_pattern_parallel in Ha.
      destruct (_ <? 1); [discriminate|]. inv_bind Ha. injection Ha as <-.
      apply gather_hits in Ha0; [|constructor].
      unfold slice_to. destruct (0 <=? k); apply firstn_Forall;
        apply sort_Forall; exact Ha0.
    - unfold Patterns._find_pattern_sequential in Ha.
      eapply search_loop_hits; [|exact Ha]. constructor. }
  clear H. induction Hhits as [|[pos follow] rest Hhit _ IH]; [reflexivity|].
  cbn [fst] in Hhit.
  etransitivity; [exact (proj1 (verify_step self pat stream pos follow rest) Hhit)|].
  exact IH.
Qed.

Lemma found_matches_verify_witness :
  Patterns.find_pattern 4 Inputs.matcher_3 (Patterns.MkPattern [7] None)
                        [0; 7; 3; 5; 5; 1; 7; 7; 7; 9; 4; 8] 3 0
  = Ok [(1, [3; 5; 5]); (6, [7; 7; 9]); (7, [7; 9; 4])] /\
  Patterns.verify_pattern_matches Inputs.matcher_3 (Patterns.MkPattern [7] None)
                                  [0; 7; 3; 5; 5; 1; 7; 7; 7; 9; 4; 8]
                                  [(1, [3; 5; 5]); (6, [7; 7; 9]); (7, [7; 9; 4])]
  = Ok true.
Proof.
  split; [reflexivity|].
  exact (found_matches_verify 4 Inputs.matcher_3 (Patterns.MkPattern [7] None)
           [0; 7; 3; 5; 5; 1; 7; 7; 7; 9; 4; 8] 3 0 _ eq_refl).
Defined.

(** X14.  Whatever pattern [generate_random_pattern] returns satisfies
    the invariant of a pattern: it holds [length] digits between 0 and 9,
    and its spacing, drawn only when asked for and for more than one
    digit, holds [length - 1] gaps between 0 and [max_spacing]. *)
Theorem random_pattern_is_well_formed :
  forall (rng_fuel : nat) (st st' : Numpy.mt19937_state) (length max_spacing : Z)
         (use_spacing : bool) (pat : Patterns.Pattern),
    max_spacing < 2 ^ 32 - 1 ->
    Patterns.generate_random_pattern rng_fuel st length max_spacing use_spacing
      = Ok (pat, st') ->
    Spec.wf_pattern pat /\
    len (Patterns.digits pat) = length /\
    Forall (fun d => 0 <= d <= 9) (Patterns.digits pat) /\
    match Patterns.spacing pat with
    | Some s => use_spacing = true /\ 1 < length /\ len s = length - 1 /\
                Forall (fun g => 0 <= g <= max_spacing) s
    | None => use_spacing = false \/ length <= 1
    end.
Proof.
  intros rng_fuel st st' length max_spacing use_spacing pat Hmax H.
  unfold Patterns.generate_random_pattern in H.
  inv_bind H. destruct a as [ds st1].
  apply randint_range in Ha; [|lia]. destruct Ha as [Hlen Hds].
  assert (Hdigits : Forall (fun d => 0 <= d <= 9) ds).
  { eapply Forall_impl; [|exact Hds]. simpl. intros d Hd. lia. }
  inv_bind H. destruct a as [sp st2]. inv_bind H. injection H as <- _.
  destruct use_spacing; cbn [andb] in Ha.
  - destruct (Z.gtb_spec length 1) as [Hlong|Hshort].
    + inv_bind Ha. destruct a0 as [s st3]. injection Ha as <- _.
      apply randint_range in Ha1; [|lia]. destruct Ha1 as [Hslen Hs].
      unfold Patterns.Pattern_init in Ha0.
      destruct (Z.eqb_spec (len s) (len ds - 1)) as [_|Hbad]; [|lia].
      cbn [negb] in Ha0. injection Ha0 as <-.
      unfold Spec.wf_pattern. cbn [Patterns.spacing Patterns.digits].
      assert (Hgaps : Forall (fun g => 0 <= g <= max_spacing) s).
      { eapply Forall_impl; [|exact Hs]. simpl. intros g Hg. lia. }
      repeat split; try assumption; try lia.
      eapply Forall_impl; [|exact Hgaps]. simpl. intros g Hg. lia.
    + injection Ha as <- _. cbn in Ha0. injection Ha0 as <-.
      unfold Spec.wf_pattern. cbn [Patterns.spacing Patterns.digits].
      repeat split; try assumption. right. lia.
  - injection Ha as <- _. cbn in Ha0. injection Ha0 as <-.
    unfold Spec.wf_pattern. cbn [Patterns.spacing Patterns.digits].
    repeat split; try assumption. now left.
Qed.

Lemma random_pattern_is_well_formed_witness :
  exists (pat : Patterns.Pattern) (st' : Numpy.mt19937_state),
    10 < 2 ^ 32 - 1 /\
    Patterns.generate_random_pattern 64 (Numpy.mt19937_seed 42) 3 10 true = Ok (pat, st') /\
    Patterns.digits pat = [6; 3; 7] /\
    Spec.wf_pattern pat /\
    len (Patterns.digits pat) = 3.
Proof.
  eexists. eexists.
  split; [reflexivity|].
  split; [vm_compute; reflexivity|].
  split; [reflexivity|].
  match goal with
  | |- Spec.wf_pattern ?p /\ _ =>
      destruct (random_pattern_is_well_formed 64 (Numpy.mt19937_seed 42) _ 3 10 true p
                  ltac:(reflexivity) ltac:(vm_compute; reflexivity)) as (Hwf & Hlen & _)
  end.
  split; [exact Hwf | exact Hlen].
Defined.

(** X15.  A pattern comes back from its dictionary exactly when its
    spacing, if any, is one shorter than its digits; otherwise loading
    raises the [ValueError] of the constructor.  A dictionary without the
    key "digits" raises [KeyError]; one without "spacing" loads a
    contiguous pattern. *)
Theorem pattern_dict_round_trip :
  forall (pat : Patterns.Pattern),
    Patterns.from_dict (Patterns.to_dict pat)
    = (if match Patterns.spacing pat with
          | Some s => len s =? len (Patterns.digits pat) - 1
          | None => true
          end
       then Dicts.Loaded pat
       else Dicts.Failed (Dicts.Init ValueError)) /\
    (forall sp, Patterns.from_dict (Patterns.MkPatternDict None sp)
                = Dicts.Failed (Dicts.KeyError "digits")) /\
    Patterns.from_dict (Patterns.MkPatternDict (Some (Patterns.digits pat)) None)
    = Dicts.Loaded (Patterns.MkPattern (Patterns.digits pat) None).
Proof.
  intros [ds sp]. split; [|split; [reflexivity | reflexivity]].
  unfold Patterns.from_dict, Patterns.to_dict, Patterns.Pattern_init.
  cbn [Patterns.digits Patterns.spacing Patterns.d_digits Patterns.d_spacing
       Dicts.getitem Dicts.and_then Dicts.get].
  destruct sp as [s|]; [|reflexivity].
  destruct (len s =? len ds - 1); reflexivity.
Qed.

(** ** Keys: the cache of matches, key files, derived encryption keys *)

(** A fresh key whose first pattern digit is no value of its stream finds
    no match and caches the empty list. *)
Lemma search_absent_pattern :
  forall rng_fuel env w sk k stream w' d ds,
    Keys._matches sk = None ->
    Keys.generate_stream rng_fuel env w sk 10000 = Ok (stream, w') ->
    Patterns.digits (Keys.pattern sk) = d :: ds -> ~ In d stream ->
    Keys.find_pattern_matches rng_fuel env w sk k
    = Ok ([],
          Keys.MkPrivateKey (Keys.pi_seed sk) (Keys.e_seed sk) (Keys.pattern sk)
                            (Keys.num_offsets sk) (Keys.modulus sk)
                            (Keys.follow_digits sk) (Some []),
          w').
Proof.
  intros rng_fuel env w sk k stream w' d ds Hcache Hstream Hd Hnot.
  unfold Keys.find_pattern_matches.
  rewrite Hcache, Hstream. cbn [bind].
  rewrite find_pattern_no_match; [reflexivity | | reflexivity].
  intro pos. eapply match_first_digit_absent; eassumption.
Qed.

(** A second copy of a fresh key, searching in the world the first search
    left, finds what the first found. *)
Lemma find_pattern_matches_again :
  forall rng_fuel env w sk k matches sk' w',
    Keys._matches sk = None ->
    Keys.find_pattern_matches rng_fuel env w sk k = Ok (matches, sk', w') ->
    Keys.find_pattern_matches rng_fuel env w' sk k = Ok (matches, sk', w').
Proof.
  intros rng_fuel env w sk k matches sk' w' Hfresh H.
  unfold Keys.find_pattern_matches in *. rewrite Hfresh in *.
  inv_bind H. destruct a as [stream w2]. inv_bind H. injection H as <- <- <-.
  unfold Keys.generate_stream in *.
  rewrite (get_synthetic_stream_again _ _ _ _ _ _ _ _ _ _ _ Ha). cbn [bind].
  rewrite Ha0. reflexivity.
Qed.

(** A key that has searched answers from its cache: in every world, for
    every quota that is not below the number of cached matches. *)
Lemma find_pattern_matches_cached :
  forall rng_fuel env w sk k matches sk' w',
    Keys._matches sk = None -> 1 <= k ->
    Keys.find_pattern_matches rng_fuel env w sk k = Ok (matches, sk', w') ->
    len matches <= k /\
    forall env' w2 k2, k <= k2 ->
      Keys.find_pattern_matches rng_fuel env' w2 sk' k2 = Ok (matches, sk', w2).
Proof.
  intros rng_fuel env w sk k matches sk' w' Hfresh Hk H.
  unfold Keys.find_pattern_matches in H. rewrite Hfresh in H.
  inv_bind H. destruct a as [stream w2]. inv_bind H. injection H as <- <- <-.
  pose proof (find_pattern_bound _ _ _ _ _ _ _ Hk Ha0) as Hbound.
  split; [exact Hbound|]. intros env' w3 k2 Hk2.
  unfold Keys.find_pattern_matches. cbn [Keys._matches].
  rewrite slice_to_all by lia. reflexivity.
Qed.

(** X16.  A private key searches once: after a first search with a quota
    of at least one, every later search with the same or a larger quota
    returns the matches of the first, on any machine and in any world,
    and leaves the key as it is -- a key never holds more matches than
    its first quota allowed. *)
Theorem matches_are_searched_once :
  forall (rng_fuel : nat) (env env' : Streams.Env) (w w' : Keys.World)
         (sk sk1 : Keys.PrivateKey) (k1 k2 : Z) (matches : list Patterns.found)
         (w1 : Keys.World),
    Keys._matches sk = None ->
    1 <= k1 <= k2 ->
    Keys.find_pattern_matches rng_fuel env w sk k1 = Ok (matches, sk1, w1) ->
    len matches <= k1 /\
    Keys.find_pattern_matches rng_fuel env' w' sk1 k2 = Ok (matches, sk1, w').
Proof.
  intros rng_fuel env env' w w' sk sk1 k1 k2 matches w1 Hfresh Hk H.
  destruct (find_pattern_matches_cached _ _ _ _ _ _ _ _ Hfresh (proj1 Hk) H)
    as (Hbound & Hagain).
  split; [exact Hbound|]. apply Hagain. lia.
Qed.

Lemma matches_are_searched_once_witness :
  exists (sk1 : Keys.PrivateKey) (w1 : Keys.World),
    Keys._matches Inputs.key_absent_1 = None /\ 1 <= 2 <= 5 /\
    Keys.find_pattern_matches 64 Inputs.env None Inputs.key_absent_1 2 = Ok ([], sk1, w1) /\
    len (@nil Patterns.found) <= 2 /\
    Keys.find_pattern_matches 64 (Streams.MkEnv (Digits.MkDigitStore None None) 1) None sk1 5
    = Ok ([], sk1, None).
Proof.
  destruct key_absent_1_stream as (s1 & w1 & Hs1).
  pose proof (search_absent_pattern 64 Inputs.env None Inputs.key_absent_1 2 s1 w1 11 []
                eq_refl Hs1 eq_refl
                (digit_above_modulus_absent _ _ _ _ _ _ 11 Hs1 ltac:(lia))) as H1.
  eexists. exists w1.
  split; [reflexivity|]. split; [lia|]. split; [exact H1|].
  exact (matches_are_searched_once 64 Inputs.env
           (Streams.MkEnv (Digits.MkDigitStore None None) 1) None None
           Inputs.key_absent_1 _ 2 5 [] w1 eq_refl ltac:(lia) H1).
Defined.

(** A key comes back from its dictionary without its cache, when the
    spacing of its pattern has the length of the constructor's rule. *)
Lemma key_dict_round_trip (sk : Keys.PrivateKey) :
  Spec.wf_pattern (Keys.pattern sk) ->
  Keys.from_dict (Keys.to_dict sk)
  = Dicts.Loaded (Keys.PrivateKey_init (Keys.pi_seed sk) (Keys.e_seed sk) (Keys.pattern sk)
                                       (Keys.num_offsets sk) (Keys.modulus sk)
                                       (Keys.follow_digits sk)).
Proof.
  intro Hwf. destruct sk as [ps es [ds sp] n m f c].
  unfold Keys.from_dict, Keys.to_dict, Patterns.from_dict, Patterns.to_dict,
    Patterns.Pattern_init.
  cbn [Keys.pi_seed Keys.e_seed Keys.pattern Keys.num_offsets Keys.modulus
       Keys.follow_digits Keys.d_pi_seed Keys.d_e_seed Keys.d_pattern Keys.d_num_offsets
       Keys.d_modulus Keys.d_follow_digits Patterns.digits Patterns.spacing
       Patterns.d_digits Patterns.d_spacing Dicts.getitem Dicts.and_then Dicts.get].
  destruct sp as [s|]; [|reflexivity].
  unfold Spec.wf_pattern in Hwf. cbn in Hwf. destruct Hwf as [Hlen _].
  rewrite (proj2 (Z.eqb_eq _ _) Hlen). reflexivity.
Qed.

(** X17.  The key files round-trip: the private key written after binding
    loads as the key before binding (the cache of matches is not saved),
    the public key loads as itself, and the loaded pair verifies, in the
    world the binding left, for every quota. *)
Theorem saved_keys_verify :
  forall (rng_fuel : nat) (env : Streams.Env) (w : Keys.World)
         (sk : Keys.PrivateKey) (k : Z)
         (pk : Keys.PublicKey) (sk' : Keys.PrivateKey) (w' : Keys.World),
    Keys._matches sk = None ->
    Spec.wf_pattern (Keys.pattern sk) ->
    Keys.get_public_key rng_fuel env w sk k = Ok (pk, sk', w') ->
    Keys.from_dict (Keys.to_dict sk') = Dicts.Loaded sk /\
    Keys.PublicKey_from_dict (Keys.PublicKey_to_dict pk) = Dicts.Loaded pk /\
    Keys.verify_key_pair rng_fuel env w' sk pk = Ok (true, sk', w').
Proof.
  intros rng_fuel env w sk k pk sk' w' Hfresh Hwf H.
  split; [|split].
  - assert (Hsk' : Keys.pattern sk' = Keys.pattern sk /\
                   Keys.PrivateKey_init (Keys.pi_seed sk') (Keys.e_seed sk')
                     (Keys.pattern sk') (Keys.num_offsets sk') (Keys.modulus sk')
                     (Keys.follow_digits sk') = sk).
    { unfold Keys.get_public_key, Keys.get_follow_sequences in H.
      inv_bind H. destruct a as [[seqs sk1] w1]. injection H as _ <- _.
      inv_bind Ha. destruct a as [[matches sk2] w2]. injection Ha as _ <- _.
      unfold Keys.find_pattern_matches in Ha0. rewrite Hfresh in Ha0.
      inv_bind Ha0. destruct a as [stream w3]. inv_bind Ha0. injection Ha0 as _ <- _.
      cbn. split; [reflexivity|].
      destruct sk; cbn in *. subst. reflexivity. }
    destruct Hsk' as [Hpat Hinit].
    rewrite key_dict_round_trip by (rewrite Hpat; exact Hwf). now rewrite Hinit.
  - destruct pk. reflexivity.
  - eapply bind_then_verify_reloaded; eassumption.
Qed.

Lemma saved_keys_verify_witness :
  exists (pk : Keys.PublicKey) (sk' : Keys.PrivateKey) (w' : Keys.World),
    Keys._matches Inputs.key_absent_1 = None /\
    Spec.wf_pattern (Keys.pattern Inputs.key_absent_1) /\
    Keys.get_public_key 64 Inputs.env None Inputs.key_absent_1 5 = Ok (pk, sk', w') /\
    Keys.from_dict (Keys.to_dict sk') = Dicts.Loaded Inputs.key_absent_1 /\
    Keys.PublicKey_from_dict (Keys.PublicKey_to_dict pk) = Dicts.Loaded pk /\
    Keys.verify_key_pair 64 Inputs.env w' Inputs.key_absent_1 pk = Ok (true, sk', w').
Proof.
  destruct key_absent_1_stream as (s1 & w1 & Hs1).
  pose proof (bind_absent_pattern 64 Inputs.env None Inputs.key_absent_1 5 s1 w1 11 []
                eq_refl Hs1 eq_refl
                (digit_above_modulus_absent _ _ _ _ _ _ 11 Hs1 ltac:(lia))) as H1.
  eexists. eexists. exists w1.
  split; [reflexivity|]. split; [exact I|]. split; [exact H1|].
  exact (saved_keys_verify 64 Inputs.env None Inputs.key_absent_1 5 _ _ w1
           eq_refl I H1).
Defined.

(** ** The derived encryption key *)

Lemma digest_length (msg : list Z) : len (Sha256.digest msg) = 32.
Proof.
  unfold len, Sha256.digest.
  pose proof (blocks_length (Nat.div (List.length (Sha256.pad msg)) 64)
                Sha256.H0 (Sha256.pad msg) eq_refl) as H8.
  destruct (Sha256.blocks _ _ _) as [|a [|b [|c [|d [|e [|f [|g [|h [|]]]]]]]]];
    try discriminate H8.
  reflexivity.
Qed.

Lemma digest_chain_length (material : list Z) (n : nat) :
  forall h, len (Spec.digest_chain material h n) = 32 * Z.of_nat n.
Proof.
  induction n as [|n IH]; intro h; cbn [Spec.digest_chain]; [reflexivity|].
  rewrite len_app, digest_length, IH. lia.
Qed.

(** A longer chain of digests starts with the shorter one. *)
Lemma digest_chain_prefix (material : list Z) (n m : nat) :
  forall h, exists tail,
    Spec.digest_chain material h (n + m)
    = Spec.digest_chain material h n ++ tail.
Proof.
  induction n as [|n IH]; intro h; cbn [Spec.digest_chain Nat.add].
  - eexists. reflexivity.
  - destruct (IH (Sha256.digest (h ++ material))) as (tail & ->).
    exists tail. now rewrite app_assoc.
Qed.

(** With fuel for every missing byte the loop ends, having appended a
    chain of digests that reaches [key_bytes]. *)
Lemma extend_key_chain (material : list Z) (key_bytes : Z) (fuel : nat) :
  forall h res,
    (Z.to_nat (key_bytes - len res) <= fuel)%nat ->
    exists n,
      Keys.extend_key fuel material h res key_bytes
      = Ok (res ++ Spec.digest_chain material h n) /\
      key_bytes <= len res + 32 * Z.of_nat n.
Proof.
  induction fuel as [|fuel IH]; intros h res Hfuel.
  - exists O. cbn [Keys.extend_key Spec.digest_chain].
    destruct (Z.ltb_spec (len res) key_bytes); [lia|].
    rewrite app_nil_r. split; [reflexivity | lia].
  - cbn [Keys.extend_key].
    destruct (Z.ltb_spec (len res) key_bytes) as [Hlt|Hge].
    + destruct (IH (Sha256.digest (h ++ material)) (res ++ Sha256.digest (h ++ material)))
        as (n & Hrun & Hreach).
      { rewrite len_app, digest_length. lia. }
      exists (S n). cbn [Spec.digest_chain]. rewrite Hrun, <- app_assoc.
      split; [reflexivity|]. rewrite len_app, digest_length in Hreach. lia.
    + exists O. cbn [Spec.digest_chain]. rewrite app_nil_r. split; [reflexivity | lia].
Qed.

(** The key of [key_bytes] bytes, for [key_bytes] that is not negative:
    the first [key_bytes] bytes of the first digest followed by a chain of
    digests that is long enough. *)
Lemma derive_encryption_key_chain (self : Keys.PublicKey) (salt : string) (key_bytes : Z) :
  0 <= key_bytes ->
  let material := encode (String.append (Keys.verification_token self) salt) in
  let h := Sha256.digest material in
  exists n,
    Keys.derive_encryption_key self salt key_bytes
    = Ok (firstn (Z.to_nat key_bytes) (h ++ Spec.digest_chain material h n)) /\
    key_bytes <= len (h ++ Spec.digest_chain material h n).
Proof.
  intros Hk material h. unfold Keys.derive_encryption_key. fold material. fold h.
  assert (Hh : len h = 32) by apply digest_length.
  rewrite Hh. destruct (Z.gtb_spec key_bytes 32) as [Hgt|Hle].
  - destruct (extend_key_chain material key_bytes (Z.to_nat key_bytes) h h) as (n & Hrun & Hn).
    { lia. }
    exists n. rewrite Hrun. cbn [bind]. unfold slice_to.
    destruct (Z.leb_spec 0 key_bytes); [|lia].
    split; [reflexivity|]. rewrite len_app, digest_chain_length. lia.
  - exists O. cbn [Spec.digest_chain]. rewrite app_nil_r. unfold slice_to.
    destruct (Z.leb_spec 0 key_bytes); [|lia].
    split; [reflexivity | lia].
Qed.

(** X18.  [derive_encryption_key] always returns: a key of exactly
    [key_bytes] bytes when [key_bytes] is not negative, however long; for
    a negative [key_bytes] the first digest without its last [-key_bytes]
    bytes. *)
Theorem derived_key_length :
  forall (self : Keys.PublicKey) (salt : string) (key_bytes : Z),
  exists key,
    Keys.derive_encryption_key self salt key_bytes = Ok key /\
    len key = (if 0 <=? key_bytes then key_bytes else Z.max 0 (32 + key_bytes)).
Proof.
  intros self salt key_bytes. destruct (Z.leb_spec 0 key_bytes) as [Hk|Hk].
  - destruct (derive_encryption_key_chain self salt key_bytes Hk) as (n & Hrun & Hn).
    eexists. split; [exact Hrun|].
    unfold len in *. rewrite length_firstn. lia.
  - unfold Keys.derive_encryption_key. rewrite digest_length.
    destruct (Z.gtb_spec key_bytes 32); [lia|].
    eexists. split; [reflexivity|]. unfold slice_to.
    destruct (Z.leb_spec 0 key_bytes); [lia|].
    rewrite digest_length. unfold len. rewrite length_firstn.
    pose proof (digest_length
                  (encode (String.append (Keys.verification_token self) salt))) as H32.
    unfold len in H32. lia.
Qed.

Lemma firstn_app_long {A : Type} (k : nat) (l tail : list A) :
  (k <= List.length l)%nat -> firstn k (l ++ tail) = firstn k l.
Proof.
  intro H. rewrite firstn_app. replace (k - List.length l)%nat with O by lia.
  cbn [firstn]. apply app_nil_r.
Qed.

(** X19.  A shorter derived key is the beginning of a longer one: for the
    same token and salt, the key of [k1] bytes is the first [k1] bytes of
    the key of [k2 >= k1] bytes. *)
Theorem derived_key_prefix :
  forall (self : Keys.PublicKey) (salt : string) (k1 k2 : Z) (key2 : list Z),
    0 <= k1 <= k2 ->
    Keys.derive_encryption_key self salt k2 = Ok key2 ->
    Keys.derive_encryption_key self salt k1 = Ok (slice_to k1 key2).
Proof.
  intros self salt k1 k2 key2 Hk H2.
  destruct (derive_encryption_key_chain self salt k1 ltac:(lia)) as (n1 & H1 & Hn1).
  destruct (derive_encryption_key_chain self salt k2 ltac:(lia)) as (n2 & H2' & Hn2).
  rewrite H2 in H2'. injection H2' as ->. rewrite H1. f_equal.
  unfold slice_to. destruct (Z.leb_spec 0 k1); [|lia].
  rewrite firstn_firstn. replace (Nat.min (Z.to_nat k1) (Z.to_nat k2)) with (Z.to_nat k1) by lia.
  set (material := encode (String.append (Keys.verification_token self) salt)) in *.
  set (h := Sha256.digest material) in *.
  unfold len in Hn1, Hn2.
  destruct (Nat.le_ge_cases n1 n2) as [Hle|Hle].
  - destruct (digest_chain_prefix material n1 (n2 - n1) h) as (tail & Htail).
    replace (n1 + (n2 - n1))%nat with n2 in Htail by lia.
    rewrite Htail, app_assoc. symmetry. apply firstn_app_long. lia.
  - destruct (digest_chain_prefix material n2 (n1 - n2) h) as (tail & Htail).
    replace (n2 + (n1 - n2))%nat with n1 in Htail by lia.
    rewrite Htail, app_assoc. apply firstn_app_long. lia.
Qed.

Lemma derived_key_prefix_witness :
  exists key2 : list Z,
    0 <= 16 <= 32 /\
    Keys.derive_encryption_key (Keys.MkPublicKey "ab" 5 25) "c" 32 = Ok key2 /\
    Keys.derive_encryption_key (Keys.MkPublicKey "ab" 5 25) "c" 16 = Ok (slice_to 16 key2).
Proof.
  assert (H : Keys.derive_encryption_key (Keys.MkPublicKey "ab" 5 25) "c" 32
              = Ok (slice_to 32 (Sha256.digest (encode "abc")))).
  { unfold Keys.derive_encryption_key. rewrite digest_length. reflexivity. }
  eexists. split; [lia|]. split; [exact H|].
  exact (derived_key_prefix (Keys.MkPublicKey "ab" 5 25) "c" 16 32 _ ltac:(lia) H).
Defined.

(** ** Encryption under a public key, decryption under a private key *)

(** Of a public key only the token enters the derived key. *)
Lemma derive_encryption_key_token (a b : Keys.PublicKey) (salt : string) (key_bytes : Z) :
  Keys.verification_token a = Keys.verification_token b ->
  Keys.derive_encryption_key a salt key_bytes = Keys.derive_encryption_key b salt key_bytes.
Proof. intro H. unfold Keys.derive_encryption_key. now rewrite H. Qed.

(** The key of AES-256. *)
Lemma derive_encryption_key_32 (self : Keys.PublicKey) (salt : string) :
  exists key, Keys.derive_encryption_key self salt 32 = Ok key /\ len key = 32.
Proof.
  destruct (derive_encryption_key_chain self salt 32 ltac:(lia)) as (n & Hrun & Hn).
  eexists. split; [exact Hrun|]. unfold len in *. rewrite length_firstn. lia.
Qed.

(** What binding a fresh key returns, in the terms of its search. *)
Lemma get_public_key_search :
  forall rng_fuel env w sk k pk sk' w',
    Keys.get_public_key rng_fuel env w sk k = Ok (pk, sk', w') ->
    exists matches,
      Keys.find_pattern_matches rng_fuel env w sk k = Ok (matches, sk', w') /\
      Keys.verification_token pk = Patterns.hash_follow_sequences (map snd matches).
Proof.
  intros rng_fuel env w sk k pk sk' w' H.
  unfold Keys.get_public_key, Keys.get_follow_sequences in H.
  inv_bind H. destruct a as [[seqs sk1] w1]. injection H as <- <- <-.
  inv_bind Ha. destruct a as [[matches sk2] w2]. injection Ha as <- <- <-.
  exists matches. split; [exact Ha0 | reflexivity].
Qed.

(** X20.  [decrypt_data] deciphers nothing for a message of another
    token: when the private key binds, with the quota 5 of a default
    public key, to a token that is not the one of the message, the call
    raises [ValueError] -- whatever the primitives would have answered. *)
Theorem decrypt_refuses_other_token :
  forall (pkcs7_unpad : list Z -> result (list Z))
         (aes_cbc_decrypt : list Z -> list Z -> list Z -> result (list Z))
         (rng_fuel : nat) (env : Streams.Env) (w : Keys.World)
         (encrypted_data : Encryption.EncryptedData) (private_key : Keys.PrivateKey)
         (pk5 : Keys.PublicKey) (private_key' : Keys.PrivateKey) (w' : Keys.World),
    Keys.get_public_key rng_fuel env w private_key 5 = Ok (pk5, private_key', w') ->
    Encryption.verification_token encrypted_data <> Keys.verification_token pk5 ->
    Encryption.decrypt_data pkcs7_unpad aes_cbc_decrypt rng_fuel env w
                            encrypted_data private_key
    = Raise ValueError.
Proof.
  intros pkcs7_unpad aes_cbc_decrypt rng_fuel env w ed sk pk5 sk' w' Hbind Hother.
  destruct (get_public_key_search _ _ _ _ _ _ _ _ Hbind) as (matches & Hsearch & Htoken).
  unfold Encryption.decrypt_data. cbn [Keys.max_positions].
  rewrite Hsearch. cbn [bind].
  destruct (String.eqb_spec (Patterns.hash_follow_sequences (map snd matches))
              (Encryption.verification_token ed)) as [Heq|Hne]; [|reflexivity].
  exfalso. apply Hother. now rewrite Htoken.
Qed.

(** X21.  The message carries all its key is made of: [encrypt_data]
    always returns, and the AES key it enciphers under is derived from
    the token and the salt it stores in the message, with any public key
    rebuilt from that token. *)
Theorem message_carries_key_material :
  forall (pkcs7_pad : list Z -> list Z)
         (aes_cbc_encrypt : list Z -> list Z -> list Z -> list Z)
         (token_hex : string) (urandom data : list Z) (public_key : Keys.PublicKey)
         (salt : option string),
  exists (encrypted_data : Encryption.EncryptedData) (key : list Z),
    Encryption.encrypt_data pkcs7_pad aes_cbc_encrypt token_hex urandom data public_key salt
    = Ok encrypted_data /\
    len key = 32 /\
    (forall max_positions follow_digits,
        Keys.derive_encryption_key
          (Keys.MkPublicKey (Encryption.verification_token encrypted_data)
                            max_positions follow_digits)
          (Encryption.salt encrypted_data) 32 = Ok key) /\
    Encryption.ciphertext encrypted_data
    = aes_cbc_encrypt key (Encryption.iv encrypted_data) (pkcs7_pad data) /\
    Encryption.iv encrypted_data = urandom /\
    Encryption.salt encrypted_data = match salt with
                                     | None => token_hex
                                     | Some s => s
                                     end /\
    Encryption.verification_token encrypted_data = Keys.verification_token public_key.
Proof.
  intros pkcs7_pad aes_cbc_encrypt token_hex urandom data pk salt.
  set (s := match salt with None => token_hex | Some s => s end).
  destruct (derive_encryption_key_32 pk s) as (key & Hkey & Hlen).
  eexists. exists key. unfold Encryption.encrypt_data. fold s. rewrite Hkey. cbn [bind].
  split; [reflexivity|]. split; [exact Hlen|].
  cbn [Encryption.verification_token Encryption.salt Encryption.ciphertext Encryption.iv].
  split; [|repeat split].
  intros mp fd. rewrite <- Hkey. now apply derive_encryption_key_token.
Qed.

Lemma decrypt_encrypted_cached :
  forall (pkcs7_pad : list Z -> list Z) (pkcs7_unpad : list Z -> result (list Z))
         (aes_cbc_encrypt : list Z -> list Z -> list Z -> list Z)
         (aes_cbc_decrypt : list Z -> list Z -> list Z -> result (list Z)),
    (forall data, pkcs7_unpad (pkcs7_pad data) = Ok data) ->
    (forall key iv padded_data,
        len key = 32 -> len iv = 16 ->
        aes_cbc_decrypt key iv (aes_cbc_encrypt key iv padded_data) = Ok padded_data) ->
  forall rng_fuel env w sk k matches sk1 w1 pk token_hex urandom data salt,
    Keys._matches sk = None -> 1 <= k <= 5 -> len urandom = 16 ->
    Keys.find_pattern_matches rng_fuel env w sk k = Ok (matches, sk1, w1) ->
    Keys.verification_token pk = Patterns.hash_follow_sequences (map snd matches) ->
    exists encrypted_data,
      Encryption.encrypt_data pkcs7_pad aes_cbc_encrypt token_hex urandom data pk salt
      = Ok encrypted_data /\
      (forall sk2 w2 w3,
          Keys.find_pattern_matches rng_fuel env w2 sk2 5 = Ok (matches, sk1, w3) ->
          Encryption.decrypt_data pkcs7_unpad aes_cbc_decrypt rng_fuel env w2
                                  encrypted_data sk2
          = Ok (data, sk1, w3)).
Proof.
  intros pkcs7_pad pkcs7_unpad aes_cbc_encrypt aes_cbc_decrypt unpad_pad decrypt_encrypt
         rng_fuel env w sk k matches sk1 w1 pk token_hex urandom data salt
         Hfresh Hk Hiv Hsearch Htoken.
  set (s := match salt with None => token_hex | Some s => s end).
  destruct (derive_encryption_key_32 pk s) as (key & Hkey & Hlen).
  eexists. unfold Encryption.encrypt_data. fold s. rewrite Hkey. cbn [bind].
  split; [reflexivity|]. intros sk2 w2 w3 Hagain.
  unfold Encryption.decrypt_data.
  cbn [Keys.max_positions Encryption.verification_token Encryption.salt
       Encryption.ciphertext Encryption.iv].
  rewrite Hagain. cbn [bind]. rewrite <- Htoken, String.eqb_refl. cbn [negb].
  rewrite (derive_encryption_key_token
             (Keys.MkPublicKey (Keys.verification_token pk) 5 25) pk s 32 eq_refl), Hkey.
  cbn [bind].
  rewrite decrypt_encrypt by assumption. cbn [bind].
  rewrite unpad_pad. reflexivity.
Qed.

(** X22.  Encryption and decryption round-trip: with primitives that
    invert each other, a message encrypted under the public key a fresh
    private key was bound to with a quota between 1 and 5 is decrypted
    to the data by that private key, in every world; a second copy of the
    key that has not searched decrypts it when the quota was 5. *)
Theorem decrypt_encrypted :
  forall (pkcs7_pad : list Z -> list Z) (pkcs7_unpad : list Z -> result (list Z))
         (aes_cbc_encrypt : list Z -> list Z -> list Z -> list Z)
         (aes_cbc_decrypt : list Z -> list Z -> list Z -> result (list Z))
         (rng_fuel : nat) (env : Streams.Env) (w : Keys.World)
         (private_key : Keys.PrivateKey) (max_positions : Z)
         (public_key : Keys.PublicKey) (private_key' : Keys.PrivateKey) (w' : Keys.World)
         (token_hex : string) (urandom data : list Z) (salt : option string),
    (forall data, pkcs7_unpad (pkcs7_pad data) = Ok data) ->
    (forall key iv padded_data,
        len key = 32 -> len iv = 16 ->
        aes_cbc_decrypt key iv (aes_cbc_encrypt key iv padded_data) = Ok padded_data) ->
    Keys._matches private_key = None ->
    1 <= max_positions <= 5 ->
    len urandom = 16 ->
    Keys.get_public_key rng_fuel env w private_key max_positions
      = Ok (public_key, private_key', w') ->
    exists encrypted_data,
      Encryption.encrypt_data pkcs7_pad aes_cbc_encrypt token_hex urandom data
                              public_key salt
      = Ok encrypted_data /\
      (forall w2,
          Encryption.decrypt_data pkcs7_unpad aes_cbc_decrypt rng_fuel env w2
                                  encrypted_data private_key'
          = Ok (data, private_key', w2)) /\
      (max_positions = 5 ->
       Encryption.decrypt_data pkcs7_unpad aes_cbc_decrypt rng_fuel env w'
                               encrypted_data private_key
       = Ok (data, private_key', w')).
Proof.
  intros pad unpad enc dec rng_fuel env w sk k pk sk1 w1 token_hex urandom data salt
         Hunpad Hdec Hfresh Hk Hiv Hbind.
  destruct (get_public_key_search _ _ _ _ _ _ _ _ Hbind) as (matches & Hsearch & Htoken).
  destruct (decrypt_encrypted_cached pad unpad enc dec Hunpad Hdec
              rng_fuel env w sk k matches sk1 w1 pk token_hex urandom data salt
              Hfresh Hk Hiv Hsearch Htoken) as (ed & Henc & Hback).
  exists ed. split; [exact Henc|]. split.
  - intro w2. apply Hback.
    destruct (find_pattern_matches_cached _ _ _ _ _ _ _ _ Hfresh (proj1 Hk) Hsearch)
      as (_ & Hcached).
    apply Hcached. lia.
  - intros ->. apply Hback.
    exact (find_pattern_matches_again _ _ _ _ _ _ _ _ Hfresh Hsearch).
Qed.

Lemma decrypt_encrypted_witness :
  exists (public_key : Keys.PublicKey) (private_key' : Keys.PrivateKey) (w' : Keys.World)
         (encrypted_data : Encryption.EncryptedData),
    Keys.get_public_key 64 Inputs.env None Inputs.key_absent_1 5
      = Ok (public_key, private_key', w') /\
    Encryption.encrypt_data (fun d => d) (fun _ _ p => p) "5a" (repeat 0 16) [104; 105]
                            public_key None
    = Ok encrypted_data /\
    (forall w2,
        Encryption.decrypt_data (fun p => Ok p) (fun _ _ c => Ok c) 64 Inputs.env w2
                                encrypted_data private_key'
        = Ok ([104; 105], private_key', w2)) /\
    (5 = 5 ->
     Encryption.decrypt_data (fun p => Ok p) (fun _ _ c => Ok c) 64 Inputs.env w'
                             encrypted_data Inputs.key_absent_1
     = Ok ([104; 105], private_key', w')).
Proof.
  destruct key_absent_1_stream as (s1 & w1 & Hs1).
  pose proof (bind_absent_pattern 64 Inputs.env None Inputs.key_absent_1 5 s1 w1 11 []
                eq_refl Hs1 eq_refl
                (digit_above_modulus_absent _ _ _ _ _ _ 11 Hs1 ltac:(lia))) as H1.
  destruct (decrypt_encrypted (fun d => d) (fun p => Ok p) (fun _ _ p => p)
              (fun _ _ c => Ok c) 64 Inputs.env None Inputs.key_absent_1 5 _ _ w1
              "5a" (repeat 0 16) [104; 105] None
              (fun _ => eq_refl) (fun _ _ _ _ _ => eq_refl) eq_refl ltac:(lia) eq_refl H1)
    as (ed & Henc & Hdec).
  eexists. eexists. exists w1. exists ed.
  split; [exact H1|]. split; [exact Henc|]. exact Hdec.
Defined.

Lemma decrypt_refuses_other_token_witness :
  exists (pk5 : Keys.PublicKey) (private_key' : Keys.PrivateKey) (w' : Keys.World),
    Keys.get_public_key 64 Inputs.env None Inputs.key_absent_1 5
      = Ok (pk5, private_key', w') /\
    Encryption.verification_token (Encryption.MkEncryptedData [] [] "" "") <>
      Keys.verification_token pk5 /\
    Encryption.decrypt_data (fun p => Ok p) (fun _ _ c => Ok c) 64 Inputs.env None
                            (Encryption.MkEncryptedData [] [] "" "") Inputs.key_absent_1
    = Raise ValueError.
Proof.
  destruct key_absent_1_stream as (s1 & w1 & Hs1).
  pose proof (bind_absent_pattern 64 Inputs.env None Inputs.key_absent_1 5 s1 w1 11 []
                eq_refl Hs1 eq_refl
                (digit_above_modulus_absent _ _ _ _ _ _ 11 Hs1 ltac:(lia))) as H1.
  assert (Hother : Encryption.verification_token (Encryption.MkEncryptedData [] [] "" "") <>
                   Keys.verification_token
                     (Keys.MkPublicKey (Patterns.hash_follow_sequences []) 5
                                       (Keys.follow_digits Inputs.key_absent_1))).
  { cbn [Encryption.verification_token Keys.verification_token]. intro Heq.
    apply (f_equal String.length) in Heq.
    unfold Patterns.hash_follow_sequences in Heq. rewrite hexdigest_length in Heq.
    discriminate Heq. }
  eexists. eexists. exists w1.
  split; [exact H1|]. split; [exact Hother|].
  exact (decrypt_refuses_other_token (fun p => Ok p) (fun _ _ c => Ok c)
           64 Inputs.env None (Encryption.MkEncryptedData [] [] "" "")
           Inputs.key_absent_1 _ _ w1 H1 Hother).
Defined.

(** ** Follow digits at the end of the stream *)

(** X23.  The follow sequence of a match that ends at [end_pos >= 0] is
    the stream from [end_pos] on, cut after [follow_digits] cells or at
    the end of the stream, whichever comes first: it is shorter than
    [follow_digits] near the end of the stream and empty at the end, and
    never an error. *)
Theorem follow_digits_stop_at_stream_end :
  forall (self : Patterns.PatternMatcher) (stream : list Z) (end_pos : Z),
    0 <= end_pos ->
    len (Patterns._extract_follow_digits self stream end_pos)
    = Z.max 0 (Z.min (Patterns.follow_digits self) (len stream - end_pos)) /\
    forall i : nat,
      (i < List.length (Patterns._extract_follow_digits self stream end_pos))%nat ->
      nth i (Patterns._extract_follow_digits self stream end_pos) 0
      = nth (Z.to_nat end_pos + i) stream 0.
Proof.
  intros self stream end_pos Hpos. unfold Patterns._extract_follow_digits.
  set (available := Z.min (Patterns.follow_digits self) (len stream - end_pos)).
  destruct (Z.leb_spec available 0) as [Hnone|Hsome].
  - split; [cbn; lia|]. intros i Hi. cbn in Hi. lia.
  - assert (Ha : slice_bound stream end_pos = end_pos).
    { unfold slice_bound. destruct (Z.ltb_spec end_pos 0); lia. }
    assert (Hb : slice_bound stream (end_pos + available) = end_pos + available).
    { unfold slice_bound. destruct (Z.ltb_spec (end_pos + available) 0); lia. }
    unfold slice. rewrite Ha, Hb.
    replace (end_pos + available - end_pos) with available by lia.
    assert (Hlen : List.length (firstn (Z.to_nat available) (skipn (Z.to_nat end_pos) stream))
                   = Z.to_nat available).
    { rewrite length_firstn, length_skipn. unfold len in *. lia. }
    split; [unfold len; rewrite Hlen; lia|].
    intros i Hi. rewrite Hlen in Hi.
    rewrite nth_firstn. destruct (Nat.ltb_spec i (Z.to_nat available)); [|lia].
    apply nth_skipn.
Qed.

Lemma follow_digits_stop_at_stream_end_witness :
  0 <= 4 /\
  Patterns._extract_follow_digits (Patterns.MkPatternMatcher None 3) [0; 7; 3; 5; 5; 1] 4
  = [5; 1] /\
  len (Patterns._extract_follow_digits (Patterns.MkPatternMatcher None 3) [0; 7; 3; 5; 5; 1] 4)
  = Z.max 0 (Z.min 3 (len [0; 7; 3; 5; 5; 1] - 4)).
Proof.
  split; [lia|]. split; [reflexivity|].
  exact (proj1 (follow_digits_stop_at_stream_end (Patterns.MkPatternMatcher None 3)
                  [0; 7; 3; 5; 5; 1] 4 ltac:(lia))).
Defined.

(** The last digits of the file of e and the first ones after the wrap,
    for X24. *)
Lemma get_e_digits_continuity_witness :
  Digits.open Inputs.terminated_store
  = Ok (encode Digits.PI_START ++ [10], encode Digits.E_START ++ [10]) /\
  Spec.terminated (encode Digits.E_START ++ [10]) /\
  Digits.get_e_digits Inputs.terminated_store 97 (2 + 4)
  = (l1 <- Digits.get_e_digits Inputs.terminated_store 97 2 ;;
     l2 <- Digits.get_e_digits Inputs.terminated_store (97 + 2) 4 ;; Ok (l1 ++ l2)).
Proof.
  assert (Hterm : Spec.terminated (encode Digits.E_START ++ [10])).
  { split; [vm_compute; reflexivity|]. split; [reflexivity | discriminate]. }
  split; [reflexivity|]. split; [exact Hterm|].
  exact (get_e_digits_continuity Inputs.terminated_store
           (encode Digits.PI_START ++ [10]) (encode Digits.E_START ++ [10]) 97 2 4
           eq_refl Hterm ltac:(lia) ltac:(lia) ltac:(lia)).
Defined.
